(** * Quantum Password Strength Analyzer: [main.py]

    A shallow embedding of the utilities of [main.py] ([estimate_entropy],
    [human_time], [classical_time_seconds], [grover_time_seconds],
    [time_to_percent_years]), of the length sweep that feeds the chart, and
    of the page that calls them: the password generator, the analysis of a
    password with its recommendation, and one run of the script over the
    session state.

    Python's [float] is IEEE 754 binary64: it is modelled by Rocq's primitive
    [float], whose operations are the same binary64 operations.  Python's
    [int] is [Z], a [str] is the list of its code points, and an exception is
    a result of the error monad [Py].  The C library functions behind [**],
    [math.log2] and [math.log10], and the Unicode tables behind [str.islower]
    and friends above U+00FF, are not part of the repository: they are the
    fields of a [Platform]. *)

From Stdlib Require Import ZArith NArith List String Ascii Bool Lia.
From Stdlib Require Import Permutation.
From Stdlib Require Import Floats.
Import ListNotations.

(** ** Exceptions *)

Inductive exn : Set :=
| OverflowError
| ValueError
| ZeroDivisionError.

Inductive Py (A : Type) : Type :=
| Ok (a : A)
| Raise (e : exn).

Arguments Ok {A} a.
Arguments Raise {A} e.

Definition bind {A B : Type} (m : Py A) (k : A -> Py B) : Py B :=
  match m with
  | Ok a => k a
  | Raise e => Raise e
  end.

Declare Scope py_scope.
Delimit Scope py_scope with py.
Notation "x <- m ;; k" := (bind m (fun x => k))
  (at level 61, m at next level, right associativity) : py_scope.
Open Scope py_scope.

(** [[f(x) for x in xs]] with an [f] that may raise. *)
Fixpoint mapM {A B : Type} (f : A -> Py B) (xs : list A) : Py (list B) :=
  match xs with
  | [] => Ok []
  | x :: rest => y <- f x ;; ys <- mapM f rest ;; Ok (y :: ys)
  end.

(** ** Strings *)

(** A Python [str]: its code points, in order. *)
Definition char : Set := N.
Definition str : Set := list char.

(** An ASCII literal as a [str]. *)
Definition lit (s : string) : str :=
  map N_of_ascii (list_ascii_of_string s).

(** The decimal digit [d] (0..9) as a character. *)
Definition digit_char (d : Z) : char := (48 + Z.to_N d)%N.

(** The [width] low decimal digits of [n], most significant first. *)
Fixpoint fixed_digits (width : nat) (n : Z) : str :=
  match width with
  | O => []
  | S w => fixed_digits w (n / 10) ++ [digit_char (n mod 10)]
  end.

Fixpoint strip_zeros (s : str) : str :=
  match s with
  | 48%N :: rest => strip_zeros rest
  | _ => s
  end.

(** The decimal numeral of [n >= 0], with no leading zero. *)
Definition decimal (n : Z) : str :=
  match strip_zeros (fixed_digits (S (Z.to_nat (Z.log2 n))) n) with
  | [] => [48%N]
  | s => s
  end.

(** ** Floats as Python sees them *)

Module PyFloat.
Local Open Scope float_scope.

(** [a / b]: [float_div] raises on a zero divisor and otherwise divides in
    binary64 (a quotient too large for the format is an infinity). *)
Definition truediv (a b : float) : Py float :=
  if b =? 0 then Raise ZeroDivisionError else Ok (a / b).

(** [x >= y] *)
Definition geb (x y : float) : bool := y <=? x.

(** [x != y] *)
Definition neb (x y : float) : bool := negb (x =? y).

(** An [int] operand of a float operation ([PyLong_AsDouble]): the nearest
    double, ties to even; an [int] beyond the doubles raises. *)
Definition of_int (n : Z) : Py float :=
  let x := SF2Prim (binary_normalize prec emax n 0 false) in
  if is_infinity x then Raise OverflowError else Ok x.

(** [int(x)]: truncation toward zero; a NaN and the infinities raise. *)
Definition to_int (x : float) : Py Z :=
  match Prim2SF x with
  | S754_nan => Raise ValueError
  | S754_infinity _ => Raise OverflowError
  | S754_zero _ => Ok 0%Z
  | S754_finite s m e =>
      Ok (cond_Zopp s
            (if (0 <=? e)%Z then Z.pos m * 2 ^ e else Z.pos m / 2 ^ (- e)))%Z
  end.

(** The integer nearest to [m * 2^e * k], ties to even: the digits that
    [dtoa] (mode 3) yields for a finite double [m * 2^e], with [k] the power
    of ten of the requested places. *)
Definition scaled_round_half_even (m : positive) (e k : Z) : Z :=
  let n := (Z.pos m * k)%Z in
  if (0 <=? e)%Z then (n * 2 ^ e)%Z
  else
    let d := (2 ^ (- e))%Z in
    let q := (n / d)%Z in
    match (2 * (n mod d) ?= d)%Z with
    | Lt => q
    | Gt => (q + 1)%Z
    | Eq => if Z.even q then q else (q + 1)%Z
    end.

(** The double nearest to [n / k] ([strtod] on a decimal numeral), with the
    sign [s]. *)
Definition of_ratio (s : bool) (n : Z) (k : positive) : float :=
  match n with
  | Z0 => if s then neg_zero else zero
  | _ =>
      let '(q, e, l) := SFdiv_core_binary prec emax n 0 (Z.pos k) 0 in
      SF2Prim (binary_round_aux prec emax s q e l)
  end.

(** [round(x, 2)] ([float.__round__] with [ndigits = 2]): NaN and the
    infinities round to themselves; a finite [x] is rounded to two decimal
    places, ties to even on its exact value, and the decimal is read back as
    a double. *)
Definition round2 (x : float) : Py float :=
  match Prim2SF x with
  | S754_finite s m e =>
      let r := of_ratio s (scaled_round_half_even m e 100) 100 in
      if is_infinity r then Raise OverflowError else Ok r
  | _ => Ok x
  end.

(** [format(x, ".{places}f")] for [places >= 1]: sign, integer part, a point
    and exactly [places] digits, rounded ties to even on the exact value. *)
Definition fixed_point (places : nat) (n : Z) : str :=
  let k := (10 ^ Z.of_nat places)%Z in
  decimal (n / k) ++ lit "." ++ fixed_digits places (n mod k).

Definition sign_str (s : bool) : str := if s then lit "-" else [].

Definition format_f (places : nat) (x : float) : str :=
  match Prim2SF x with
  | S754_nan => lit "nan"
  | S754_infinity s => sign_str s ++ lit "inf"
  | S754_zero s => sign_str s ++ fixed_point places 0
  | S754_finite s m e =>
      sign_str s ++
      fixed_point places (scaled_round_half_even m e (10 ^ Z.of_nat places))
  end.

End PyFloat.

(** ** The platform *)

Record Platform : Type := {
  (** C's [pow(2.0, w)], called on a finite non-zero [w] *)
  pow_2 : float -> float;
  (** C's [log2(x)], called on a finite [x > 0] *)
  log_2 : float -> float;
  (** C's [log10(x)], called on a finite [x > 0] *)
  log_10 : float -> float;
  (** the Unicode database of the interpreter above U+00FF: lowercase,
      uppercase and digit characters *)
  ucd_lower : char -> bool;
  ucd_upper : char -> bool;
  ucd_digit : char -> bool
}.

Definition between (lo hi c : N) : bool := ((lo <=? c) && (c <=? hi))%N.

Section Core.
Variable P : Platform.
Local Open Scope float_scope.

(** *** Built-ins *)

(** [c.islower()], [c.isupper()] and [c.isdigit()] for a one-character
    string: the Unicode properties Lowercase, Uppercase and Digit.  Basic
    Latin and Latin-1 Supplement are spelled out. *)
Definition islower (c : char) : bool :=
  if (c <? 256)%N then
    between 97 122 c || (c =? 170)%N || (c =? 181)%N || (c =? 186)%N ||
    between 223 246 c || between 248 255 c
  else ucd_lower P c.

Definition isupper (c : char) : bool :=
  if (c <? 256)%N then
    between 65 90 c || between 192 214 c || between 216 222 c
  else ucd_upper P c.

Definition isdigit (c : char) : bool :=
  if (c <? 256)%N then
    between 48 57 c || between 178 179 c || (c =? 185)%N
  else ucd_digit P c.

(** [string.punctuation] *)
Definition punctuation : str :=
  lit "!" ++ [34%N] ++ lit "#$%&'()*+,-./:;<=>?@[\]^_`{|}~".

(** [c in string.punctuation] for a one-character [c] *)
Definition in_punctuation (c : char) : bool :=
  existsb (N.eqb c) punctuation.

(** [2 ** w] with [w] a float: [float_pow] with base [2.0].  Its special
    cases come first and never reach the C library; an infinite result of
    [pow] on a finite exponent is an [OverflowError]. *)
Definition pow2 (w : float) : Py float :=
  if w =? 0 then Ok 1
  else if is_nan w then Ok w
  else if is_infinity w then Ok (if 0 <? w then infinity else 0)
  else
    let ix := pow_2 P w in
    if is_infinity ix then Raise OverflowError else Ok ix.

(** [m_log2] and [m_log10] of [mathmodule.c]: the C function on a finite
    positive argument, and fixed answers elsewhere. *)
Definition m_log (c_log : float -> float) (x : float) : float :=
  if is_finite x then
    if 0 <? x then c_log x
    else if x =? 0 then neg_infinity
    else nan
  else if is_nan x then x
  else if 0 <? x then x
  else nan.

(** [math_1]: a NaN from a number, or an infinity from a finite number, is a
    [ValueError] ("math domain error"). *)
Definition math_1 (func : float -> float) (x : float) : Py float :=
  let r := func x in
  if is_nan r && negb (is_nan x) then Raise ValueError
  else if is_infinity r && is_finite x then Raise ValueError
  else Ok r.

(** [math.log10(x)] on a float. *)
Definition math_log10 (x : float) : Py float :=
  math_1 (m_log (log_10 P)) x.

(** [math.log2(n)] on an [int] ([loghelper]): a [ValueError] unless
    [n > 0]; then the logarithm of [n] as a double.  (The program passes
    pool sizes, at most 94; the detour of [loghelper] for an [int] beyond
    the doubles is left out.) *)
Definition math_log2 (n : Z) : Py float :=
  if (n <=? 0)%Z then Raise ValueError
  else x <- PyFloat.of_int n ;; Ok (m_log (log_2 P) x).

(** *** Utilities *)

Inductive pool_key : Set := lower | upper | digits | symbols.

Definition POOL_SIZES (k : pool_key) : Z :=
  match k with
  | lower => 26
  | upper => 26
  | digits => 10
  | symbols => 32
  end%Z.

(** The first five lines of [estimate_entropy] (and lines 161-165 of the
    sweep): the pool size of the classes present in [password]. *)
Definition effective_pool (password : str) : Z :=
  let pool := 0%Z in
  let pool := if existsb islower password
              then (pool + POOL_SIZES lower)%Z else pool in
  let pool := if existsb isupper password
              then (pool + POOL_SIZES upper)%Z else pool in
  let pool := if existsb isdigit password
              then (pool + POOL_SIZES digits)%Z else pool in
  let pool := if existsb in_punctuation password
              then (pool + POOL_SIZES symbols)%Z else pool in
  pool.

Definition len (password : str) : Z := Z.of_nat (List.length password).

Definition estimate_entropy (password : str) : Py float :=
  let pool := effective_pool password in
  if (pool =? 0)%Z then Ok 0
  else
    lg <- math_log2 pool ;;
    n <- PyFloat.of_int (len password) ;;
    PyFloat.round2 (lg * n).

(** U+221E *)
Definition infinity_symbol : str := [8734%N].

Definition human_time (seconds : float) : Py str :=
  if PyFloat.neb seconds seconds || (seconds =? infinity)
  then Ok infinity_symbol
  else if seconds <? 1
  then Ok (PyFloat.format_f 3 seconds ++ lit " s")
  else
    let minute := 60 in
    let hour := 3600 in
    let day := 86400 in
    let year := 31536000 in
    if seconds <? minute
    then Ok (PyFloat.format_f 2 seconds ++ lit " s")
    else if seconds <? hour
    then q <- PyFloat.truediv seconds minute ;;
         Ok (PyFloat.format_f 2 q ++ lit " min")
    else if seconds <? day
    then q <- PyFloat.truediv seconds hour ;;
         Ok (PyFloat.format_f 2 q ++ lit " hr")
    else if seconds <? year
    then q <- PyFloat.truediv seconds day ;;
         Ok (PyFloat.format_f 2 q ++ lit " days")
    else q <- PyFloat.truediv seconds year ;;
         Ok (PyFloat.format_f 2 q ++ lit " years").

Definition classical_time_seconds (entropy_bits ops_per_sec : float)
    (average : bool) : Py float :=
  if ops_per_sec <=? 0 then Ok infinity
  else
    p <- pow2 entropy_bits ;;
    full <- PyFloat.truediv p ops_per_sec ;;
    if average then PyFloat.truediv full 2 else Ok full.

Definition grover_time_seconds (entropy_bits quantum_ops_per_sec : float)
    (average : bool) : Py float :=
  if quantum_ops_per_sec <=? 0 then Ok infinity
  else
    half <- PyFloat.truediv entropy_bits 2 ;;
    p <- pow2 half ;;
    full <- PyFloat.truediv p quantum_ops_per_sec ;;
    if average then PyFloat.truediv full 2 else Ok full.

Definition time_to_percent_years (seconds : float) : Py Z :=
  if seconds <=? 1 then Ok 0%Z
  else
    years <- PyFloat.truediv seconds 31536000 ;;
    if PyFloat.geb years 100 then Ok 100%Z
    else
      lg <- math_log10 (years + 1) ;;
      half <- PyFloat.truediv lg 2 ;;
      pct <- PyFloat.to_int (half * 100) ;;
      Ok (Z.max 0 (Z.min 100 pct)).

(** *** The length sweep (lines 160-174) *)

(** [list(range(4, 33))] *)
Definition lengths : list Z := map Z.of_nat (seq 4 29).

(** Lines 161-167: the pool of the analysed password, with the lowercase
    pool in place of an empty one. *)
Definition sweep_pool (password : str) : Z :=
  let pool := effective_pool password in
  if (pool =? 0)%Z then POOL_SIZES lower else pool.

Definition row : Type := Z * float * float * float.

(** The body of the loop for one length [l]. *)
Definition sweep_row (pool : Z) (c_ops q_ops : float) (l : Z) : Py row :=
  lg <- math_log2 pool ;;
  lf <- PyFloat.of_int l ;;
  let e := lg * lf in
  c_t <- classical_time_seconds e c_ops true ;;
  q_t <- grover_time_seconds e q_ops true ;;
  lc <- math_log10 (c_t + 1) ;;
  lq <- math_log10 (q_t + 1) ;;
  Ok (l, e, lc, lq).

Definition sweep (password : str) (c_ops q_ops : float) : Py (list row) :=
  mapM (sweep_row (sweep_pool password) c_ops q_ops) lengths.

End Core.

(** ** The page (lines 95-174)

    One run of the script, from the session state and the values of the
    widgets to what the page shows.  The Streamlit calls that lay out and
    render (Markdown, the table, the meters, the chart) are the consumers of
    the [report]; what they are given is computed here. *)

(** *** The generator (lines 102-106) *)

Definition ascii_lowercase : str := lit "abcdefghijklmnopqrstuvwxyz".
Definition ascii_uppercase : str := lit "ABCDEFGHIJKLMNOPQRSTUVWXYZ".
Definition ascii_letters : str := ascii_lowercase ++ ascii_uppercase.
Definition string_digits : str := lit "0123456789".

(** [string.ascii_letters + string.digits + string.punctuation] *)
Definition alphabet : str := ascii_letters ++ string_digits ++ punctuation.

(** [secrets.choice(seq)] on a non-empty [seq]: the element at the index
    below [len(seq)] that the random source of the system decides.  [r] is
    the number the source yields for this call; it is read below
    [len(seq)]. *)
Definition choice (seq : str) (r : N) : char :=
  nth (N.to_nat (r mod N.of_nat (List.length seq))) seq 0%N.

(** ["".join(secrets.choice(alphabet) for _ in range(gen_len))], with
    [random i] the number of the source at the call for the character [i]
    ([range] of a number that is not positive is empty). *)
Definition generate (gen_len : Z) (random : nat -> N) : str :=
  map (fun i => choice alphabet (random i)) (seq 0 (Z.to_nat gen_len)).

(** *** The recommendation (lines 145-152) *)

Inductive recommendation : Set :=
| Weak          (** [st.error]: "Weak ..." *)
| Moderate      (** [st.warning]: "Moderate ..." *)
| Strong        (** [st.success]: "Strong ..." *)
| Very_strong.  (** [st.success]: "Very strong ..." *)

Definition recommend (entropy : float) : recommendation :=
  if (entropy <? 40)%float then Weak
  else if (entropy <? 60)%float then Moderate
  else if (entropy <? 80)%float then Strong
  else Very_strong.

(** *** The analysis of a password (lines 119-174) *)

(** What the page shows for a password: the entropy, the two average times
    with their rendering by [human_time] (in the table and again in the
    captions of the meters), the widths of the two meters, the recommendation
    and the rows of the chart. *)
Record report : Type := {
  entropy : float;
  classical_avg : float;
  quantum_avg : float;
  table : str * str;
  c_pct : Z;
  q_pct : Z;
  captions : str * str;
  advice : recommendation;
  data : list row
}.

Section Page.
Variable P : Platform.

Definition analysis (password : str) (c_ops q_ops : float) : Py report :=
  entropy <- estimate_entropy P password ;;
  classical_avg <- classical_time_seconds P entropy c_ops true ;;
  quantum_avg <- grover_time_seconds P entropy q_ops true ;;
  table_c <- human_time classical_avg ;;
  table_q <- human_time quantum_avg ;;
  c_pct <- time_to_percent_years P classical_avg ;;
  q_pct <- time_to_percent_years P quantum_avg ;;
  caption_c <- human_time classical_avg ;;
  caption_q <- human_time quantum_avg ;;
  let advice := recommend entropy in
  data <- sweep P password c_ops q_ops ;;
  Ok {| entropy := entropy;
        classical_avg := classical_avg;
        quantum_avg := quantum_avg;
        table := (table_c, table_q);
        c_pct := c_pct;
        q_pct := q_pct;
        captions := (caption_c, caption_q);
        advice := advice;
        data := data |}.

(** *** One run of the script (lines 95-118) *)

(** [st.session_state], of which the script uses the key ["password"]
    alone: [None] while the key is absent. *)
Definition session_state : Type := option str.

(** What the widgets return in a run: the text of the box, the length to
    generate, whether the button was pressed, the two throughputs; and the
    random source. *)
Record widgets : Type := {
  text_input : str;
  gen_len : Z;
  button : bool;
  random : nat -> N;
  c_ops : float;
  q_ops : float
}.

Inductive outcome : Type :=
| Rerun (state : session_state)
    (** [st.rerun()]: the run stops and the script starts again *)
| Info (state : session_state)
    (** "Enter or generate a password to analyze." *)
| Results (state : session_state) (password : str) (r : report)
| Failed (state : session_state) (e : exn).
    (** an exception that nothing catches ends the run *)

Definition script (state : session_state) (w : widgets) : outcome :=
  (* 95-96 *)
  let state := match state with None => Some [] | Some _ => state end in
  let stored := match state with Some p => p | None => [] end in
  (* 100 *)
  let password := text_input w in
  (* 103-106 *)
  if button w then Rerun (Some (generate (gen_len w) (random w)))
  else
    (* 108 *)
    let password := stored in
    (* 116-118 *)
    match password with
    | [] => Info state
    | _ :: _ =>
        match analysis password (c_ops w) (q_ops w) with
        | Ok r => Results state password r
        | Raise e => Failed state e
        end
    end.

(** The session state that a run leaves to the next one. *)
Definition state_after (o : outcome) : session_state :=
  match o with
  | Rerun state | Info state | Results state _ _ | Failed state _ => state
  end.

(** [st.number_input(..., min_value=6, max_value=64, ...)] *)
Definition in_bounds (w : widgets) : Prop := (6 <= gen_len w <= 64)%Z.

(** The session states of a session: no key at first, and then what each
    run leaves. *)
Inductive reachable : session_state -> Prop :=
| reachable_first : reachable None
| reachable_run (state : session_state) (w : widgets) :
    reachable state -> in_bounds w -> reachable (state_after (script state w)).

End Page.

(** ** A reference C library

    The platform used for concrete runs.  Its [pow], [log2] and [log10]
    return the double nearest to a fixed-point approximation of the exact
    value with [W] fractional bits, which is the correctly rounded result
    unless the exact value lies within about [2^-120] of a rounding boundary
    (exact powers of two and their logarithms are exact).  Above U+00FF its
    Unicode tables are empty. *)

Module Reference.
Local Open Scope Z_scope.

Definition W : Z := 128.
Definition one : Z := 2 ^ W.
Definition fx_mul (a b : Z) : Z := (a * b) / one.
Definition fx_div (a b : Z) : Z := (a * one) / b.

(** [pw/k + pw*z2/(k+2) + ...], [n] terms *)
Fixpoint atanh_series (n : nat) (z2 pw k : Z) : Z :=
  match n with
  | O => 0
  | S n' => pw / k + atanh_series n' z2 (fx_mul pw z2) (k + 2)
  end.

(** [atanh z] for [0 <= z <= 1/3] *)
Definition fx_atanh (z : Z) : Z := atanh_series 48 (fx_mul z z) z 1.

(** [ln y] for [1 <= y <= 2] *)
Definition fx_ln (y : Z) : Z := 2 * fx_atanh (fx_div (y - one) (y + one)).

Definition LN2 : Z := Eval vm_compute in fx_ln (2 * one).
Definition LN10 : Z := Eval vm_compute in 3 * LN2 + fx_ln (one + one / 4).

(** [1 + t/k * (1 + t/(k+1) * (...))], [n] levels *)
Fixpoint exp_series (n : nat) (t k : Z) : Z :=
  match n with
  | O => one
  | S n' => one + fx_mul t (exp_series n' t (k + 1)) / k
  end.

(** [exp t] for [0 <= t < ln 2] *)
Definition fx_exp (t : Z) : Z := exp_series 40 t 1.

(** The double nearest to [v * 2^e]. *)
Definition nearest (v e : Z) : float :=
  SF2Prim (binary_normalize prec emax v e false).

(** A logarithm of a finite positive double lies between -1075 and 1024:
    the nearest double is kept as it is. *)
Definition in_range (r : float) : float :=
  if ((-2048 <=? r) && (r <=? 2048))%float then r else 0%float.

Definition exp2 (w : float) : float :=
  match Prim2SF w with
  | S754_finite s m e =>
      let num := cond_Zopp s (Z.pos m) in
      let n := if 0 <=? e then num * 2 ^ e else num / 2 ^ (- e) in
      let f := if 0 <=? e then 0 else (num mod 2 ^ (- e)) * one / 2 ^ (- e) in
      if 1024 <=? n then infinity
      else if n <? -1080 then 0%float
      else nearest (fx_exp (fx_mul f LN2)) (n - W)
  | S754_zero _ => 1%float
  | S754_infinity s => if s then 0%float else infinity
  | S754_nan => nan
  end.

(** [ln x / scale] for [x = m * 2^e], through [x = y * 2^(e+d)] with
    [1 <= y < 2]. *)
Definition log_with (scale : Z) (x : float) : float :=
  match Prim2SF x with
  | S754_finite false m e =>
      let d := Z.log2 (Z.pos m) in
      let y := Z.pos m * 2 ^ (W - d) in
      in_range (nearest (fx_div ((e + d) * LN2 + fx_ln y) scale) (- W))
  | S754_zero _ => neg_infinity
  | S754_infinity false => infinity
  | _ => nan
  end.

Definition platform : Platform :=
  {| pow_2 := exp2;
     log_2 := log_with LN2;
     log_10 := log_with LN10;
     ucd_lower := fun _ => false;
     ucd_upper := fun _ => false;
     ucd_digit := fun _ => false |}.

End Reference.

(** ** Vocabulary of the statements *)

(** Not negative: a zero, a positive number or infinity, or a NaN. *)
Definition SFnonneg (x : spec_float) : bool :=
  match x with
  | S754_nan | S754_zero _ => true
  | S754_infinity s | S754_finite s _ _ => negb s
  end.

(** Positive: a positive number or infinity, or a NaN. *)
Definition SFpositive (x : spec_float) : bool :=
  match x with
  | S754_nan => true
  | S754_zero _ => false
  | S754_infinity s | S754_finite s _ _ => negb s
  end.

(** Finite, and of magnitude below [2^k]. *)
Definition SFmag_le (k : Z) (x : spec_float) : Prop :=
  match x with
  | S754_zero _ => True
  | S754_finite _ m e => (Z.pos (digits2_pos m) + e <= k)%Z
  | _ => False
  end.

(** Positive (or +infinity), and of magnitude at least [2^(k-1)]. *)
Definition SFmag_ge (k : Z) (x : spec_float) : Prop :=
  match x with
  | S754_infinity false => True
  | S754_finite false m e => (k <= Z.pos (digits2_pos m) + e)%Z
  | _ => False
  end.

(** [math.floor(x)], the rounding the specification names for the
    percentage: a NaN and the infinities raise as for [int(x)]. *)
Definition floor_int (x : float) : Py Z :=
  match Prim2SF x with
  | S754_nan => Raise ValueError
  | S754_infinity _ => Raise OverflowError
  | S754_zero _ => Ok 0%Z
  | S754_finite s m e =>
      Ok (if (0 <=? e)%Z then cond_Zopp s (Z.pos m) * 2 ^ e
          else cond_Zopp s (Z.pos m) / 2 ^ (- e))%Z
  end.

(** A character of none of the four classes. *)
Definition unclassified (P : Platform) (c : char) : bool :=
  negb (islower P c || isupper P c || isdigit P c || in_punctuation c).

(** A character of the lowercase class and of no other. *)
Definition only_lowercase (P : Platform) (c : char) : bool :=
  islower P c && negb (isupper P c || isdigit P c || in_punctuation c).

(** [round(log2(pool) * n, 2)], the expression the specification gives for
    the entropy of [n] characters over a pool. *)
Definition spec_entropy (P : Platform) (pool n : Z) : Py float :=
  lg <- math_log2 P pool ;;
  nf <- PyFloat.of_int n ;;
  PyFloat.round2 (lg * nf).

(** [2 ** w] overflows: [w] is finite and not zero, and [pow] returns an
    infinity. *)
Definition pow_overflows (P : Platform) (w : float) : bool :=
  negb (w =? 0)%float && is_finite w && is_infinity (pow_2 P w).

(** What the sweep needs of the C library: [pow] on an exponent neither
    overflows nor returns a negative number. *)
Definition pow_regular (P : Platform) (w : float) : Prop :=
  is_infinity (pow_2 P w) = false /\ (pow_2 P w <? 0)%float = false.

(** The decimal logarithm of a finite positive double lies between -2048
    and 2048 (in fact between -324 and 309), and [pow] is regular on the
    exponents of the sweep over the lowercase pool (at most [32 * log2(26)],
    about 150.4 bits, and their halves). *)
Record libm_regular (P : Platform) : Prop := {
  log_10_bounded :
    forall x : float,
      is_finite x = true -> (0 <? x)%float = true ->
      (-2048 <=? log_10 P x)%float && (log_10 P x <=? 2048)%float = true;
  pow_2_sweep :
    forall (l : Z) (lf : float),
      In l lengths -> PyFloat.of_int l = Ok lf ->
      pow_regular P (log_2 P 26 * lf)%float /\
      pow_regular P (log_2 P 26 * lf / 2)%float
}.

(** [pow_regular] at the two exponents of the length [l], as a test that
    can be run. *)
Definition regular_at (P : Platform) (l : Z) : bool :=
  match PyFloat.of_int l with
  | Ok lf =>
      let p := pow_2 P (log_2 P 26 * lf)%float in
      let q := pow_2 P (log_2 P 26 * lf / 2)%float in
      negb (is_infinity p) && negb (p <? 0)%float &&
      negb (is_infinity q) && negb (q <? 0)%float
  | Raise _ => true
  end.

(** The pool sizes of the passwords that have a class. *)
Definition pools : list Z := [10; 26; 32; 36; 42; 52; 58; 62; 68; 84; 94]%Z.

(** [list(range(6, 65))]: the lengths that the generator is asked for. *)
Definition generated_lengths : list Z := map Z.of_nat (seq 6 59).

(** [pow] on the exponent [w] returns a finite number that is not
    negative. *)
Definition pow_sound (P : Platform) (w : float) : bool :=
  is_finite (pow_2 P w) && negb (pow_2 P w <? 0)%float.

(** The entropy of [n] characters, from the logarithm [lg] of the pool:
    [round(lg * n, 2)]. *)
Definition entropy_at (lg : float) (n : Z) : Py float :=
  nf <- PyFloat.of_int n ;; PyFloat.round2 (lg * nf).

(** The entropy of [n] characters is computed and finite, and it and its
    half pass the test [fits]. *)
Definition entropy_fits (fits : float -> bool) (lg : float) (n : Z) : bool :=
  match entropy_at lg n with
  | Ok e => is_finite e && fits e && fits (e / 2)%float
  | Raise _ => false
  end.

(** The two exponents of the sweep at the length [l] pass the test
    [fits]. *)
Definition sweep_fits (fits : float -> bool) (lg : float) (l : Z) : bool :=
  match PyFloat.of_int l with
  | Ok lf => fits (lg * lf)%float && fits (lg * lf / 2)%float
  | Raise _ => false
  end.

(** The exponents of the page pass the test [fits]: those of the eleven
    pools at the lengths 6 to 64 of a generated password (at most
    [64 * log2(94)], about 419.5 bits) and at the lengths 4 to 32 of the
    sweep. *)
Definition libm_fits (P : Platform) (fits : float -> bool) : bool :=
  forallb (fun pool =>
             match math_log2 P pool with
             | Ok lg =>
                 forallb (entropy_fits fits lg) generated_lengths &&
                 forallb (sweep_fits fits lg) lengths
             | Raise _ => false
             end) pools.

(** What the page needs of [pow] and [log2], as a test that can be run:
    [pow] is sound on the exponents of the page. *)
Definition libm_sound (P : Platform) : bool := libm_fits P (pow_sound P).

(** The integer part of the exponent [w] is at most 1021: [2 ** w] is
    below [2^1022]. *)
Definition exp2_fits (w : float) : bool :=
  match Prim2SF w with
  | S754_finite s m e =>
      let num := cond_Zopp s (Z.pos m) in
      (if 0 <=? e then num * 2 ^ e else num / 2 ^ (- e)) <=? 1021
  | S754_zero _ => true
  | _ => false
  end%Z.

(** The widgets [w] with the text [t] in the box. *)
Definition with_text (w : widgets) (t : str) : widgets :=
  {| text_input := t;
     gen_len := gen_len w;
     button := button w;
     random := random w;
     c_ops := c_ops w;
     q_ops := q_ops w |}.

(** The rank of a recommendation, from the weakest. *)
Definition rank (r : recommendation) : nat :=
  match r with
  | Weak => 0
  | Moderate => 1
  | Strong => 2
  | Very_strong => 3
  end.

(** The recommendations that the length [n] of a generated password
    leaves: Weak at 6, not Very strong up to 12, not Weak from 13 on, Very
    strong from 25 on. *)
Definition verdict_at (n : Z) (v : recommendation) : bool :=
  (negb (n =? 6)%Z || Nat.eqb (rank v) 0) &&
  (negb (n <=? 12)%Z || Nat.leb (rank v) 2) &&
  (negb (13 <=? n)%Z || Nat.leb 1 (rank v)) &&
  (negb (25 <=? n)%Z || Nat.eqb (rank v) 3).

(** [verdict_at] for the entropies of all pools at all generated
    lengths. *)
Definition verdicts_hold (P : Platform) : bool :=
  forallb (fun pool =>
             match math_log2 P pool with
             | Ok lg =>
                 forallb (fun n =>
                            match entropy_at lg n with
                            | Ok e => verdict_at n (recommend e)
                            | Raise _ => false
                            end) generated_lengths
             | Raise _ => false
             end) pools.

(** The characters [a] and [c] have a class in common. *)
Definition same_class (P : Platform) (a c : char) : bool :=
  islower P a && islower P c || isupper P a && isupper P c ||
  isdigit P a && isdigit P c || in_punctuation a && in_punctuation c.

(** What a session stores: nothing yet, the empty string, or a password of
    the generator of a length from 6 to 64. *)
Definition stored_ok (state : session_state) : Prop :=
  match state with
  | None | Some [] => True
  | Some password =>
      (6 <= len password <= 64)%Z /\ Forall (fun c => In c alphabet) password
  end.

(** [list(range(1, 157))] *)
Definition safe_lengths : list Z := map Z.of_nat (seq 1 156).

(** The entropies of the eleven pools at the lengths [ls] are computed and
    finite, and they and their halves pass the test [fits]. *)
Definition entropies_fit (P : Platform) (fits : float -> bool)
    (ls : list Z) : bool :=
  forallb (fun pool =>
             match math_log2 P pool with
             | Ok lg => forallb (entropy_fits fits lg) ls
             | Raise _ => false
             end) pools.

(** [pow_sound] for the reference C library, decided by the integer part of
    the exponent where that is enough. *)
Definition reference_pow_sound (w : float) : bool :=
  if exp2_fits w then true else pow_sound Reference.platform w.

(** 157 characters of the four classes *)
Definition long_password : str :=
  List.concat (repeat (lit "aA1!") 39) ++ lit "a".

(** The session state after the runs of the widgets [ws], from [state]. *)
Definition after_runs (P : Platform) (state : session_state)
    (ws : list widgets) : session_state :=
  fold_left (fun s w => state_after (script P s w)) ws state.

(** The integer part of a finite [w], toward minus infinity. *)
Definition int_part (w : float) : Z :=
  match Prim2SF w with
  | S754_finite s m e =>
      let num := cond_Zopp s (Z.pos m) in
      if 0 <=? e then num * 2 ^ e else num / 2 ^ (- e)
  | _ => 0
  end%Z.

(** [pow] lands in the binade of the exact power: for a positive [w] whose
    integer part [n] is from 1 to 1023, [2^n <= pow(2, w) < 2^(n+1)]. *)
Definition pow_in_binade (P : Platform) : Prop :=
  forall (w : float) (m : positive) (e : Z),
    Prim2SF w = S754_finite false m e ->
    (1 <= int_part w <= 1023)%Z ->
    SFmag_ge (int_part w + 1) (Prim2SF (pow_2 P w)) /\
    SFmag_le (int_part w + 1) (Prim2SF (pow_2 P w)).

(** The largest fraction of an exponent that is at least 1: [1 - 2^-52],
    in the fixed point of the reference library. *)
Definition top_fraction : Z := (Reference.one - 2 ^ 76)%Z.

(** The entropy [w] is from 3 bits to below 1024 bits. *)
Definition strict_range (w : float) : bool :=
  ((3 <=? w) && (w <? 1024))%float.

(** The entropies of the eleven pools at the lengths [ls] are computed and
    pass the test [fits]. *)
Definition entropies_in (P : Platform) (fits : float -> bool)
    (ls : list Z) : bool :=
  forallb (fun pool =>
             match math_log2 P pool with
             | Ok lg =>
                 forallb (fun n =>
                            match entropy_at lg n with
                            | Ok e => fits e
                            | Raise _ => false
                            end) ls
             | Raise _ => false
             end) pools.

(** ** Facts about binary64 comparisons *)

Module FloatOrder.

Ltac cmp_cases :=
  repeat match goal with
  | H : context [Pos.compare_cont Eq ?a ?b] |- _ =>
      change (Pos.compare_cont Eq a b) with (Pos.compare a b) in H
  | |- context [Pos.compare_cont Eq ?a ?b] =>
      change (Pos.compare_cont Eq a b) with (Pos.compare a b)
  end;
  repeat match goal with
  | H : context [Z.compare ?a ?b] |- _ => destruct (Z.compare_spec a b)
  | |- context [Z.compare ?a ?b] => destruct (Z.compare_spec a b)
  | H : context [Pos.compare ?a ?b] |- _ => destruct (Pos.compare_spec a b)
  | |- context [Pos.compare ?a ?b] => destruct (Pos.compare_spec a b)
  end;
  simpl in *; subst; try congruence; try lia.

Lemma SFcompare_refl (x : spec_float) :
  x <> S754_nan -> SFcompare x x = Some Eq.
Proof.
  destruct x as [[]|[]| |[] m e]; simpl; try congruence; intros _;
  rewrite Z.compare_refl; change (Pos.compare_cont Eq m m) with (Pos.compare m m);
  rewrite Pos.compare_refl; reflexivity.
Qed.

Lemma SFcompare_antisym (x y : spec_float) (c : comparison) :
  SFcompare x y = Some c -> SFcompare y x = Some (CompOpp c).
Proof.
  destruct x as [[]|[]| |[] m e], y as [[]|[]| |[] m' e']; simpl; intros H;
  try discriminate; try (injection H as <-; reflexivity);
  injection H as <-; f_equal; cmp_cases.
Qed.

Lemma SFcompare_lt_le_trans (x y z : spec_float) (c : comparison) :
  SFcompare x y = Some Lt -> SFcompare y z = Some c -> c <> Gt ->
  SFcompare x z = Some Lt.
Proof.
  destruct x as [[]|[]| |[] m e], y as [[]|[]| |[] m' e'],
           z as [[]|[]| |[] m'' e'']; simpl; intros H1 H2 H3;
  try discriminate; try reflexivity; try congruence;
  injection H1 as H1; injection H2 as H2; f_equal; cmp_cases.
Qed.


Local Open Scope float_scope.

Lemma Prim2SF_zero : Prim2SF 0 = S754_zero false.
Proof. reflexivity. Qed.

Lemma Prim2SF_infinity : Prim2SF infinity = S754_infinity false.
Proof. reflexivity. Qed.

Lemma is_nan_spec (x : float) :
  is_nan x = match Prim2SF x with S754_nan => true | _ => false end.
Proof.
  unfold is_nan. rewrite eqb_spec. unfold SFeqb.
  destruct (Prim2SF x) as [s|s| |s m e] eqn:E; try reflexivity;
  rewrite SFcompare_refl by discriminate; reflexivity.
Qed.

Lemma is_infinity_spec (x : float) :
  is_infinity x = match Prim2SF x with S754_infinity _ => true | _ => false end.
Proof.
  unfold is_infinity. rewrite eqb_spec, abs_spec, Prim2SF_infinity.
  destruct (Prim2SF x) as [s|s| |s m e]; reflexivity.
Qed.

Lemma is_finite_spec (x : float) :
  is_finite x =
  match Prim2SF x with S754_zero _ | S754_finite _ _ _ => true | _ => false end.
Proof.
  unfold is_finite. rewrite is_nan_spec, is_infinity_spec.
  destruct (Prim2SF x); reflexivity.
Qed.

Lemma leb_not_ltb (x y : float) : (x <=? y) = true -> (y <? x) = false.
Proof.
  rewrite leb_spec, ltb_spec. unfold SFleb, SFltb.
  destruct (SFcompare (Prim2SF x) (Prim2SF y)) as [c|] eqn:E; [|discriminate].
  rewrite (SFcompare_antisym _ _ _ E). destruct c; simpl; congruence.
Qed.

Lemma ltb_not_leb (x y : float) : (x <? y) = true -> (y <=? x) = false.
Proof.
  rewrite leb_spec, ltb_spec. unfold SFleb, SFltb.
  destruct (SFcompare (Prim2SF x) (Prim2SF y)) as [c|] eqn:E; [|discriminate].
  rewrite (SFcompare_antisym _ _ _ E). destruct c; simpl; congruence.
Qed.

Lemma leb_leb_not_ltb (c a s : float) :
  (c <=? a) = true -> (a <=? s) = true -> (s <? c) = false.
Proof.
  intros Hca Has. destruct (s <? c) eqn:Hsc; [|reflexivity].
  apply leb_not_ltb in Has. rewrite <- Has. symmetry.
  revert Hsc Hca. rewrite !ltb_spec, leb_spec. unfold SFleb, SFltb.
  destruct (SFcompare (Prim2SF s) (Prim2SF c)) as [[]|] eqn:E1; try discriminate.
  destruct (SFcompare (Prim2SF c) (Prim2SF a)) as [k|] eqn:E2; try discriminate.
  intros _ Hk.
  rewrite (SFcompare_lt_le_trans _ _ _ k E1 E2); [reflexivity|].
  destruct k; congruence.
Qed.

Lemma leb_not_nan_r (a s : float) : (a <=? s) = true -> is_nan s = false.
Proof.
  rewrite leb_spec, is_nan_spec. unfold SFleb.
  destruct (Prim2SF s); try reflexivity.
  destruct (Prim2SF a); simpl; discriminate.
Qed.

Lemma ltb_not_nan_l (s b : float) : (s <? b) = true -> is_nan s = false.
Proof.
  rewrite ltb_spec, is_nan_spec. unfold SFltb.
  destruct (Prim2SF s); try reflexivity. simpl. discriminate.
Qed.

Lemma ltb_not_infinity (s b : float) : (s <? b) = true -> (s =? infinity) = false.
Proof.
  rewrite ltb_spec, eqb_spec, Prim2SF_infinity. unfold SFltb, SFeqb.
  destruct (Prim2SF s) as [[]|[]| |[] m e], (Prim2SF b) as [[]|[]| |[] m' e'];
    simpl; congruence.
Qed.

Lemma eqb_leb (x y : float) : (x =? y) = true -> (x <=? y) = true.
Proof.
  rewrite eqb_spec, leb_spec. unfold SFeqb, SFleb.
  destruct (SFcompare (Prim2SF x) (Prim2SF y)) as [[]|]; congruence.
Qed.

Lemma not_leb_not_eqb (x y : float) : (x <=? y) = false -> (x =? y) = false.
Proof.
  intros H. destruct (x =? y) eqn:E; [|reflexivity].
  apply eqb_leb in E. congruence.
Qed.

End FloatOrder.

(** ** Facts about binary64 rounding and signs *)

Module FloatSign.
Import FloatOrder.

Local Open Scope Z_scope.

Lemma digits2_pos_size (p : positive) : digits2_pos p = Pos.size p.
Proof. induction p; simpl; congruence. Qed.

Lemma Zdigits2_log2 (m : Z) : 0 < m -> Zdigits2 m = Z.log2 m + 1.
Proof.
  destruct m as [|p|p]; try lia. intros _. simpl.
  rewrite digits2_pos_size. destruct p; simpl; lia.
Qed.

Lemma shr_1_m (mrs : shr_record) :
  0 <= shr_m mrs -> shr_m (shr_1 mrs) = shr_m mrs / 2.
Proof.
  destruct mrs as [m r s]. simpl. intros H.
  rewrite <- Z.div2_div. destruct m as [|[p|p|]|p]; try reflexivity; lia.
Qed.

Lemma pow2_xI (p : positive) :
  2 ^ Z.pos p~1 = 2 * (2 ^ Z.pos p * 2 ^ Z.pos p).
Proof.
  assert (E : Z.pos p~1 = 1 + Z.pos p + Z.pos p) by lia.
  rewrite E, !Z.pow_add_r, Z.pow_1_r by lia. ring.
Qed.

Lemma pow2_xO (p : positive) : 2 ^ Z.pos p~0 = 2 ^ Z.pos p * 2 ^ Z.pos p.
Proof.
  assert (E : Z.pos p~0 = Z.pos p + Z.pos p) by lia.
  rewrite E, Z.pow_add_r by lia. reflexivity.
Qed.

Lemma shr_m_iter (p : positive) (mrs : shr_record) :
  0 <= shr_m mrs ->
  shr_m (iter_pos shr_1 p mrs) = shr_m mrs / 2 ^ Z.pos p.
Proof.
  assert (Hpow : forall q, 0 < 2 ^ Z.pos q) by (intros; apply Z.pow_pos_nonneg; lia).
  revert mrs. induction p as [p IH|p IH|]; intros mrs H; simpl iter_pos.
  - assert (H1 : 0 <= shr_m (shr_1 mrs))
      by (rewrite shr_1_m by easy; apply Z.div_pos; lia).
    assert (H2 : 0 <= shr_m (iter_pos shr_1 p (shr_1 mrs)))
      by (rewrite IH by easy; apply Z.div_pos; [easy|apply Hpow]).
    rewrite IH, IH, shr_1_m by easy.
    pose proof (Hpow p).
    rewrite !Z.div_div by lia.
    rewrite pow2_xI. f_equal; ring.
  - assert (H2 : 0 <= shr_m (iter_pos shr_1 p mrs))
      by (rewrite IH by easy; apply Z.div_pos; [easy|apply Hpow]).
    rewrite IH, IH by easy.
    pose proof (Hpow p).
    rewrite !Z.div_div by lia.
    rewrite pow2_xO. reflexivity.
  - rewrite shr_1_m by easy. reflexivity.
Qed.

Lemma shr_m_of_loc (m : Z) (l : location) : shr_m (shr_record_of_loc m l) = m.
Proof. destruct l as [|[]]; reflexivity. Qed.

Lemma round_nearest_even_bounds (m : Z) (l : location) :
  m <= round_nearest_even m l <= m + 1.
Proof.
  destruct l as [|[]]; simpl; try lia. destruct (Z.even m); lia.
Qed.

(** Above the smallest subnormal, shifting to the format's exponent keeps a
    positive mantissa. *)
Lemma shr_fexp_positive (m e : Z) (l : location) :
  0 < m -> emin < Zdigits2 m + e ->
  0 < shr_m (fst (shr_fexp prec emax m e l)) /\
  emin < Zdigits2 (shr_m (fst (shr_fexp prec emax m e l)))
         + snd (shr_fexp prec emax m e l).
Proof.
  intros Hm HD. unfold shr_fexp, shr.
  destruct (fexp prec emax (Zdigits2 m + e) - e) as [|p|p] eqn:En; simpl;
    rewrite ?shr_m_of_loc; try (split; assumption).
  rewrite shr_m_iter by (rewrite shr_m_of_loc; lia).
  rewrite shr_m_of_loc.
  rewrite Zdigits2_log2 in * by assumption.
  assert (Hp : Z.pos p <= Z.log2 m)
    by (revert En HD; unfold fexp, SpecFloat.emin, prec, emax; lia).
  assert (Hq : 0 < m / 2 ^ Z.pos p).
  { apply Z.div_str_pos. split; [apply Z.pow_pos_nonneg; lia|].
    transitivity (2 ^ Z.log2 m); [apply Z.pow_le_mono_r; lia|].
    apply Z.log2_spec; assumption. }
  split; [assumption|].
  rewrite Zdigits2_log2 by assumption.
  rewrite <- Z.shiftr_div_pow2, Z.log2_shiftr by lia. lia.
Qed.

Lemma binary_round_aux_positive (s : bool) (m e : Z) (l : location) :
  0 < m -> emin < Zdigits2 m + e ->
  match binary_round_aux prec emax s m e l with
  | S754_finite s' _ _ | S754_infinity s' => s' = s
  | _ => False
  end.
Proof.
  intros Hm HD. unfold binary_round_aux.
  destruct (shr_fexp_positive m e l Hm HD) as [H1 H2].
  destruct (shr_fexp prec emax m e l) as [mrs' e'] eqn:E1. simpl in H1, H2.
  pose proof (round_nearest_even_bounds (shr_m mrs') (loc_of_shr_record mrs')) as Hr.
  set (m2 := round_nearest_even (shr_m mrs') (loc_of_shr_record mrs')) in *.
  assert (Hm2 : 0 < m2) by lia.
  assert (HD2 : emin < Zdigits2 m2 + e').
  { rewrite Zdigits2_log2 in * by assumption.
    assert (Z.log2 (shr_m mrs') <= Z.log2 m2) by (apply Z.log2_le_mono; lia). lia. }
  destruct (shr_fexp_positive m2 e' loc_Exact Hm2 HD2) as [H3 _].
  destruct (shr_fexp prec emax m2 e' loc_Exact) as [mrs'' e''] eqn:E2. simpl in H3.
  destruct (shr_m mrs''); try lia.
  destruct (e'' <=? emax - prec); reflexivity.
Qed.

Lemma binary_round_aux_sign (s : bool) (m e : Z) (l : location) :
  match binary_round_aux prec emax s m e l with
  | S754_zero s' | S754_finite s' _ _ | S754_infinity s' => s' = s
  | S754_nan => True
  end.
Proof.
  unfold binary_round_aux.
  destruct (shr_fexp prec emax m e l) as [mrs' e'].
  destruct (shr_fexp prec emax _ e' loc_Exact) as [mrs'' e''].
  destruct (shr_m mrs''); try easy.
  destruct (e'' <=? emax - prec); reflexivity.
Qed.


Lemma iter_xO_mul (d m : positive) :
  Z.pos (Pos.iter xO m d) = Z.pos m * 2 ^ Z.pos d.
Proof.
  revert m. induction d as [|d IH] using Pos.peano_ind; intros m.
  - simpl. lia.
  - rewrite Pos.iter_succ, Pos2Z.inj_xO, IH, Pos2Z.inj_succ, Z.pow_succ_r by lia.
    ring.
Qed.

Lemma shl_align_snd (m : positive) (e e' : Z) :
  snd (shl_align m e e') = Z.min e e'.
Proof.
  unfold shl_align. destruct (e' - e) eqn:E; simpl; lia.
Qed.

Lemma shl_align_log2 (m : positive) (e e' : Z) :
  Z.log2 (Z.pos (fst (shl_align m e e'))) + snd (shl_align m e e')
  = Z.log2 (Z.pos m) + e.
Proof.
  unfold shl_align. destruct (e' - e) as [|d|d] eqn:E; simpl fst; simpl snd;
    try reflexivity.
  rewrite iter_xO_mul, Z.log2_mul_pow2 by lia. lia.
Qed.

Lemma binary_round_positive (s : bool) (m : positive) (e : Z) :
  0 <= Z.log2 (Z.pos m) + e ->
  match binary_round prec emax s m e with
  | S754_finite s' _ _ | S754_infinity s' => s' = s
  | _ => False
  end.
Proof.
  intros H. unfold binary_round.
  pose proof (shl_align_log2 m e (fexp prec emax (Z.pos (digits2_pos m) + e))) as HL.
  destruct (shl_align m e _) as [mz ez]. cbn [fst snd] in HL.
  apply binary_round_aux_positive; [lia|].
  rewrite Zdigits2_log2 by lia. unfold SpecFloat.emin, prec, emax. lia.
Qed.

Local Open Scope float_scope.

Lemma Prim2SF_one : Prim2SF 1 = S754_finite false 4503599627370496 (-52).
Proof. reflexivity. Qed.

(** Adding one to a number that is not negative gives a positive number
    (or an infinity, or a NaN from a NaN). *)
Lemma add_one_positive (a : float) :
  SFnonneg (Prim2SF a) = true -> SFpositive (Prim2SF (a + 1)) = true.
Proof.
  rewrite add_spec, Prim2SF_one.
  destruct (Prim2SF a) as [s|s| |s m e]; simpl SFnonneg; intros H;
    try reflexivity; try (destruct s; [discriminate|reflexivity]).
  destruct s; [discriminate|]. clear H.
  unfold SF64add, SFadd. cbv [cond_Zopp].
  set (ez := Z.min e (-52)).
  pose proof (shl_align_log2 m e ez) as H1.
  pose proof (shl_align_log2 4503599627370496 (-52) ez) as H2.
  pose proof (shl_align_snd 4503599627370496 (-52) ez) as H3.
  pose proof (shl_align_snd m e ez) as H4.
  destruct (shl_align m e ez) as [a' ea].
  destruct (shl_align 4503599627370496 (-52) ez) as [b' eb].
  simpl fst in *; simpl snd in *.
  change (Z.pos a' + Z.pos b')%Z with (Z.pos (a' + b')).
  cbv [binary_normalize].
  assert (HL : (0 <= Z.log2 (Z.pos (a' + b')) + ez)%Z).
  { assert (Z.log2 (Z.pos b') <= Z.log2 (Z.pos (a' + b')))%Z
      by (apply Z.log2_le_mono; lia).
    change (Z.log2 4503599627370496) with 52%Z in H2. lia. }
  pose proof (binary_round_positive false (a' + b') ez HL) as HR.
  destruct (binary_round prec emax false (a' + b') ez) as [?|s'| |s' ? ?];
    try contradiction; subst s'; reflexivity.
Qed.

(** A quotient of a number that is not negative by a positive divisor is
    not negative. *)
Lemma div_nonneg (a b : float) :
  SFnonneg (Prim2SF a) = true -> (b <=? 0) = false ->
  SFnonneg (Prim2SF (a / b)) = true.
Proof.
  rewrite div_spec, leb_spec, Prim2SF_zero. unfold SFleb.
  destruct (Prim2SF a) as [s|s| |s m e], (Prim2SF b) as [t|t| |t m' e'];
    simpl SFnonneg; simpl SFcompare; intros Ha Hb;
    try reflexivity; try discriminate;
    try (destruct s; [discriminate|]); try (destruct t; [discriminate|]);
    try reflexivity.
  unfold SF64div, SFdiv.
  destruct (SFdiv_core_binary prec emax (Z.pos m) e (Z.pos m') e') as [[q eq] l].
  pose proof (binary_round_aux_sign (xorb false false) q eq l) as HS.
  destruct (binary_round_aux prec emax (xorb false false) q eq l);
    try reflexivity; simpl in *; subst; reflexivity.
Qed.

Lemma not_ltb_zero_nonneg (x : float) :
  (x <? 0) = false -> SFnonneg (Prim2SF x) = true.
Proof.
  rewrite ltb_spec, Prim2SF_zero. unfold SFltb.
  destruct (Prim2SF x) as [s|s| |s m e]; simpl SFnonneg; intros H;
    try reflexivity; destruct s; try reflexivity; discriminate H.
Qed.

Lemma not_leb_one_nonneg (x : float) :
  (x <=? 1) = false -> SFnonneg (Prim2SF x) = true.
Proof.
  rewrite leb_spec, Prim2SF_one. unfold SFleb.
  destruct (Prim2SF x) as [s|s| |s m e]; simpl SFnonneg; intros H;
    try reflexivity; destruct s; try reflexivity; discriminate H.
Qed.

End FloatSign.

(** ** Facts about binary64 magnitudes: no overflow *)

Module FloatRange.
Import FloatOrder FloatSign.
Local Open Scope Z_scope.

Lemma Zdigits2_nonneg (m : Z) : 0 <= Zdigits2 m.
Proof. destruct m; simpl; lia. Qed.

Lemma Zdigits2_mono (a b : Z) : 0 <= a <= b -> Zdigits2 a <= Zdigits2 b.
Proof.
  intros [Ha Hab]. destruct (Z.eq_dec a 0) as [->|Hn].
  - apply Zdigits2_nonneg.
  - rewrite !Zdigits2_log2 by lia.
    assert (Z.log2 a <= Z.log2 b) by (apply Z.log2_le_mono; lia). lia.
Qed.

Lemma Zdigits2_succ (a : Z) : 0 <= a -> Zdigits2 (a + 1) <= Zdigits2 a + 1.
Proof.
  intros Ha. destruct (Z.eq_dec a 0) as [->|Hn]; [simpl; lia|].
  rewrite !Zdigits2_log2 by lia.
  pose proof (Z.log2_succ_le a). unfold Z.succ in *. lia.
Qed.

Lemma Zdigits2_div_pow2 (m : Z) (p : positive) :
  0 <= m -> Zdigits2 (m / 2 ^ Z.pos p) <= Z.max 0 (Zdigits2 m - Z.pos p).
Proof.
  intros Hm.
  assert (Hq : 0 <= m / 2 ^ Z.pos p)
    by (apply Z.div_pos; [lia|apply Z.pow_pos_nonneg; lia]).
  destruct (Z.eq_dec (m / 2 ^ Z.pos p) 0) as [->|Hn]; [simpl; lia|].
  assert (0 < m).
  { destruct (Z.eq_dec m 0) as [->|]; [|lia]. rewrite Z.div_0_l in Hn; [lia|].
    apply Z.pow_nonzero; lia. }
  assert (Hp : Z.pos p <= Z.log2 m).
  { apply Z.log2_le_pow2; [lia|].
    assert (Hpow : 0 < 2 ^ Z.pos p) by (apply Z.pow_pos_nonneg; lia).
    destruct (Z.lt_ge_cases m (2 ^ Z.pos p)) as [Hlt|]; [|assumption].
    rewrite Z.div_small in Hn by lia. lia. }
  rewrite !Zdigits2_log2 by lia.
  rewrite <- Z.shiftr_div_pow2, Z.log2_shiftr by lia. lia.
Qed.

(** The exponent and the magnitude after a shift to the format's exponent. *)
Lemma shr_fexp_bounds (m e : Z) (l : location) :
  0 <= m ->
  0 <= shr_m (fst (shr_fexp prec emax m e l)) /\
  snd (shr_fexp prec emax m e l) = Z.max e (fexp prec emax (Zdigits2 m + e)) /\
  Zdigits2 (shr_m (fst (shr_fexp prec emax m e l)))
  + snd (shr_fexp prec emax m e l) <= Z.max (Zdigits2 m + e) emin.
Proof.
  intros Hm. unfold shr_fexp, shr.
  pose proof (Zdigits2_nonneg m) as Hd.
  destruct (fexp prec emax (Zdigits2 m + e) - e) as [|p|p] eqn:En; simpl fst;
    simpl snd; rewrite ?shr_m_of_loc.
  - repeat split; lia.
  - rewrite shr_m_iter by (rewrite shr_m_of_loc; lia). rewrite shr_m_of_loc.
    pose proof (Zdigits2_div_pow2 m p Hm) as Hq.
    split; [apply Z.div_pos; [lia|apply Z.pow_pos_nonneg; lia]|].
    revert En Hq. unfold fexp, SpecFloat.emin, prec, emax. lia.
  - repeat split; lia.
Qed.

(** No overflow: a rounded number of magnitude below [2^K] is finite. *)
Lemma binary_round_aux_bounded (s : bool) (m e K : Z) (l : location) :
  0 <= m -> e <= emax - prec -> Zdigits2 m + e + 1 <= K ->
  emin + 1 <= K -> K <= emax ->
  SFmag_le K (binary_round_aux prec emax s m e l).
Proof.
  intros Hm He HD HK1 HK2. unfold binary_round_aux.
  destruct (shr_fexp_bounds m e l Hm) as [H1 [H2 H3]].
  destruct (shr_fexp prec emax m e l) as [mrs' e']. simpl in H1, H2, H3.
  pose proof (round_nearest_even_bounds (shr_m mrs') (loc_of_shr_record mrs')) as Hr.
  set (m2 := round_nearest_even (shr_m mrs') (loc_of_shr_record mrs')) in *.
  assert (Hm2 : 0 <= m2) by lia.
  assert (Hd2 : Zdigits2 m2 <= Zdigits2 (shr_m mrs') + 1).
  { transitivity (Zdigits2 (shr_m mrs' + 1));
      [apply Zdigits2_mono; lia|apply Zdigits2_succ; lia]. }
  destruct (shr_fexp_bounds m2 e' loc_Exact Hm2) as [H4 [H5 H6]].
  destruct (shr_fexp prec emax m2 e' loc_Exact) as [mrs'' e'']. simpl in H4, H5, H6.
  assert (He'' : e'' <= emax - prec).
  { revert H2 H5 H3 Hd2 He HD HK2. unfold fexp, SpecFloat.emin, prec, emax. lia. }
  destruct (shr_m mrs'') as [|q|q] eqn:Eq; [exact I| |lia].
  apply Z.leb_le in He''. rewrite He''. simpl. simpl in H6.
  revert H6 H3 Hd2 HD HK1. unfold SpecFloat.emin, prec, emax. lia.
Qed.


Lemma valid_finite (s : bool) (m : positive) (e : Z) :
  valid_binary (S754_finite s m e) = true ->
  Z.pos (digits2_pos m) <= 53 /\ e <= emax - prec.
Proof.
  simpl. unfold bounded, canonical_mantissa. intros H.
  apply andb_true_iff in H as [H1 H2].
  apply Z.eqb_eq in H1. apply Z.leb_le in H2.
  split; [|assumption].
  revert H1. unfold fexp, SpecFloat.emin, prec, emax. lia.
Qed.

Lemma digits2_pos_mul (a b : positive) :
  Z.pos (digits2_pos (a * b)) <= Z.pos (digits2_pos a) + Z.pos (digits2_pos b).
Proof.
  pose proof (Zdigits2_log2 (Z.pos a) eq_refl) as Ha.
  pose proof (Zdigits2_log2 (Z.pos b) eq_refl) as Hb.
  pose proof (Zdigits2_log2 (Z.pos (a * b)) eq_refl) as Hab.
  simpl Zdigits2 in *. rewrite Ha, Hb, Hab, Pos2Z.inj_mul.
  pose proof (Z.log2_mul_above (Z.pos a) (Z.pos b)). lia.
Qed.

(** A product of two numbers of small magnitude is finite. *)
Lemma SFmul_bounded (a b K : Z) (x y : spec_float) :
  SFmag_le a x -> SFmag_le b y ->
  a + b + 1 <= K -> emin + 1 <= K -> K <= emax - prec ->
  SFmag_le K (SFmul prec emax x y).
Proof.
  destruct x as [sx|sx| |sx mx ex], y as [sy|sy| |sy my ey]; cbv [SFmag_le];
    try contradiction; intros Hx Hy HK HK1 HK2; try exact I.
  unfold SFmul.
  pose proof (digits2_pos_mul mx my) as Hd.
  apply binary_round_aux_bounded; simpl Zdigits2;
    unfold SpecFloat.emin, emax, prec in *. all: lia.
Qed.

Lemma Zdigits2_shiftl (m s : Z) :
  0 < m -> 0 <= s -> Zdigits2 (Z.shiftl m s) = Zdigits2 m + s.
Proof.
  intros Hm Hs. rewrite Z.shiftl_mul_pow2 by assumption.
  assert (0 < 2 ^ s) by (apply Z.pow_pos_nonneg; lia).
  rewrite !Zdigits2_log2 by nia.
  rewrite Z.log2_mul_pow2 by lia. lia.
Qed.

Lemma Zdigits2_div (a b : Z) :
  0 < a -> 0 < b ->
  Zdigits2 (a / b) <= Z.max 0 (Zdigits2 a - Zdigits2 b + 1).
Proof.
  intros Ha Hb.
  assert (Hq : 0 <= a / b) by (apply Z.div_pos; lia).
  pose proof (Z.log2_spec b Hb) as [Hb1 Hb2].
  pose proof (Z.log2_nonneg b) as Hlb.
  assert (Hpow : 0 < 2 ^ Z.log2 b) by (apply Z.pow_pos_nonneg; lia).
  assert (Hle : a / b <= a / 2 ^ Z.log2 b) by (apply Z.div_le_compat_l; lia).
  transitivity (Zdigits2 (a / 2 ^ Z.log2 b)).
  { apply Zdigits2_mono. lia. }
  assert (Hq2 : 0 <= a / 2 ^ Z.log2 b) by (apply Z.div_pos; lia).
  destruct (Z.eq_dec (a / 2 ^ Z.log2 b) 0) as [->|Hn]; [simpl; lia|].
  assert (Hab : Z.log2 b <= Z.log2 a).
  { apply Z.log2_le_pow2; [lia|].
    destruct (Z.lt_ge_cases a (2 ^ Z.log2 b)) as [Hlt|]; [|assumption].
    rewrite Z.div_small in Hn by lia. lia. }
  rewrite !Zdigits2_log2 by lia.
  rewrite <- Z.shiftr_div_pow2, Z.log2_shiftr by lia. lia.
Qed.

(** A quotient by a finite number is finite when the magnitudes allow. *)
Lemma SFdiv_bounded (a K : Z) (x : spec_float) (sy : bool) (my : positive)
    (ey : Z) :
  SFmag_le a x ->
  a - (Z.pos (digits2_pos my) + ey) + 2 <= K ->
  emin + 1 <= K -> K <= emax ->
  SFmag_le K (SFdiv prec emax x (S754_finite sy my ey)).
Proof.
  destruct x as [sx|sx| |sx mx ex]; cbv [SFmag_le]; try contradiction;
    intros Hx HK HK1 HK2; [exact I|].
  unfold SFdiv, SFdiv_core_binary.
  set (d1 := Zdigits2 (Z.pos mx)). set (d2 := Zdigits2 (Z.pos my)).
  set (e' := Z.min (fexp prec emax (d1 + ex - (d2 + ey))) (ex - ey)).
  set (m' := match ex - ey - e' with
             | 0 => Z.pos mx
             | Z.pos _ => Z.shiftl (Z.pos mx) (ex - ey - e')
             | Z.neg _ => 0
             end).
  assert (Hs : 0 <= ex - ey - e') by (unfold e'; lia).
  assert (Hm' : 0 < m' /\ Zdigits2 m' = d1 + (ex - ey - e')).
  { unfold m'. destruct (ex - ey - e') as [|p|p] eqn:Es.
    - split; [lia|]. unfold d1. lia.
    - rewrite Zdigits2_shiftl by lia. split; [|reflexivity].
      rewrite Z.shiftl_mul_pow2 by lia.
      assert (0 < 2 ^ Z.pos p) by (apply Z.pow_pos_nonneg; lia). nia.
    - lia. }
  destruct Hm' as [Hm'1 Hm'2].
  assert (Hq : fst (Z.div_eucl m' (Z.pos my)) = m' / Z.pos my) by reflexivity.
  destruct (Z.div_eucl m' (Z.pos my)) as [q r]. simpl in Hq. subst q.
  pose proof (Zdigits2_div m' (Z.pos my) Hm'1 eq_refl) as Hd.
  fold d2 in Hd. rewrite Hm'2 in Hd.
  assert (Hd1 : d1 = Z.pos (digits2_pos mx)) by reflexivity.
  assert (Hd2 : d2 = Z.pos (digits2_pos my)) by reflexivity.
  apply binary_round_aux_bounded.
  - apply Z.div_pos; lia.
  - unfold e', fexp, SpecFloat.emin, emax, prec in *. lia.
  - revert Hd. unfold e', fexp, SpecFloat.emin, emax, prec in *. lia.
  - assumption.
  - assumption.
Qed.

Lemma log2_add_le (u v : Z) :
  0 < u -> 0 < v -> Z.log2 (u + v) <= Z.max (Z.log2 u) (Z.log2 v) + 1.
Proof.
  intros Hu Hv.
  assert (H : u + v <= 2 * Z.max u v) by lia.
  transitivity (Z.log2 (2 * Z.max u v)); [apply Z.log2_le_mono; lia|].
  rewrite Z.log2_double by lia.
  destruct (Z.max_spec u v) as [[_ ->]|[_ ->]]; lia.
Qed.

(** Adding one to a number that is not negative and of small magnitude
    gives a finite number. *)
Lemma SFadd_one_bounded (a K : Z) (x : spec_float) :
  SFnonneg x = true -> SFmag_le a x ->
  Z.max a 1 + 2 <= K -> a <= emax - prec -> K <= emax ->
  SFmag_le K (SFadd prec emax x (S754_finite false 4503599627370496 (-52))).
Proof.
  destruct x as [sx|sx| |sx mx ex]; cbv [SFmag_le]; try contradiction;
    simpl SFnonneg; intros Hn Hx HK Ha HK2.
  - simpl. lia.
  - destruct sx; [discriminate|]. unfold SFadd. cbv [cond_Zopp].
    set (ez := Z.min ex (-52)).
    pose proof (shl_align_log2 mx ex ez) as H1.
    pose proof (shl_align_log2 4503599627370496 (-52) ez) as H2.
    pose proof (shl_align_snd 4503599627370496 (-52) ez) as H3.
    pose proof (shl_align_snd mx ex ez) as H4.
    destruct (shl_align mx ex ez) as [a' ea].
    destruct (shl_align 4503599627370496 (-52) ez) as [b' eb].
    cbn [fst snd] in *.
    change (Z.pos a' + Z.pos b') with (Z.pos (a' + b')).
    cbv [binary_normalize binary_round].
    change (Z.log2 4503599627370496) with 52 in H2.
    pose proof (log2_add_le (Z.pos a') (Z.pos b') eq_refl eq_refl) as Hl.
    change (Z.pos a' + Z.pos b') with (Z.pos (a' + b')) in Hl.
    pose proof (Zdigits2_log2 (Z.pos mx) eq_refl) as Hdx. simpl Zdigits2 in Hdx.
    pose proof (Zdigits2_log2 (Z.pos (a' + b')) eq_refl) as Hds.
    simpl Zdigits2 in Hds.
    pose proof (shl_align_log2 (a' + b') ez
                  (fexp prec emax (Z.pos (digits2_pos (a' + b')) + ez))) as H5.
    pose proof (shl_align_snd (a' + b') ez
                  (fexp prec emax (Z.pos (digits2_pos (a' + b')) + ez))) as H6.
    destruct (shl_align (a' + b') ez _) as [mz ez']. cbn [fst snd] in *.
    pose proof (Zdigits2_log2 (Z.pos mz) eq_refl) as Hdz.
    apply binary_round_aux_bounded; unfold emax, prec, SpecFloat.emin in *;
      try lia.
Qed.

Local Open Scope float_scope.

Lemma Prim2SF_two : Prim2SF 2 = S754_finite false 4503599627370496 (-51).
Proof. reflexivity. Qed.

Lemma Prim2SF_hundred : Prim2SF 100 = S754_finite false 7036874417766400 (-46).
Proof. reflexivity. Qed.

Lemma Prim2SF_year :
  Prim2SF 31536000 = S754_finite false 8465380540416000 (-28).
Proof. reflexivity. Qed.

Lemma finite_mag_le (x : float) :
  is_finite x = true -> SFmag_le 1024 (Prim2SF x).
Proof.
  rewrite is_finite_spec. pose proof (Prim2SF_valid x) as V.
  destruct (Prim2SF x) as [s|s| |s m e]; try discriminate; intros _;
    [exact I|].
  destruct (valid_finite s m e V) as [Vd Ve]. cbv [SFmag_le].
  unfold emax, prec in *. lia.
Qed.

Lemma mag_le_finite (k : Z) (x : float) :
  SFmag_le k (Prim2SF x) -> is_finite x = true.
Proof.
  rewrite is_finite_spec. destruct (Prim2SF x); cbv [SFmag_le]; try contradiction;
    reflexivity.
Qed.

(** A number between -2048 and 2048 has magnitude below [2^12]. *)
Lemma mag_le_of_bounds (x : float) :
  (-2048 <=? x) && (x <=? 2048) = true -> SFmag_le 12 (Prim2SF x).
Proof.
  intros H. apply andb_true_iff in H as [H1 H2].
  rewrite leb_spec in H1, H2.
  change (Prim2SF 2048) with (S754_finite false 4503599627370496 (-41)) in H2.
  change (Prim2SF (-2048)) with (S754_finite true 4503599627370496 (-41)) in H1.
  pose proof (Prim2SF_valid x) as V.
  destruct (Prim2SF x) as [s|s| |s m e]; cbv [SFmag_le].
  - exact I.
  - destruct s; [discriminate H1|discriminate H2].
  - discriminate H1.
  - destruct (valid_finite s m e V) as [Vd Ve]. destruct s.
    + cbv [SFleb SFcompare] in H1.
      destruct (Z.compare_spec (-41) e); [lia|discriminate H1|lia].
    + cbv [SFleb SFcompare] in H2.
      destruct (Z.compare_spec e (-41)); [lia|lia|discriminate H2].
Qed.

(** A finite number that is not negative and not at least 100 has
    magnitude below [2^7]. *)
Lemma mag_le_below_hundred (k : Z) (x : float) :
  SFmag_le k (Prim2SF x) -> SFnonneg (Prim2SF x) = true ->
  (100 <=? x) = false -> SFmag_le 7 (Prim2SF x).
Proof.
  rewrite leb_spec, Prim2SF_hundred. pose proof (Prim2SF_valid x) as V.
  destruct (Prim2SF x) as [s|s| |s m e]; cbv [SFmag_le]; try contradiction;
    [intros; exact I|].
  intros _ Hn H. destruct (valid_finite s m e V) as [Vd Ve].
  destruct s; [discriminate Hn|].
  cbv [SFleb SFcompare] in H.
  destruct (Z.compare_spec (-46) e); [lia|discriminate H|lia].
Qed.

Lemma div_bounded (a K : Z) (x c : float) (sy : bool) (my : positive)
    (ey : Z) :
  Prim2SF c = S754_finite sy my ey ->
  SFmag_le a (Prim2SF x) ->
  (a - (Z.pos (digits2_pos my) + ey) + 2 <= K)%Z ->
  (emin + 1 <= K)%Z -> (K <= emax)%Z ->
  SFmag_le K (Prim2SF (x / c)).
Proof.
  intros Hc. rewrite div_spec, Hc. apply SFdiv_bounded.
Qed.

Lemma to_int_finite (k : Z) (x : float) :
  SFmag_le k (Prim2SF x) -> exists n : Z, PyFloat.to_int x = Ok n.
Proof.
  unfold PyFloat.to_int.
  destruct (Prim2SF x); cbv [SFmag_le]; try contradiction; eauto.
Qed.

End FloatRange.

(** ** Facts about binary64 magnitudes: positive quotients and order *)

Module FloatLower.
Import FloatOrder FloatSign FloatRange.
Local Open Scope Z_scope.

Lemma shr_fexp_mag (m e : Z) (l : location) :
  0 < m -> emin < Zdigits2 m + e ->
  Zdigits2 m + e
  = Zdigits2 (shr_m (fst (shr_fexp prec emax m e l)))
    + snd (shr_fexp prec emax m e l).
Proof.
  intros Hm HD. unfold shr_fexp, shr.
  destruct (fexp prec emax (Zdigits2 m + e) - e) as [|p|p] eqn:En; simpl;
    rewrite ?shr_m_of_loc; try reflexivity.
  rewrite shr_m_iter by (rewrite shr_m_of_loc; lia).
  rewrite shr_m_of_loc.
  rewrite Zdigits2_log2 in * by assumption.
  assert (Hp : Z.pos p <= Z.log2 m)
    by (revert En HD; unfold fexp, SpecFloat.emin, prec, emax; lia).
  assert (Hq : 0 < m / 2 ^ Z.pos p).
  { apply Z.div_str_pos. split; [apply Z.pow_pos_nonneg; lia|].
    transitivity (2 ^ Z.log2 m); [apply Z.pow_le_mono_r; lia|].
    apply Z.log2_spec; assumption. }
  rewrite Zdigits2_log2 by assumption.
  rewrite <- Z.shiftr_div_pow2, Z.log2_shiftr by lia. lia.
Qed.

(** Above the smallest subnormal, rounding keeps a number positive and
    does not lower its magnitude. *)
Lemma binary_round_aux_mag_ge (m e : Z) (l : location) :
  0 < m -> emin < Zdigits2 m + e ->
  SFmag_ge (Zdigits2 m + e) (binary_round_aux prec emax false m e l).
Proof.
  intros Hm HD. unfold binary_round_aux.
  destruct (shr_fexp_positive m e l Hm HD) as [H1 H2].
  pose proof (shr_fexp_mag m e l Hm HD) as H0.
  destruct (shr_fexp prec emax m e l) as [mrs' e'] eqn:E1. simpl in H0, H1, H2.
  pose proof (round_nearest_even_bounds (shr_m mrs') (loc_of_shr_record mrs')) as Hr.
  set (m2 := round_nearest_even (shr_m mrs') (loc_of_shr_record mrs')) in *.
  assert (Hm2 : 0 < m2) by lia.
  assert (Hd2 : Zdigits2 (shr_m mrs') <= Zdigits2 m2)
    by (apply Zdigits2_mono; lia).
  assert (HD2 : emin < Zdigits2 m2 + e') by lia.
  destruct (shr_fexp_positive m2 e' loc_Exact Hm2 HD2) as [H3 _].
  pose proof (shr_fexp_mag m2 e' loc_Exact Hm2 HD2) as H4.
  destruct (shr_fexp prec emax m2 e' loc_Exact) as [mrs'' e''] eqn:E2.
  simpl in H3, H4.
  destruct (shr_m mrs'') as [|q|q] eqn:Eq; try lia.
  destruct (e'' <=? emax - prec); [|exact I].
  cbv [SFmag_ge]. simpl Zdigits2 in H4. lia.
Qed.

Lemma Zdigits2_div_ge (a b : Z) :
  0 < a -> 0 < b -> Zdigits2 b < Zdigits2 a ->
  0 < a / b /\ Zdigits2 a - Zdigits2 b <= Zdigits2 (a / b).
Proof.
  intros Ha Hb Hd. rewrite !Zdigits2_log2 in Hd by assumption.
  pose proof (Z.log2_spec a Ha) as [Ha1 Ha2].
  pose proof (Z.log2_spec b Hb) as [Hb1 Hb2].
  pose proof (Z.log2_nonneg b) as Hlb.
  assert (Hpow : 0 < 2 ^ Z.succ (Z.log2 b)) by (apply Z.pow_pos_nonneg; lia).
  assert (Hle : a / 2 ^ Z.succ (Z.log2 b) <= a / b)
    by (apply Z.div_le_compat_l; lia).
  assert (Hq : 0 < a / 2 ^ Z.succ (Z.log2 b)).
  { apply Z.div_str_pos. split; [assumption|].
    transitivity (2 ^ Z.log2 a); [apply Z.pow_le_mono_r; lia|assumption]. }
  split; [lia|].
  transitivity (Zdigits2 (a / 2 ^ Z.succ (Z.log2 b)));
    [|apply Zdigits2_mono; lia].
  rewrite !Zdigits2_log2 by lia.
  rewrite <- Z.shiftr_div_pow2, Z.log2_shiftr by lia. lia.
Qed.

(** A quotient of positive finite numbers whose magnitudes differ by less
    than the format's range is positive. *)
Lemma SFdiv_mag_ge (mx my : positive) (ex ey : Z) :
  emin < Z.pos (digits2_pos mx) + ex - (Z.pos (digits2_pos my) + ey) ->
  SFmag_ge (Z.pos (digits2_pos mx) + ex - (Z.pos (digits2_pos my) + ey))
    (SFdiv prec emax (S754_finite false mx ex) (S754_finite false my ey)).
Proof.
  intros HD. unfold SFdiv, SFdiv_core_binary.
  set (d1 := Zdigits2 (Z.pos mx)). set (d2 := Zdigits2 (Z.pos my)).
  assert (Hd1 : d1 = Z.pos (digits2_pos mx)) by reflexivity.
  assert (Hd2 : d2 = Z.pos (digits2_pos my)) by reflexivity.
  set (e' := Z.min (fexp prec emax (d1 + ex - (d2 + ey))) (ex - ey)).
  set (m' := match ex - ey - e' with
             | 0 => Z.pos mx
             | Z.pos _ => Z.shiftl (Z.pos mx) (ex - ey - e')
             | Z.neg _ => 0
             end).
  assert (Hs : 0 <= ex - ey - e') by (unfold e'; lia).
  assert (Hm' : 0 < m' /\ Zdigits2 m' = d1 + (ex - ey - e')).
  { unfold m'. destruct (ex - ey - e') as [|p|p] eqn:Es.
    - split; [lia|]. unfold d1. lia.
    - rewrite Zdigits2_shiftl by lia. split; [|reflexivity].
      rewrite Z.shiftl_mul_pow2 by lia.
      assert (0 < 2 ^ Z.pos p) by (apply Z.pow_pos_nonneg; lia). nia.
    - lia. }
  destruct Hm' as [Hm'1 Hm'2].
  assert (Hlt : Zdigits2 (Z.pos my) < Zdigits2 m').
  { rewrite Hm'2. fold d2. unfold e', fexp, SpecFloat.emin, emax, prec in *.
    lia. }
  destruct (Zdigits2_div_ge m' (Z.pos my) Hm'1 eq_refl Hlt) as [Hq0 Hqd].
  assert (Hq : fst (Z.div_eucl m' (Z.pos my)) = m' / Z.pos my) by reflexivity.
  destruct (Z.div_eucl m' (Z.pos my)) as [q r]. simpl in Hq. subst q.
  fold d2 in Hqd. rewrite Hm'2 in Hqd. simpl xorb.
  assert (HD' : emin < Zdigits2 (m' / Z.pos my) + e') by lia.
  pose proof (binary_round_aux_mag_ge (m' / Z.pos my) e'
                (new_location (Z.pos my) r) Hq0 HD') as HR.
  destruct (binary_round_aux prec emax false (m' / Z.pos my) e'
              (new_location (Z.pos my) r)) as [s|s| |s m e];
    cbv [SFmag_ge] in *; try contradiction; destruct s; try contradiction;
    try exact I. lia.
Qed.


Local Open Scope float_scope.

Lemma SFmag_ge_positive (k : Z) (x : float) :
  SFmag_ge k (Prim2SF x) -> (0 <? x) = true.
Proof.
  rewrite ltb_spec, Prim2SF_zero.
  destruct (Prim2SF x) as [s|s| |s m e]; cbv [SFmag_ge]; try contradiction;
    destruct s; try contradiction; reflexivity.
Qed.

Lemma valid_canonical (s : bool) (m : positive) (e : Z) :
  valid_binary (S754_finite s m e) = true ->
  (Z.pos (digits2_pos m) = 53 \/ e = -1074)%Z.
Proof.
  simpl. unfold bounded, canonical_mantissa. intros H.
  apply andb_true_iff in H as [H1 _]. apply Z.eqb_eq in H1.
  revert H1. unfold fexp, SpecFloat.emin, prec, emax. lia.
Qed.

(** A magnitude below [2^0] is at most one. *)
Lemma mag_le_zero_leb_one (x : float) :
  SFmag_le 0 (Prim2SF x) -> (x <=? 1) = true.
Proof.
  rewrite leb_spec, Prim2SF_one. pose proof (Prim2SF_valid x) as V.
  destruct (Prim2SF x) as [s|s| |s m e]; cbv [SFmag_le]; try contradiction;
    [reflexivity|].
  intros H. destruct s; [reflexivity|].
  destruct (valid_canonical false m e V) as [Hd|He];
    cbv [SFleb SFcompare];
    destruct (Z.compare_spec e (-52)); try reflexivity; lia.
Qed.

(** A number of at least four is +infinity or has magnitude at least
    [2^2]. *)
Lemma four_leb_mag_ge (x : float) : (4 <=? x) = true -> SFmag_ge 3 (Prim2SF x).
Proof.
  rewrite leb_spec.
  change (Prim2SF 4) with (S754_finite false 4503599627370496 (-50)).
  pose proof (Prim2SF_valid x) as V.
  destruct (Prim2SF x) as [s|s| |s m e]; cbv [SFmag_ge]; try discriminate.
  - destruct s; [discriminate|]. intros _. exact I.
  - destruct s; [discriminate|]. intros H.
    destruct (valid_canonical false m e V) as [Hd|He];
      cbv [SFleb SFcompare] in H;
      destruct (Z.compare_spec (-50) e); try lia; discriminate H.
Qed.

(** At a finite positive throughput the time [1 / ops / 2] is positive. *)
Lemma inverse_half_positive (ops : float) :
  is_finite ops = true -> (0 <? ops) = true -> (0 <? 1 / ops / 2) = true.
Proof.
  intros Hf Hp.
  assert (E : exists m e, Prim2SF ops = S754_finite false m e).
  { revert Hf Hp. rewrite is_finite_spec, ltb_spec, Prim2SF_zero.
    destruct (Prim2SF ops) as [s|s| |s m e]; try discriminate.
    intros _ H. destruct s; [discriminate H|]. eauto. }
  destruct E as [m [e E]].
  pose proof (Prim2SF_valid ops) as V. rewrite E in V.
  destruct (valid_finite false m e V) as [Vd Ve].
  assert (H1 : SFmag_ge (1 - (Z.pos (digits2_pos m) + e)) (Prim2SF (1 / ops))).
  { rewrite div_spec, Prim2SF_one, E.
    apply (SFdiv_mag_ge 4503599627370496 m (-52) e).
    change (Z.pos (digits2_pos 4503599627370496)) with 53%Z.
    unfold SpecFloat.emin, emax, prec in *. lia. }
  apply (SFmag_ge_positive
           (1 - (Z.pos (digits2_pos m) + e) - 2)%Z).
  rewrite div_spec, Prim2SF_two. unfold SF64div.
  destruct (Prim2SF (1 / ops)) as [s1|s1| |s1 m1 e1]; cbv [SFmag_ge] in H1;
    try contradiction; destruct s1; try contradiction.
  - exact I.
  - pose proof (SFdiv_mag_ge m1 4503599627370496 e1 (-51)) as H2.
    change (Z.pos (digits2_pos 4503599627370496)) with 53%Z in H2.
    assert (HD : (emin < Z.pos (digits2_pos m1) + e1 - (53 + -51))%Z)
      by (unfold SpecFloat.emin, emax, prec in *; lia).
    specialize (H2 HD).
    destruct (SFdiv prec emax (S754_finite false m1 e1)
                (S754_finite false 4503599627370496 (-51))) as [s|s| |s m2 e2];
      cbv [SFmag_ge] in *; try contradiction; destruct s; try contradiction;
      try exact I. lia.
Qed.

(** At a throughput of at least four the time [1 / ops / 2] is at most one
    second. *)
Lemma inverse_half_leb_one (ops : float) :
  (4 <=? ops) = true -> (1 / ops / 2 <=? 1) = true.
Proof.
  intros H. apply four_leb_mag_ge in H.
  apply mag_le_zero_leb_one.
  assert (H1 : SFmag_le 0 (Prim2SF (1 / ops))).
  { rewrite div_spec, Prim2SF_one.
    destruct (Prim2SF ops) as [s|s| |s m e]; cbv [SFmag_ge] in H;
      try contradiction; destruct s; try contradiction.
    - exact I.
    - apply (SFdiv_bounded 1); cbv [SFmag_le];
        change (Z.pos (digits2_pos 4503599627370496)) with 53%Z;
        unfold SpecFloat.emin, emax, prec; lia. }
  apply (div_bounded 0 0 _ _ _ _ _ Prim2SF_two H1);
    change (Z.pos (digits2_pos 4503599627370496)) with 53%Z;
    unfold SpecFloat.emin, emax, prec; lia.
Qed.

Lemma valid_emin (s : bool) (m : positive) (e : Z) :
  valid_binary (S754_finite s m e) = true -> (-1074 <= e)%Z.
Proof.
  simpl. unfold bounded, canonical_mantissa. intros H.
  apply andb_true_iff in H as [H1 _]. apply Z.eqb_eq in H1.
  revert H1. unfold fexp, SpecFloat.emin, prec, emax. lia.
Qed.

(** A number of magnitude below [2^K] is less than a positive number of
    magnitude at least [2^K]. *)
Lemma mag_lt_ltb (K L : Z) (x y : float) :
  SFmag_le K (Prim2SF x) -> SFmag_ge L (Prim2SF y) -> (K < L)%Z ->
  (x <? y) = true.
Proof.
  rewrite ltb_spec.
  pose proof (Prim2SF_valid x) as Vx. pose proof (Prim2SF_valid y) as Vy.
  destruct (Prim2SF x) as [sx|sx| |sx mx ex], (Prim2SF y) as [sy|sy| |sy my ey];
    cbv [SFmag_le SFmag_ge]; try contradiction; destruct sy; try contradiction;
    intros Hx Hy HKL; try reflexivity; destruct sx; try reflexivity.
  destruct (valid_canonical false mx ex Vx) as [Hdx|Hex];
    destruct (valid_canonical false my ey Vy) as [Hdy|Hey];
    destruct (valid_finite false mx ex Vx) as [Bx _];
    destruct (valid_finite false my ey Vy) as [By _];
    pose proof (valid_emin false mx ex Vx) as Lx;
    pose proof (valid_emin false my ey Vy) as Ly;
    cbv [SFltb SFcompare];
    destruct (Z.compare_spec ex ey); try reflexivity; try lia.
  all: subst ey;
    change (Pos.compare_cont Eq mx my) with (Pos.compare mx my);
    destruct (Pos.compare_spec mx my) as [E|E|E]; try reflexivity;
    [subst my; lia|];
    assert (Zdigits2 (Z.pos my) <= Zdigits2 (Z.pos mx))%Z
      by (apply Zdigits2_mono; lia);
    simpl Zdigits2 in *; lia.
Qed.

Lemma SFmag_ge_weaken (k k' : Z) (x : spec_float) :
  (k' <= k)%Z -> SFmag_ge k x -> SFmag_ge k' x.
Proof.
  destruct x as [s|s| |s m e]; cbv [SFmag_ge]; try contradiction;
    destruct s; try contradiction; intros; [exact I|lia].
Qed.

Lemma div_mag_ge (a : Z) (x c : float) (my : positive) (ey : Z) :
  Prim2SF c = S754_finite false my ey ->
  SFmag_ge a (Prim2SF x) ->
  (emin < a - (Z.pos (digits2_pos my) + ey))%Z ->
  SFmag_ge (a - (Z.pos (digits2_pos my) + ey)) (Prim2SF (x / c)).
Proof.
  intros Hc. rewrite div_spec, Hc. unfold SF64div.
  destruct (Prim2SF x) as [s|s| |s m e]; cbv [SFmag_ge]; try contradiction;
    destruct s; try contradiction; intros Ha HD; [exact I|].
  apply (SFmag_ge_weaken (Z.pos (digits2_pos m) + e
                          - (Z.pos (digits2_pos my) + ey))); [lia|].
  apply SFdiv_mag_ge. lia.
Qed.

Lemma exact_mag (k : Z) (x : float) :
  SFmag_ge k (Prim2SF x) -> SFmag_le k (Prim2SF x) ->
  exists (m : positive) (e : Z),
    Prim2SF x = S754_finite false m e /\ (Z.pos (digits2_pos m) + e = k)%Z.
Proof.
  destruct (Prim2SF x) as [s|s| |s m e]; cbv [SFmag_ge SFmag_le];
    try contradiction; destruct s; try contradiction.
  intros H1 H2. exists m, e. split; [reflexivity|lia].
Qed.

Lemma positive_not_leb_zero (x : float) (m : positive) (e : Z) :
  Prim2SF x = S754_finite false m e -> (x <=? 0) = false.
Proof. intros E. rewrite leb_spec, E, Prim2SF_zero. reflexivity. Qed.

End FloatLower.

(** ** The character-class pool *)

Lemma existsb_false_Forall {A : Type} (f : A -> bool) (xs : list A) :
  Forall (fun x => f x = false) xs -> existsb f xs = false.
Proof.
  induction 1 as [|x xs Hx _ IH]; simpl; [reflexivity|].
  rewrite Hx, IH. reflexivity.
Qed.

Lemma existsb_true_Forall {A : Type} (f : A -> bool) (xs : list A) :
  xs <> [] -> Forall (fun x => f x = true) xs -> existsb f xs = true.
Proof.
  intros Hne H. destruct H as [|x xs Hx _]; [contradiction|].
  simpl. rewrite Hx. reflexivity.
Qed.

Lemma unclassified_pool (P : Platform) (password : str) :
  Forall (fun c => unclassified P c = true) password ->
  effective_pool P password = 0%Z.
Proof.
  intros H. unfold effective_pool.
  rewrite !existsb_false_Forall; [reflexivity| | | |];
    (eapply Forall_impl; [|exact H]); intros c Hc; unfold unclassified in Hc;
    apply negb_true_iff in Hc; repeat (apply orb_false_iff in Hc as [Hc ?]);
    assumption.
Qed.

Lemma only_lowercase_pool (P : Platform) (password : str) :
  password <> [] ->
  Forall (fun c => only_lowercase P c = true) password ->
  effective_pool P password = 26%Z.
Proof.
  intros Hne H. unfold effective_pool.
  rewrite (existsb_true_Forall (islower P)), !existsb_false_Forall;
    [reflexivity| | | | |]; try assumption;
    (eapply Forall_impl; [|exact H]); intros c Hc; unfold only_lowercase in Hc;
    apply andb_true_iff in Hc as [Hl Hc]; try assumption;
    apply negb_true_iff in Hc; repeat (apply orb_false_iff in Hc as [Hc ?]);
    assumption.
Qed.

(** C2, refuted as stated: a password of digits alone has the pool 10,
    which is not one of the eleven values of the claim. *)
Lemma effective_pool_of_digits :
  effective_pool Reference.platform (lit "2024") = 10%Z /\
  existsb (Z.eqb 10) [0; 26; 36; 46; 52; 58; 62; 68; 78; 88; 94]%Z = false.
Proof. split; reflexivity. Qed.

(** C2, as amended: the effective pool size is one of the twelve sums of
    sub-pools that the four sizes 26, 26, 10 and 32 can form, namely 0, 10,
    26, 32, 36, 42, 52, 58, 62, 68, 84 or 94, and each of them is the pool
    of some password. *)
Theorem effective_pool_values :
  forall P : Platform,
    (forall password : str,
       In (effective_pool P password)
          [0; 10; 26; 32; 36; 42; 52; 58; 62; 68; 84; 94]%Z) /\
    (forall v : Z,
       In v [0; 10; 26; 32; 36; 42; 52; 58; 62; 68; 84; 94]%Z ->
       exists password : str, effective_pool P password = v).
Proof.
  intros P. split.
  - intros password. unfold effective_pool.
    destruct (existsb (islower P) password), (existsb (isupper P) password),
      (existsb (isdigit P) password), (existsb in_punctuation password);
      simpl; tauto.
  - intros v Hv. simpl in Hv.
    repeat (destruct Hv as [<-|Hv]); try contradiction.
    + exists []. reflexivity.
    + exists (lit "7"). reflexivity.
    + exists (lit "a"). reflexivity.
    + exists (lit "!"). reflexivity.
    + exists (lit "a7"). reflexivity.
    + exists (lit "7!"). reflexivity.
    + exists (lit "aA"). reflexivity.
    + exists (lit "a!"). reflexivity.
    + exists (lit "aA7"). reflexivity.
    + exists (lit "a7!"). reflexivity.
    + exists (lit "aA!"). reflexivity.
    + exists (lit "aA7!"). reflexivity.
Qed.

(** ** Entropy *)

(** C3, refuted as stated: the one-letter password U+00E9 (e with acute, a
    non-ASCII letter) is lowercase for [str.islower], so its pool is 26 and
    its entropy is [round(log2(26), 2)], that is 4.7, not 0.0. *)
Lemma entropy_of_e_acute :
  effective_pool Reference.platform [233%N] = 26%Z /\
  estimate_entropy Reference.platform [233%N] = Ok 0x1.2cccccccccccdp+2%float.
Proof. split; vm_compute; reflexivity. Qed.

(** C3, as amended: the entropy is exactly 0.0 for the empty password, for
    a password of spaces only, and for every password none of whose
    characters is lowercase, uppercase or a digit for Python (Unicode-aware)
    or ASCII punctuation.  A non-ASCII letter that has a case is not such a
    character. *)
Theorem estimate_entropy_zero :
  forall P : Platform,
    estimate_entropy P [] = Ok 0%float /\
    (forall n : nat, estimate_entropy P (repeat 32%N n) = Ok 0%float) /\
    (forall password : str,
       Forall (fun c => unclassified P c = true) password ->
       estimate_entropy P password = Ok 0%float).
Proof.
  intros P.
  assert (H : forall password : str,
             Forall (fun c => unclassified P c = true) password ->
             estimate_entropy P password = Ok 0%float).
  { intros password Hp. unfold estimate_entropy.
    rewrite (unclassified_pool P password Hp). reflexivity. }
  split; [reflexivity|]. split; [|exact H].
  intros n. apply H. induction n; simpl; constructor; [reflexivity|assumption].
Qed.

(** C6: with a non-zero pool [estimate_entropy] returns
    [round(log2(pool) * len(password), 2)]; the pool counts a class once,
    however many of its characters occur: 26 for every non-empty password of
    lowercase letters only, and 94 for ["aA1!"]. *)
Theorem estimate_entropy_formula :
  forall (P : Platform) (password : str),
    (effective_pool P password <> 0%Z ->
     estimate_entropy P password
     = spec_entropy P (effective_pool P password) (len password)) /\
    (password <> [] ->
     Forall (fun c => only_lowercase P c = true) password ->
     estimate_entropy P password = spec_entropy P 26 (len password)) /\
    estimate_entropy P (lit "aA1!") = spec_entropy P 94 4.
Proof.
  intros P password.
  assert (H : effective_pool P password <> 0%Z ->
              estimate_entropy P password
              = spec_entropy P (effective_pool P password) (len password)).
  { intros Hp. unfold estimate_entropy, spec_entropy.
    apply Z.eqb_neq in Hp. rewrite Hp. reflexivity. }
  split; [exact H|]. split; [|reflexivity].
  intros Hne Hl. pose proof (only_lowercase_pool P password Hne Hl) as E.
  rewrite E in H. apply H. discriminate.
Qed.

(** ** Crack times *)

Section CrackTime.
Variable P : Platform.
Local Open Scope float_scope.
Import FloatOrder.

Lemma truediv_ok (a b : float) :
  (b =? 0) = false -> PyFloat.truediv a b = Ok (a / b).
Proof. intros H. unfold PyFloat.truediv. rewrite H. reflexivity. Qed.

Lemma truediv_positive (a b : float) :
  (b <=? 0) = false -> PyFloat.truediv a b = Ok (a / b).
Proof. intros H. apply truediv_ok, not_leb_not_eqb, H. Qed.

Lemma truediv_two (a : float) : PyFloat.truediv a 2 = Ok (a / 2).
Proof. reflexivity. Qed.

Lemma pow2_cases (w : float) :
  (pow_overflows P w = true /\ pow2 P w = Raise OverflowError) \/
  (pow_overflows P w = false /\ exists p : float, pow2 P w = Ok p).
Proof.
  unfold pow_overflows, pow2, is_finite.
  destruct (w =? 0); [right; split; [reflexivity|eauto]|].
  destruct (is_nan w); [right; split; [reflexivity|eauto]|].
  destruct (is_infinity w); [right; split; [reflexivity|eauto]|].
  destruct (is_infinity (pow_2 P w)); [left|right]; split; eauto.
Qed.

Lemma classical_time_unfold (e ops : float) (average : bool) :
  (ops <=? 0) = false ->
  classical_time_seconds P e ops average
  = (p <- pow2 P e ;; Ok (if average then p / ops / 2 else p / ops)).
Proof.
  intros H. unfold classical_time_seconds. rewrite H.
  destruct (pow2 P e) as [p|x]; simpl; [|reflexivity].
  rewrite (truediv_positive p ops H). simpl.
  destruct average; reflexivity.
Qed.

Lemma grover_time_unfold (e ops : float) (average : bool) :
  (ops <=? 0) = false ->
  grover_time_seconds P e ops average
  = (p <- pow2 P (e / 2) ;; Ok (if average then p / ops / 2 else p / ops)).
Proof.
  intros H. unfold grover_time_seconds. rewrite H, truediv_two. simpl.
  destruct (pow2 P (e / 2)) as [p|x]; simpl; [|reflexivity].
  rewrite (truediv_positive p ops H). simpl.
  destruct average; reflexivity.
Qed.

Lemma grover_is_classical_at_half (e ops : float) (average : bool) :
  grover_time_seconds P e ops average
  = classical_time_seconds P (e / 2) ops average.
Proof.
  destruct (ops <=? 0) eqn:H.
  - unfold grover_time_seconds, classical_time_seconds. rewrite H. reflexivity.
  - rewrite grover_time_unfold, classical_time_unfold by assumption.
    reflexivity.
Qed.

End CrackTime.

(** C7: with a throughput that is zero or negative both crack-time
    functions return +infinity at once, for every entropy and both settings
    of [average]. *)
Theorem nonpositive_ops_gives_infinity :
  forall (P : Platform) (entropy_bits ops : float) (average : bool),
    (ops <=? 0)%float = true ->
    classical_time_seconds P entropy_bits ops average = Ok infinity /\
    grover_time_seconds P entropy_bits ops average = Ok infinity.
Proof.
  intros P e ops avg H.
  unfold classical_time_seconds, grover_time_seconds.
  rewrite H. split; reflexivity.
Qed.

Lemma nonpositive_ops_gives_infinity_witness :
  classical_time_seconds Reference.platform 37.5 (-1) false = Ok infinity /\
  grover_time_seconds Reference.platform 37.5 (-1) false = Ok infinity.
Proof.
  apply (nonpositive_ops_gives_infinity Reference.platform 37.5 (-1) false).
  reflexivity.
Defined.

(** C1, refuted as stated: with one operation per second, [2 ** 1024.0]
    (and [2 ** (2048.0 / 2)]) is an [OverflowError], not +infinity; so is
    the classical time of a password of 160 characters over all four
    classes, whose entropy is 1048.73 bits, at the default [1e9]
    guesses per second. *)
Lemma crack_time_overflow_raises :
  classical_time_seconds Reference.platform 1024 1 true = Raise OverflowError /\
  grover_time_seconds Reference.platform 2048 1 true = Raise OverflowError /\
  (e <- estimate_entropy Reference.platform
          (List.concat (repeat (lit "aA1!") 40)) ;;
   classical_time_seconds Reference.platform e 1e9 true)
  = Raise OverflowError.
Proof. repeat apply conj; vm_compute; reflexivity. Qed.

(** C1, as amended: the crack-time functions raise no exception other than
    [OverflowError], and raise it exactly when the throughput is not [<= 0]
    and the power [2 ** entropy_bits] (for Grover [2 ** (entropy_bits / 2)])
    overflows on a finite exponent; in every other case they return a
    float. *)
Theorem crack_time_exceptions :
  forall (P : Platform) (entropy_bits ops : float) (average : bool),
    (classical_time_seconds P entropy_bits ops average = Raise OverflowError
     <-> (ops <=? 0)%float = false /\ pow_overflows P entropy_bits = true) /\
    (grover_time_seconds P entropy_bits ops average = Raise OverflowError
     <-> (ops <=? 0)%float = false /\
         pow_overflows P (entropy_bits / 2)%float = true) /\
    (forall x : exn,
       classical_time_seconds P entropy_bits ops average = Raise x ->
       x = OverflowError) /\
    (forall x : exn,
       grover_time_seconds P entropy_bits ops average = Raise x ->
       x = OverflowError).
Proof.
  intros P e ops avg.
  assert (C : forall w,
    (classical_time_seconds P w ops avg = Raise OverflowError
     <-> (ops <=? 0)%float = false /\ pow_overflows P w = true) /\
    (forall x, classical_time_seconds P w ops avg = Raise x -> x = OverflowError)).
  { intros w. destruct (ops <=? 0)%float eqn:H.
    - unfold classical_time_seconds. rewrite H.
      split; [split; [discriminate|intros [? _]; discriminate]|discriminate].
    - rewrite classical_time_unfold by assumption.
      destruct (pow2_cases P w) as [[Ho ->]|[Ho [p ->]]]; simpl; rewrite Ho.
      + split; [tauto|]. intros x Hx. congruence.
      + split; [|discriminate].
        split; [discriminate|intros [_ ?]; discriminate]. }
  rewrite grover_is_classical_at_half.
  destruct (C e) as [C1 C2]. destruct (C (e / 2)%float) as [G1 G2].
  split; [exact C1|]. split; [exact G1|]. split; assumption.
Qed.

(** ** The empty password, end to end *)

(** C5, refuted as stated: at entropy 0.0 and one operation per second both
    crack times are 0.5 seconds, not 0; and at [2^-30] operations per
    second they are [2^29] seconds (about 17 years), for which the safety
    percentage is 62, not 0. *)
Lemma empty_password_times_not_zero :
  estimate_entropy Reference.platform [] = Ok 0%float /\
  classical_time_seconds Reference.platform 0 1 true = Ok 0.5%float /\
  grover_time_seconds Reference.platform 0 1 true = Ok 0.5%float /\
  classical_time_seconds Reference.platform 0 0x1p-30 true = Ok 0x1p+29%float /\
  grover_time_seconds Reference.platform 0 0x1p-30 true = Ok 0x1p+29%float /\
  time_to_percent_years Reference.platform 0x1p+29 = Ok 62%Z.
Proof. repeat apply conj; vm_compute; reflexivity. Qed.

(** C5, as amended: for the empty password the entropy is exactly 0.0 and,
    for a throughput [ops > 0], both average crack times are
    [1 / ops / 2] seconds (that is [2^0 / ops / 2], the same for both
    adversaries), which is more than 0 for every finite throughput; a
    safety percentage is 0 whenever the crack time is at most one second,
    as it is for every throughput of at least 4 operations per second. *)
Theorem empty_password_pipeline :
  forall P : Platform,
    estimate_entropy P [] = Ok 0%float /\
    (forall ops : float,
       (0 <? ops)%float = true ->
       classical_time_seconds P 0 ops true = Ok (1 / ops / 2)%float /\
       grover_time_seconds P 0 ops true = Ok (1 / ops / 2)%float) /\
    (forall ops : float,
       is_finite ops = true -> (0 <? ops)%float = true ->
       (0 <? 1 / ops / 2)%float = true) /\
    (forall t : float,
       (t <=? 1)%float = true -> time_to_percent_years P t = Ok 0%Z) /\
    (forall ops : float,
       (4 <=? ops)%float = true ->
       time_to_percent_years P (1 / ops / 2)%float = Ok 0%Z).
Proof.
  intros P.
  assert (Hpct : forall t : float,
             (t <=? 1)%float = true -> time_to_percent_years P t = Ok 0%Z).
  { intros t H. unfold time_to_percent_years. rewrite H. reflexivity. }
  split; [reflexivity|]. split; [|split; [|split]].
  - intros ops H. apply FloatOrder.ltb_not_leb in H.
    rewrite classical_time_unfold, grover_time_unfold by assumption.
    split; reflexivity.
  - exact FloatLower.inverse_half_positive.
  - exact Hpct.
  - intros ops H. apply Hpct, FloatLower.inverse_half_leb_one, H.
Qed.

(** ** Durations for people *)

Section HumanTime.
Local Open Scope float_scope.
Import FloatOrder.

Lemma fixed_digits_length (width : nat) (n : Z) :
  List.length (fixed_digits width n) = width.
Proof.
  revert n. induction width as [|w IH]; intros n; simpl; [reflexivity|].
  rewrite length_app, IH. simpl. lia.
Qed.

(** A finite number is rendered as a sign, an integer part, a point and
    exactly [places] digits. *)
Lemma format_f_shape (places : nat) (x : float) :
  is_finite x = true ->
  exists sign whole frac : str,
    PyFloat.format_f places x = sign ++ whole ++ lit "." ++ frac /\
    List.length frac = places.
Proof.
  rewrite is_finite_spec. unfold PyFloat.format_f, PyFloat.fixed_point.
  destruct (Prim2SF x) as [s|s| |s m e]; try discriminate; intros _;
    eexists _, _, _; (split; [reflexivity|apply fixed_digits_length]).
Qed.

Lemma human_time_nan (s : float) :
  is_nan s = true -> human_time s = Ok infinity_symbol.
Proof.
  intros H. unfold human_time.
  change (PyFloat.neb s s) with (is_nan s). rewrite H. reflexivity.
Qed.

(** The tests of [human_time] for a number in [[lo, hi)]: it is neither a
    NaN nor infinity. *)
Lemma human_time_tests (s lo hi : float) :
  (lo <=? s) = true -> (s <? hi) = true ->
  PyFloat.neb s s || (s =? infinity) = false.
Proof.
  intros Hlo Hhi. change (PyFloat.neb s s) with (is_nan s).
  rewrite (leb_not_nan_r lo s Hlo), (ltb_not_infinity s hi Hhi). reflexivity.
Qed.

Lemma human_time_subsecond (s : float) :
  (s <? 1) = true ->
  human_time s = Ok (PyFloat.format_f 3 s ++ lit " s").
Proof.
  intros H. unfold human_time. change (PyFloat.neb s s) with (is_nan s).
  rewrite (ltb_not_nan_l s 1 H), (ltb_not_infinity s 1 H), H. reflexivity.
Qed.

Lemma human_time_seconds (s : float) :
  (1 <=? s) = true -> (s <? 60) = true ->
  human_time s = Ok (PyFloat.format_f 2 s ++ lit " s").
Proof.
  intros Hlo Hhi. unfold human_time.
  rewrite (human_time_tests s 1 60 Hlo Hhi), (leb_not_ltb 1 s Hlo), Hhi.
  reflexivity.
Qed.

Lemma human_time_minutes (s : float) :
  (60 <=? s) = true -> (s <? 3600) = true ->
  human_time s = Ok (PyFloat.format_f 2 (s / 60) ++ lit " min").
Proof.
  intros Hlo Hhi. unfold human_time.
  rewrite (human_time_tests s 60 3600 Hlo Hhi).
  rewrite (leb_leb_not_ltb 1 60 s eq_refl Hlo), (leb_not_ltb 60 s Hlo), Hhi.
  reflexivity.
Qed.

Lemma human_time_hours (s : float) :
  (3600 <=? s) = true -> (s <? 86400) = true ->
  human_time s = Ok (PyFloat.format_f 2 (s / 3600) ++ lit " hr").
Proof.
  intros Hlo Hhi. unfold human_time.
  rewrite (human_time_tests s 3600 86400 Hlo Hhi).
  rewrite (leb_leb_not_ltb 1 3600 s eq_refl Hlo).
  rewrite (leb_leb_not_ltb 60 3600 s eq_refl Hlo).
  rewrite (leb_not_ltb 3600 s Hlo), Hhi.
  reflexivity.
Qed.

Lemma human_time_days (s : float) :
  (86400 <=? s) = true -> (s <? 31536000) = true ->
  human_time s = Ok (PyFloat.format_f 2 (s / 86400) ++ lit " days").
Proof.
  intros Hlo Hhi. unfold human_time.
  rewrite (human_time_tests s 86400 31536000 Hlo Hhi).
  rewrite (leb_leb_not_ltb 1 86400 s eq_refl Hlo).
  rewrite (leb_leb_not_ltb 60 86400 s eq_refl Hlo).
  rewrite (leb_leb_not_ltb 3600 86400 s eq_refl Hlo).
  rewrite (leb_not_ltb 86400 s Hlo), Hhi.
  reflexivity.
Qed.

Lemma human_time_years (s : float) :
  (31536000 <=? s) = true -> (s <? infinity) = true ->
  human_time s = Ok (PyFloat.format_f 2 (s / 31536000) ++ lit " years").
Proof.
  intros Hlo Hhi. unfold human_time.
  rewrite (human_time_tests s 31536000 infinity Hlo Hhi).
  rewrite (leb_leb_not_ltb 1 31536000 s eq_refl Hlo).
  rewrite (leb_leb_not_ltb 60 31536000 s eq_refl Hlo).
  rewrite (leb_leb_not_ltb 3600 31536000 s eq_refl Hlo).
  rewrite (leb_leb_not_ltb 86400 31536000 s eq_refl Hlo).
  rewrite (leb_not_ltb 31536000 s Hlo).
  reflexivity.
Qed.

End HumanTime.

(** C9: [human_time] returns the infinity sign for a NaN and for
    +infinity; below one second it renders the seconds with three decimal
    places and the unit "s"; from one second on it renders two decimal
    places of the seconds below 60, of the minutes below 3600, of the hours
    below 86400, of the days below 31536000 and of the years from there on,
    so that each of the thresholds 60, 3600, 86400 and 31536000 itself
    belongs to the larger unit. *)
Theorem human_time_units :
  (forall s : float, is_nan s = true -> human_time s = Ok infinity_symbol) /\
  human_time nan = Ok infinity_symbol /\
  human_time infinity = Ok infinity_symbol /\
  (forall s : float,
     (s <? 1)%float = true ->
     human_time s = Ok (PyFloat.format_f 3 s ++ lit " s")) /\
  (forall s : float,
     (1 <=? s)%float = true -> (s <? 60)%float = true ->
     human_time s = Ok (PyFloat.format_f 2 s ++ lit " s")) /\
  (forall s : float,
     (60 <=? s)%float = true -> (s <? 3600)%float = true ->
     human_time s = Ok (PyFloat.format_f 2 (s / 60)%float ++ lit " min")) /\
  (forall s : float,
     (3600 <=? s)%float = true -> (s <? 86400)%float = true ->
     human_time s = Ok (PyFloat.format_f 2 (s / 3600)%float ++ lit " hr")) /\
  (forall s : float,
     (86400 <=? s)%float = true -> (s <? 31536000)%float = true ->
     human_time s = Ok (PyFloat.format_f 2 (s / 86400)%float ++ lit " days")) /\
  (forall s : float,
     (31536000 <=? s)%float = true -> (s <? infinity)%float = true ->
     human_time s
     = Ok (PyFloat.format_f 2 (s / 31536000)%float ++ lit " years")) /\
  (forall (places : nat) (x : float),
     is_finite x = true ->
     exists sign whole frac : str,
       PyFloat.format_f places x = sign ++ whole ++ lit "." ++ frac /\
       List.length frac = places) /\
  human_time 0.5 = Ok (lit "0.500 s") /\
  human_time 0x1.dffdf3b645a1dp+5 = Ok (lit "60.00 s") /\
  human_time 60 = Ok (lit "1.00 min") /\
  human_time 3600 = Ok (lit "1.00 hr") /\
  human_time 86400 = Ok (lit "1.00 days") /\
  human_time 31536000 = Ok (lit "1.00 years").
Proof.
  split; [exact human_time_nan|].
  split; [reflexivity|]. split; [reflexivity|].
  split; [exact human_time_subsecond|].
  split; [exact human_time_seconds|].
  split; [exact human_time_minutes|].
  split; [exact human_time_hours|].
  split; [exact human_time_days|].
  split; [exact human_time_years|].
  split; [exact format_f_shape|].
  repeat apply conj; vm_compute; reflexivity.
Qed.

(** ** The C library of reference *)

(** The reference C library is regular. *)

Lemma in_range_bounded (r : float) :
  ((-2048 <=? Reference.in_range r) && (Reference.in_range r <=? 2048))%float
  = true.
Proof.
  unfold Reference.in_range.
  destruct ((-2048 <=? r) && (r <=? 2048))%float eqn:E; [exact E|reflexivity].
Qed.

Lemma reference_log_bounded (scale : Z) (x : float) :
  is_finite x = true -> (0 <? x)%float = true ->
  ((-2048 <=? Reference.log_with scale x)
   && (Reference.log_with scale x <=? 2048))%float = true.
Proof.
  rewrite FloatOrder.is_finite_spec, ltb_spec, FloatOrder.Prim2SF_zero.
  unfold Reference.log_with, SFltb.
  destruct (Prim2SF x) as [s|s| |s m e]; try discriminate.
  destruct s; [discriminate|]. intros _ _. apply in_range_bounded.
Qed.

Lemma regular_at_sound (P : Platform) (l : Z) (lf : float) :
  regular_at P l = true -> PyFloat.of_int l = Ok lf ->
  pow_regular P (log_2 P 26 * lf)%float /\
  pow_regular P (log_2 P 26 * lf / 2)%float.
Proof.
  unfold regular_at, pow_regular. intros H E. rewrite E in H. cbv zeta in H.
  destruct (is_infinity (pow_2 P (log_2 P 26 * lf)%float));
    [discriminate|].
  destruct (pow_2 P (log_2 P 26 * lf) <? 0)%float; [discriminate|].
  destruct (is_infinity (pow_2 P (log_2 P 26 * lf / 2)%float));
    [discriminate|].
  destruct (pow_2 P (log_2 P 26 * lf / 2) <? 0)%float; [discriminate|].
  repeat apply conj; reflexivity.
Qed.

Lemma reference_regular_run :
  forallb (regular_at Reference.platform) lengths = true.
Proof. vm_compute. reflexivity. Qed.

Lemma reference_regular : libm_regular Reference.platform.
Proof.
  split.
  - intros x Hf Hp. apply reference_log_bounded; assumption.
  - intros l lf Hl E.
    exact (regular_at_sound Reference.platform l lf
             (proj1 (forallb_forall _ _) reference_regular_run l Hl) E).
Qed.

(** ** The safety percentage *)

Section Percent.
Variable P : Platform.
Hypothesis regular : libm_regular P.
Local Open Scope float_scope.
Import FloatOrder FloatSign FloatRange.

Lemma math_log10_finite_positive (x : float) :
  is_finite x = true -> (0 <? x) = true ->
  math_log10 P x = Ok (log_10 P x) /\ SFmag_le 12 (Prim2SF (log_10 P x)).
Proof.
  intros Hf Hp.
  pose proof (mag_le_of_bounds _ (log_10_bounded P regular x Hf Hp)) as Hb.
  split; [|exact Hb].
  pose proof (mag_le_finite _ _ Hb) as Hr.
  unfold math_log10, math_1, m_log. rewrite Hf, Hp.
  unfold is_finite in Hr. apply negb_true_iff, orb_false_iff in Hr as [H1 H2].
  rewrite H1, H2. reflexivity.
Qed.

Lemma positive_finite (k : Z) (x : float) :
  SFpositive (Prim2SF x) = true -> SFmag_le k (Prim2SF x) ->
  is_finite x = true /\ (0 <? x) = true.
Proof.
  intros Hp Hm. split; [exact (mag_le_finite k x Hm)|].
  rewrite ltb_spec, Prim2SF_zero.
  destruct (Prim2SF x) as [s|s| |s m e]; try discriminate;
    cbv [SFmag_le] in Hm; try contradiction.
  destruct s; [discriminate|reflexivity].
Qed.

Lemma clamp_range (n : Z) : (0 <= Z.max 0 (Z.min 100 n) <= 100)%Z.
Proof. lia. Qed.

(** On every number [time_to_percent_years] returns a percentage. *)
Lemma time_to_percent_years_total (seconds : float) :
  is_nan seconds = false ->
  exists n : Z,
    time_to_percent_years P seconds = Ok n /\ (0 <= n <= 100)%Z.
Proof.
  intros Hnan. unfold time_to_percent_years.
  destruct (seconds <=? 1) eqn:H1; [exists 0%Z; split; [reflexivity|lia]|].
  rewrite (truediv_ok seconds 31536000 eq_refl). simpl bind.
  destruct (PyFloat.geb (seconds / 31536000) 100) eqn:H2;
    [exists 100%Z; split; [reflexivity|lia]|].
  unfold PyFloat.geb in H2.
  pose proof (not_leb_one_nonneg seconds H1) as Hs.
  pose proof (div_nonneg seconds 31536000 Hs eq_refl) as Hy.
  assert (Hym : SFmag_le 7 (Prim2SF (seconds / 31536000))).
  { assert (Hfin : is_finite seconds = true).
    { rewrite is_finite_spec. rewrite is_nan_spec in Hnan.
      destruct (Prim2SF seconds) as [s|s| |s m e] eqn:E; try reflexivity;
        try discriminate.
      exfalso. destruct s; [discriminate Hs|].
      rewrite leb_spec, div_spec, E, Prim2SF_year, Prim2SF_hundred in H2.
      discriminate H2. }
    apply (mag_le_below_hundred 1001); [|assumption|assumption].
    apply (div_bounded 1024 1001 _ _ _ _ _ Prim2SF_year (finite_mag_le _ Hfin));
      unfold emax, prec, SpecFloat.emin; simpl; lia. }
  set (years := seconds / 31536000) in *.
  assert (Hx : SFmag_le 9 (Prim2SF (years + 1))).
  { rewrite add_spec, Prim2SF_one.
    apply (SFadd_one_bounded 7); try assumption; unfold emax, prec; lia. }
  destruct (positive_finite 9 _ (add_one_positive years Hy) Hx) as [Hf Hp].
  destruct (math_log10_finite_positive _ Hf Hp) as [-> Hl]. simpl bind.
  assert (Hh : SFmag_le 12 (Prim2SF (log_10 P (years + 1) / 2))).
  { apply (div_bounded 12 12 _ _ _ _ _ Prim2SF_two Hl);
      unfold emax, prec, SpecFloat.emin; simpl; lia. }
  assert (Hp100 : SFmag_le 20 (Prim2SF (log_10 P (years + 1) / 2 * 100))).
  { rewrite mul_spec, Prim2SF_hundred.
    apply (SFmul_bounded 12 7); try assumption;
      unfold emax, prec, SpecFloat.emin; cbv [SFmag_le]; simpl; lia. }
  destruct (to_int_finite _ _ Hp100) as [pct ->]. simpl bind.
  eexists. split; [reflexivity|apply clamp_range].
Qed.

(** [int(x)] and [math.floor(x)] raise alike, and agree once clamped into
    [[0, 100]]. *)
Lemma clamp_to_int_floor (x : float) :
  (pct <- PyFloat.to_int x ;; Ok (Z.max 0 (Z.min 100 pct)))
  = (pct <- floor_int x ;; Ok (Z.max 0 (Z.min 100 pct))).
Proof.
  unfold PyFloat.to_int, floor_int.
  destruct (Prim2SF x) as [s|s| |s m e]; try reflexivity. simpl bind.
  f_equal. destruct (0 <=? e)%Z eqn:He.
  - destruct s; simpl cond_Zopp; [|reflexivity].
    change (Z.neg m) with (- Z.pos m)%Z. rewrite Z.mul_opp_l. reflexivity.
  - destruct s; simpl cond_Zopp; [|reflexivity].
    assert (Hpow : (0 < 2 ^ (- e))%Z)
      by (apply Z.pow_pos_nonneg; [lia|apply Z.leb_gt in He; lia]).
    assert (H1 : (0 <= Z.pos m / 2 ^ (- e))%Z) by (apply Z.div_pos; lia).
    assert (H2 : (Z.neg m / 2 ^ (- e) <= 0)%Z)
      by (apply Z.div_le_upper_bound; lia).
    lia.
Qed.

Lemma time_to_percent_years_floor (seconds : float) :
  (seconds <=? 1) = false -> (100 <=? seconds / 31536000) = false ->
  time_to_percent_years P seconds
  = (lg <- math_log10 P (seconds / 31536000 + 1) ;;
     pct <- floor_int (lg / 2 * 100) ;;
     Ok (Z.max 0 (Z.min 100 pct))).
Proof.
  intros H1 H2. unfold time_to_percent_years. rewrite H1.
  rewrite (truediv_ok seconds 31536000 eq_refl). simpl bind.
  unfold PyFloat.geb. rewrite H2.
  destruct (math_log10 P (seconds / 31536000 + 1)) as [lg|x]; [|reflexivity].
  simpl bind. apply clamp_to_int_floor.
Qed.

End Percent.

(** C4: [time_to_percent_years] across the floats.  The failing input is
    NaN, on which it raises the [ValueError] of [int(nan)], where
    [human_time] returns the infinity sign.  On every other float (the
    infinities and the negative numbers too) it returns an integer between
    0 and 100: 0 up to one second, 100 when the years, [seconds / 31536000],
    are at least 100, and otherwise [floor((log10(years + 1) / 2) * 100)]
    clamped into [[0, 100]]. *)
Theorem time_to_percent_years_domain :
  forall P : Platform,
    libm_regular P ->
    time_to_percent_years P nan = Raise ValueError /\
    human_time nan = Ok infinity_symbol /\
    (forall seconds : float,
       is_nan seconds = false ->
       exists n : Z,
         time_to_percent_years P seconds = Ok n /\ (0 <= n <= 100)%Z) /\
    (forall seconds : float,
       (seconds <=? 1)%float = true ->
       time_to_percent_years P seconds = Ok 0%Z) /\
    (forall seconds : float,
       (seconds <=? 1)%float = false ->
       (100 <=? seconds / 31536000)%float = true ->
       time_to_percent_years P seconds = Ok 100%Z) /\
    (forall seconds : float,
       (seconds <=? 1)%float = false ->
       (100 <=? seconds / 31536000)%float = false ->
       time_to_percent_years P seconds
       = (lg <- math_log10 P (seconds / 31536000 + 1)%float ;;
          pct <- floor_int (lg / 2 * 100)%float ;;
          Ok (Z.max 0 (Z.min 100 pct)))) /\
    time_to_percent_years P 1 = Ok 0%Z /\
    time_to_percent_years P 3153600000 = Ok 100%Z.
Proof.
  intros P HP.
  split; [reflexivity|]. split; [reflexivity|].
  split; [exact (time_to_percent_years_total P HP)|].
  split.
  { intros s H. unfold time_to_percent_years. rewrite H. reflexivity. }
  split.
  { intros s H1 H2. unfold time_to_percent_years. rewrite H1.
    rewrite (truediv_ok s 31536000 eq_refl). simpl bind.
    unfold PyFloat.geb. rewrite H2. reflexivity. }
  split; [exact (time_to_percent_years_floor P)|].
  split; reflexivity.
Qed.

Lemma time_to_percent_years_domain_witness :
  time_to_percent_years Reference.platform nan = Raise ValueError /\
  human_time nan = Ok infinity_symbol /\
  (forall seconds : float,
     is_nan seconds = false ->
     exists n : Z,
       time_to_percent_years Reference.platform seconds = Ok n /\
       (0 <= n <= 100)%Z) /\
  (forall seconds : float,
     (seconds <=? 1)%float = true ->
     time_to_percent_years Reference.platform seconds = Ok 0%Z) /\
  (forall seconds : float,
     (seconds <=? 1)%float = false ->
     (100 <=? seconds / 31536000)%float = true ->
     time_to_percent_years Reference.platform seconds = Ok 100%Z) /\
  (forall seconds : float,
     (seconds <=? 1)%float = false ->
     (100 <=? seconds / 31536000)%float = false ->
     time_to_percent_years Reference.platform seconds
     = (lg <- math_log10 Reference.platform (seconds / 31536000 + 1)%float ;;
        pct <- floor_int (lg / 2 * 100)%float ;;
        Ok (Z.max 0 (Z.min 100 pct)))) /\
  time_to_percent_years Reference.platform 1 = Ok 0%Z /\
  time_to_percent_years Reference.platform 3153600000 = Ok 100%Z.
Proof.
  apply (time_to_percent_years_domain Reference.platform).
  exact reference_regular.
Defined.

(** ** The length sweep *)

Section Sweep.
Variable P : Platform.
Hypothesis regular : libm_regular P.
Local Open Scope float_scope.
Import FloatOrder FloatSign.

Lemma Prim2SF_nan_inv (x : float) : Prim2SF x = S754_nan -> x = nan.
Proof. intros H. apply Prim2SF_inj. rewrite H. reflexivity. Qed.

Lemma Prim2SF_infinity_inv (x : float) :
  Prim2SF x = S754_infinity false -> x = infinity.
Proof. intros H. apply Prim2SF_inj. rewrite H. reflexivity. Qed.

(** [math.log10] returns on every positive argument. *)
Lemma math_log10_positive (x : float) :
  SFpositive (Prim2SF x) = true -> exists r : float, math_log10 P x = Ok r.
Proof.
  destruct (Prim2SF x) as [s|s| |s m e] eqn:E; simpl; intros H;
    try discriminate.
  - destruct s; [discriminate|].
    rewrite (Prim2SF_infinity_inv x E). eexists. reflexivity.
  - rewrite (Prim2SF_nan_inv x E). eexists. reflexivity.
  - destruct s; [discriminate|].
    assert (Hf : is_finite x = true) by (rewrite is_finite_spec, E; reflexivity).
    assert (Hp : (0 <? x) = true)
      by (rewrite ltb_spec, Prim2SF_zero, E; reflexivity).
    pose proof (FloatRange.mag_le_finite _ _
                  (FloatRange.mag_le_of_bounds _
                     (log_10_bounded P regular x Hf Hp))) as Hr.
    unfold math_log10, math_1, m_log. rewrite Hf, Hp.
    unfold is_finite in Hr. apply negb_true_iff, orb_false_iff in Hr as [H1 H2].
    rewrite H1, H2. simpl. eexists. reflexivity.
Qed.

Lemma pow2_nonneg (w : float) :
  pow_regular P w ->
  exists p : float, pow2 P w = Ok p /\ SFnonneg (Prim2SF p) = true.
Proof.
  intros [Hi Hn]. unfold pow2.
  destruct (w =? 0); [eexists; split; reflexivity|].
  destruct (is_nan w) eqn:En.
  { eexists; split; [reflexivity|]. rewrite is_nan_spec in En.
    destruct (Prim2SF w); try discriminate. reflexivity. }
  destruct (is_infinity w).
  { destruct (0 <? w); eexists; split; reflexivity. }
  rewrite Hi. eexists; split; [reflexivity|].
  apply not_ltb_zero_nonneg, Hn.
Qed.

Lemma classical_time_nonneg (e ops : float) :
  pow_regular P e ->
  exists t : float,
    classical_time_seconds P e ops true = Ok t /\ SFnonneg (Prim2SF t) = true.
Proof.
  intros Hr. destruct (ops <=? 0) eqn:H.
  - unfold classical_time_seconds. rewrite H. eexists; split; reflexivity.
  - rewrite classical_time_unfold by assumption.
    destruct (pow2_nonneg e Hr) as [p [-> Hp]]. simpl.
    eexists; split; [reflexivity|].
    apply div_nonneg; [|reflexivity]. apply div_nonneg; assumption.
Qed.

Lemma grover_time_nonneg (e ops : float) :
  pow_regular P (e / 2) ->
  exists t : float,
    grover_time_seconds P e ops true = Ok t /\ SFnonneg (Prim2SF t) = true.
Proof.
  rewrite grover_is_classical_at_half. apply classical_time_nonneg.
Qed.

Lemma math_log2_lowercase : math_log2 P 26 = Ok (log_2 P 26).
Proof. reflexivity. Qed.

Lemma of_int_lengths (l : Z) :
  In l lengths -> exists lf : float, PyFloat.of_int l = Ok lf.
Proof.
  intros H. simpl in H.
  repeat (destruct H as [<-|H]; [eexists; vm_compute; reflexivity|]).
  contradiction.
Qed.

(** Every row of the sweep over the lowercase pool is computed. *)
Lemma sweep_row_lowercase (c_ops q_ops : float) (l : Z) :
  In l lengths ->
  exists e lc lq : float, sweep_row P 26 c_ops q_ops l = Ok (l, e, lc, lq).
Proof.
  intros Hl. unfold sweep_row. rewrite math_log2_lowercase. simpl.
  destruct (of_int_lengths l Hl) as [lf Elf]. rewrite Elf. simpl.
  destruct (pow_2_sweep P regular l lf Hl Elf) as [Hc Hq].
  destruct (classical_time_nonneg _ c_ops Hc) as [c_t [-> Hct]]. simpl.
  destruct (grover_time_nonneg _ q_ops Hq) as [q_t [-> Hqt]]. simpl.
  destruct (math_log10_positive _ (add_one_positive c_t Hct)) as [lc ->].
  destruct (math_log10_positive _ (add_one_positive q_t Hqt)) as [lq ->].
  simpl. eauto.
Qed.

Lemma mapM_rows (f : Z -> Py row) (ls : list Z) :
  (forall l, In l ls -> exists e lc lq : float, f l = Ok (l, e, lc, lq)) ->
  exists rows : list row,
    mapM f ls = Ok rows /\ map (fun r : row => fst (fst (fst r))) rows = ls.
Proof.
  induction ls as [|l ls IH]; intros H; simpl.
  - exists []. split; reflexivity.
  - destruct (H l (or_introl eq_refl)) as [e [lc [lq ->]]]. simpl.
    destruct IH as [rows [-> Hrows]]; [intros; apply H; right; assumption|].
    simpl. eexists. split; [reflexivity|]. simpl. rewrite Hrows. reflexivity.
Qed.

End Sweep.

(** C10: when the pool of the analysed password is 0 the sweep puts the
    lowercase pool 26 in its place, so [math.log2] is called on 26 and
    returns, and the sweep returns one row for each of the lengths 4 to 32:
    the rows of a lowercase-only password, though the analysed password has
    entropy 0.0. *)
Theorem sweep_with_empty_pool :
  forall (P : Platform) (password : str) (c_ops q_ops : float),
    libm_regular P ->
    effective_pool P password = 0%Z ->
    sweep_pool P password = 26%Z /\
    math_log2 P (sweep_pool P password) = Ok (log_2 P 26) /\
    (exists rows : list row,
       sweep P password c_ops q_ops = Ok rows /\
       map (fun r : row => fst (fst (fst r))) rows = lengths) /\
    (forall other : str,
       effective_pool P other = 26%Z ->
       sweep P other c_ops q_ops = sweep P password c_ops q_ops) /\
    estimate_entropy P password = Ok 0%float.
Proof.
  intros P password c_ops q_ops HP Hpool.
  assert (Hs : sweep_pool P password = 26%Z)
    by (unfold sweep_pool; rewrite Hpool; reflexivity).
  split; [exact Hs|]. unfold sweep. rewrite Hs.
  split; [reflexivity|]. split; [|split].
  - apply mapM_rows. intros l Hl. apply sweep_row_lowercase; assumption.
  - intros other Ho. unfold sweep_pool. rewrite Ho. reflexivity.
  - unfold estimate_entropy. rewrite Hpool. reflexivity.
Qed.

Lemma sweep_with_empty_pool_witness :
  sweep_pool Reference.platform (lit "   ") = 26%Z /\
  math_log2 Reference.platform (sweep_pool Reference.platform (lit "   "))
  = Ok (log_2 Reference.platform 26) /\
  (exists rows : list row,
     sweep Reference.platform (lit "   ") 1e9 1e6 = Ok rows /\
     map (fun r : row => fst (fst (fst r))) rows = lengths) /\
  (forall other : str,
     effective_pool Reference.platform other = 26%Z ->
     sweep Reference.platform other 1e9 1e6
     = sweep Reference.platform (lit "   ") 1e9 1e6) /\
  estimate_entropy Reference.platform (lit "   ") = Ok 0%float.
Proof.
  apply (sweep_with_empty_pool Reference.platform (lit "   ") 1e9 1e6).
  - exact reference_regular.
  - reflexivity.
Defined.

(** ** Further properties *)

(** The average time is half of the worst-case time, for both adversaries:
    whatever [average = False] returns or raises, [average = True] returns
    half of it or raises the same. *)
Theorem average_is_half_of_worst_case :
  forall (P : Platform) (entropy_bits ops : float),
    (ops <=? 0)%float = false ->
    classical_time_seconds P entropy_bits ops true
    = (full <- classical_time_seconds P entropy_bits ops false ;;
       Ok (full / 2)%float) /\
    grover_time_seconds P entropy_bits ops true
    = (full <- grover_time_seconds P entropy_bits ops false ;;
       Ok (full / 2)%float).
Proof.
  intros P e ops H.
  rewrite !classical_time_unfold, !grover_time_unfold by assumption.
  destruct (pow2 P e), (pow2 P (e / 2)%float); split; reflexivity.
Qed.

Lemma average_is_half_of_worst_case_witness :
  classical_time_seconds Reference.platform 0x1.2cccccccccccdp+5 1e9 true
  = (full <- classical_time_seconds Reference.platform
               0x1.2cccccccccccdp+5 1e9 false ;;
     Ok (full / 2)%float) /\
  grover_time_seconds Reference.platform 0x1.2cccccccccccdp+5 1e9 true
  = (full <- grover_time_seconds Reference.platform
               0x1.2cccccccccccdp+5 1e9 false ;;
     Ok (full / 2)%float).
Proof.
  apply (average_is_half_of_worst_case Reference.platform
           0x1.2cccccccccccdp+5 1e9).
  reflexivity.
Defined.

(** The password ["password"] with the default throughputs, on the
    reference C library: 37.6 bits; about 104.16 seconds, shown as
    "1.74 min", for the classical adversary at [1e9] guesses per second;
    about 0.228 seconds, shown as "0.228 s", for the quantum adversary at
    [1e6] operations per second; both safety percentages are 0. *)
Theorem password_scenario :
  estimate_entropy Reference.platform (lit "password")
  = Ok 0x1.2cccccccccccdp+5%float /\
  classical_time_seconds Reference.platform 0x1.2cccccccccccdp+5 1e9 true
  = Ok 0x1.a0a31241acbe1p+6%float /\
  human_time 0x1.a0a31241acbe1p+6 = Ok (lit "1.74 min") /\
  grover_time_seconds Reference.platform 0x1.2cccccccccccdp+5 1e6 true
  = Ok 0x1.d35f8ef0ef698p-3%float /\
  human_time 0x1.d35f8ef0ef698p-3 = Ok (lit "0.228 s") /\
  time_to_percent_years Reference.platform 0x1.a0a31241acbe1p+6 = Ok 0%Z /\
  time_to_percent_years Reference.platform 0x1.d35f8ef0ef698p-3 = Ok 0%Z.
Proof. repeat apply conj; vm_compute; reflexivity. Qed.

(** ** Rounding into the format *)

Module FloatValid.
Import FloatOrder FloatSign FloatRange FloatLower.
Local Open Scope Z_scope.

Lemma Zdigits2_positive (m : Z) : 0 < m -> 1 <= Zdigits2 m.
Proof.
  intros H. rewrite Zdigits2_log2 by assumption.
  pose proof (Z.log2_nonneg m). lia.
Qed.

(** A number rounded from a mantissa that is not negative is a number. *)
Lemma binary_round_aux_number (s : bool) (m e : Z) (l : location) :
  0 <= m -> binary_round_aux prec emax s m e l <> S754_nan.
Proof.
  intros Hm. unfold binary_round_aux.
  destruct (shr_fexp_bounds m e l Hm) as [H1 _].
  destruct (shr_fexp prec emax m e l) as [mrs' e']. cbn [fst snd] in H1.
  pose proof (round_nearest_even_bounds (shr_m mrs') (loc_of_shr_record mrs'))
    as Hr.
  set (m2 := round_nearest_even (shr_m mrs') (loc_of_shr_record mrs')) in *.
  assert (Hm2 : 0 <= m2) by lia.
  destruct (shr_fexp_bounds m2 e' loc_Exact Hm2) as [H4 _].
  destruct (shr_fexp prec emax m2 e' loc_Exact) as [mrs'' e''].
  cbn [fst snd] in H4.
  destruct (shr_m mrs''); try lia; try discriminate.
  destruct (e'' <=? emax - prec); discriminate.
Qed.

(** Rounding a mantissa that has been aligned yields a number in the
    format. *)
Lemma binary_round_aux_valid (s : bool) (m e : Z) (l : location) :
  0 <= m -> e <= fexp prec emax (Zdigits2 m + e) ->
  valid_binary (binary_round_aux prec emax s m e l) = true.
Proof.
  intros Hm He. unfold binary_round_aux.
  destruct (shr_fexp_bounds m e l Hm) as [H1 [H2 H3]].
  pose proof (shr_fexp_mag m e l) as Hmag.
  destruct (shr_fexp prec emax m e l) as [mrs' e']. cbn [fst snd] in *.
  pose proof (round_nearest_even_bounds (shr_m mrs') (loc_of_shr_record mrs'))
    as Hr.
  set (m1 := shr_m mrs') in *.
  set (m2 := round_nearest_even m1 (loc_of_shr_record mrs')) in *.
  assert (Hm2 : 0 <= m2) by lia.
  destruct (shr_fexp_bounds m2 e' loc_Exact Hm2) as [H4 [H5 H6]].
  pose proof (shr_fexp_mag m2 e' loc_Exact) as Hmag2.
  destruct (shr_fexp prec emax m2 e' loc_Exact) as [mrs'' e''].
  cbn [fst snd] in *.
  destruct (shr_m mrs'') as [|m3|m3] eqn:E3; try reflexivity.
  destruct (e'' <=? emax - prec) eqn:Eb; [|reflexivity].
  simpl valid_binary. unfold bounded, canonical_mantissa.
  rewrite Eb, andb_true_r. apply Z.eqb_eq.
  change (Z.pos (digits2_pos m3)) with (Zdigits2 (Z.pos m3)).
  pose proof (Zdigits2_positive (Z.pos m3) eq_refl) as Hd3.
  pose proof (Zdigits2_mono m1 m2 (conj H1 (proj1 Hr))) as Hmono.
  pose proof (Zdigits2_nonneg m) as Hdm.
  destruct (Z.eq_dec m2 0) as [Hz|Hnz].
  - rewrite Hz in H5, H6. simpl Zdigits2 in H5, H6.
    revert H2 H5 H6 He. unfold fexp, SpecFloat.emin, prec, emax. lia.
  - assert (Hp2 : 0 < m2) by lia.
    pose proof (Zdigits2_positive m2 Hp2) as Hd2.
    assert (Habove : emin < Zdigits2 m2 + e')
      by (revert H2; unfold fexp, SpecFloat.emin, prec, emax; lia).
    specialize (Hmag2 Hp2 Habove).
    destruct (Z.eq_dec m 0) as [Hmz|Hmnz].
    + rewrite Hmz in *. simpl Zdigits2 in *.
      revert H2 H5 He Hmag2. unfold fexp, SpecFloat.emin, prec, emax. lia.
    + destruct (Z_lt_le_dec emin (Zdigits2 m + e)) as [Hab|Hbe].
      * assert (Hpm : 0 < m) by lia. specialize (Hmag Hpm Hab).
        revert H2 H5 He Hmag2 Hmag Hmono.
        unfold fexp, SpecFloat.emin, prec, emax. lia.
      * revert H2 H5 He Hmag2 Hbe.
        unfold fexp, SpecFloat.emin, prec, emax. lia.
Qed.

Lemma binary_round_valid (s : bool) (m : positive) (e : Z) :
  valid_binary (binary_round prec emax s m e) = true.
Proof.
  unfold binary_round.
  pose proof (shl_align_log2 m e (fexp prec emax (Z.pos (digits2_pos m) + e)))
    as HL.
  pose proof (shl_align_snd m e (fexp prec emax (Z.pos (digits2_pos m) + e)))
    as HS.
  destruct (shl_align m e _) as [mz ez]. cbn [fst snd] in HL, HS.
  apply binary_round_aux_valid; [lia|].
  rewrite Zdigits2_log2 by lia.
  pose proof (Zdigits2_log2 (Z.pos m) eq_refl) as Hd. simpl Zdigits2 in Hd.
  replace (Z.log2 (Z.pos mz) + 1 + ez) with (Z.pos (digits2_pos m) + e) by lia.
  lia.
Qed.

(** The double nearest to [m * 2^e], for a positive [m] below the overflow
    threshold: what it is as a [spec_float], finite and not negative. *)
Lemma binary_normalize_sound (m e : Z) :
  0 < m -> e <= emax - prec -> Zdigits2 m + e + 1 <= emax ->
  let x := SF2Prim (binary_normalize prec emax m e false) in
  is_finite x = true /\ (x <? 0)%float = false.
Proof.
  intros Hm He Hd x. subst x.
  destruct m as [|p|p]; try lia. cbv [binary_normalize].
  pose proof (binary_round_valid false p e) as V.
  rewrite is_finite_spec, ltb_spec, (Prim2SF_SF2Prim _ V), Prim2SF_zero.
  unfold binary_round in *.
  pose proof (shl_align_log2 p e (fexp prec emax (Z.pos (digits2_pos p) + e)))
    as HL.
  pose proof (shl_align_snd p e (fexp prec emax (Z.pos (digits2_pos p) + e)))
    as HS.
  destruct (shl_align p e _) as [mz ez]. cbn [fst snd] in HL, HS.
  assert (B : SFmag_le emax (binary_round_aux prec emax false (Z.pos mz) ez
                               loc_Exact)).
  { rewrite Zdigits2_log2 in Hd by lia.
    apply binary_round_aux_bounded; try lia;
      try (rewrite Zdigits2_log2 by lia); unfold emax, prec, SpecFloat.emin in *;
      lia. }
  pose proof (binary_round_aux_sign false (Z.pos mz) ez loc_Exact) as S.
  destruct (binary_round_aux prec emax false (Z.pos mz) ez loc_Exact)
    as [s'|s'| |s' m' e']; cbv [SFmag_le] in B; try contradiction;
    subst s'; split; reflexivity.
Qed.

Lemma SFdiv_number (x y : spec_float) :
  match x with S754_zero _ | S754_finite _ _ _ => True | _ => False end ->
  match y with
  | S754_infinity false | S754_finite false _ _ => True
  | _ => False
  end ->
  SFdiv prec emax x y <> S754_nan.
Proof.
  destruct x as [sx|sx| |sx mx ex], y as [sy|sy| |sy my ey]; try contradiction;
    try destruct sy; try contradiction; intros _ _; try discriminate.
  unfold SFdiv, SFdiv_core_binary.
  set (m' := match ex - ey - _ with
             | 0 => Z.pos mx
             | Z.pos _ => Z.shiftl (Z.pos mx) _
             | Z.neg _ => 0
             end).
  assert (Hm' : 0 <= m').
  { unfold m'. destruct (ex - ey - _) as [|p|p]; try lia.
    rewrite Z.shiftl_mul_pow2 by lia.
    assert (0 < 2 ^ Z.pos p) by (apply Z.pow_pos_nonneg; lia). nia. }
  assert (Hq : fst (Z.div_eucl m' (Z.pos my)) = m' / Z.pos my) by reflexivity.
  destruct (Z.div_eucl m' (Z.pos my)) as [q r]. simpl in Hq. subst q.
  apply binary_round_aux_number. apply Z.div_pos; lia.
Qed.

Local Open Scope float_scope.

(** A finite number over a positive one (or over +infinity) is a number. *)
Lemma div_number (a b : float) :
  is_finite a = true -> is_nan b = false -> (b <=? 0) = false ->
  is_nan (a / b) = false.
Proof.
  rewrite is_finite_spec, !is_nan_spec, leb_spec, div_spec, Prim2SF_zero.
  intros Ha Hb Hp.
  pose proof (SFdiv_number (Prim2SF a) (Prim2SF b)) as H.
  destruct (SF64div (Prim2SF a) (Prim2SF b)) eqn:E; try reflexivity.
  exfalso. apply H; [| |exact E].
  - destruct (Prim2SF a); try discriminate; exact I.
  - destruct (Prim2SF b) as [s|s| |s m e]; try discriminate;
      destruct s; try discriminate; exact I.
Qed.

(** Half of a number is a number. *)
Lemma half_number (a : float) : is_nan a = false -> is_nan (a / 2) = false.
Proof.
  rewrite !is_nan_spec, div_spec, Prim2SF_two. intros Ha.
  destruct (Prim2SF a) as [s|s| |s m e] eqn:E; try discriminate;
    try reflexivity.
  pose proof (SFdiv_number (S754_finite s m e)
                (S754_finite false 4503599627370496 (-51)) I I) as H.
  unfold SF64div.
  destruct (SFdiv prec emax _ _); try reflexivity. congruence.
Qed.

End FloatValid.

(** ** The reference C library on the exponents of the page *)

Section ReferenceSound.
Import FloatOrder FloatSign FloatRange FloatValid.
Local Open Scope Z_scope.

Lemma one_positive : 0 < Reference.one.
Proof. reflexivity. Qed.

Lemma LN2_range : 0 <= Reference.LN2 <= Reference.one.
Proof. split; vm_compute; discriminate. Qed.

Lemma fx_mul_range (a b : Z) :
  0 <= a <= Reference.one -> 0 <= b ->
  0 <= Reference.fx_mul a b <= b.
Proof.
  intros Ha Hb. unfold Reference.fx_mul. pose proof one_positive as H1.
  split.
  - apply Z.div_pos; [nia|assumption].
  - apply Z.div_le_upper_bound; [assumption|nia].
Qed.

Lemma exp_series_range (n : nat) (t k : Z) :
  0 <= t <= Reference.one -> 2 <= k ->
  Reference.one <= Reference.exp_series n t k <= 2 * Reference.one.
Proof.
  intros Ht. pose proof one_positive as H1.
  revert k. induction n as [|n IH]; intros k Hk; cbn [Reference.exp_series].
  - lia.
  - specialize (IH (k + 1) ltac:(lia)).
    pose proof (fx_mul_range t (Reference.exp_series n t (k + 1)) Ht
                  ltac:(lia)) as Hm.
    set (x := Reference.fx_mul t (Reference.exp_series n t (k + 1))) in *.
    assert (0 <= x / k) by (apply Z.div_pos; lia).
    assert (x / k <= Reference.one)
      by (apply Z.div_le_upper_bound; [lia|nia]).
    lia.
Qed.

Lemma fx_exp_range (t : Z) :
  0 <= t <= Reference.one ->
  Reference.one <= Reference.fx_exp t <= 3 * Reference.one.
Proof.
  intros Ht. pose proof one_positive as H1.
  unfold Reference.fx_exp.
  change (Reference.exp_series 40 t 1)
    with (Reference.one
          + Reference.fx_mul t (Reference.exp_series 39 t (1 + 1)) / 1).
  pose proof (exp_series_range 39 t (1 + 1) Ht ltac:(lia)) as Hs.
  pose proof (fx_mul_range t _ Ht (Z.le_trans _ _ _ (Z.lt_le_incl _ _ H1)
                                     (proj1 Hs))) as Hm.
  rewrite Z.div_1_r. lia.
Qed.

Lemma Zdigits2_below (v k : Z) : 0 < v -> v < 2 ^ k -> 0 <= k -> Zdigits2 v <= k.
Proof.
  intros Hv Hk H0. rewrite Zdigits2_log2 by assumption.
  apply Z.log2_lt_pow2 in Hk; lia.
Qed.

(** The reference [pow] is sound on every exponent whose integer part is at
    most 1021. *)
Lemma exp2_fits_sound (w : float) :
  exp2_fits w = true -> pow_sound Reference.platform w = true.
Proof.
  unfold pow_sound, exp2_fits.
  change (pow_2 Reference.platform w) with (Reference.exp2 w).
  unfold Reference.exp2.
  destruct (Prim2SF w) as [s|s| |s m e]; try discriminate;
    [intros _; reflexivity|].
  cbv zeta.
  set (num := cond_Zopp s (Z.pos m)).
  set (n := if 0 <=? e then num * 2 ^ e else num / 2 ^ (- e)).
  set (f := if 0 <=? e then 0
            else num mod 2 ^ (- e) * Reference.one / 2 ^ (- e)).
  intros Hn. apply Z.leb_le in Hn.
  destruct (1024 <=? n) eqn:E1; [apply Z.leb_le in E1; lia|].
  destruct (n <? -1080) eqn:E2; [reflexivity|]. apply Z.ltb_ge in E2.
  pose proof one_positive as H1.
  assert (Hf : 0 <= f <= Reference.one).
  { unfold f. destruct (0 <=? e) eqn:Ee; [lia|]. apply Z.leb_gt in Ee.
    assert (Hd : 0 < 2 ^ (- e)) by (apply Z.pow_pos_nonneg; lia).
    pose proof (Z.mod_pos_bound num (2 ^ (- e)) Hd) as Hr.
    split.
    - apply Z.div_pos; [nia|assumption].
    - apply Z.div_le_upper_bound; [assumption|nia]. }
  pose proof (fx_mul_range f Reference.LN2 Hf (proj1 LN2_range)) as Ht.
  pose proof LN2_range as HL.
  pose proof (fx_exp_range (Reference.fx_mul f Reference.LN2) ltac:(lia)) as Hv.
  set (v := Reference.fx_exp (Reference.fx_mul f Reference.LN2)) in *.
  assert (Hd : Zdigits2 v <= 130).
  { apply Zdigits2_below; [lia| |lia].
    change (2 ^ 130) with (4 * Reference.one). lia. }
  unfold Reference.nearest.
  destruct (binary_normalize_sound v (n - Reference.W)) as [Hfin Hneg].
  - lia.
  - unfold Reference.W, emax, prec. lia.
  - unfold Reference.W, emax. lia.
  - cbv zeta in Hfin, Hneg. rewrite Hfin, Hneg. reflexivity.
Qed.

End ReferenceSound.

Section Tables.
Variable P : Platform.

Lemma spec_entropy_at (pool n : Z) (lg : float) :
  math_log2 P pool = Ok lg -> spec_entropy P pool n = entropy_at lg n.
Proof. intros E. unfold spec_entropy, entropy_at. rewrite E. reflexivity. Qed.

Lemma forallb_impl {A : Type} (f g : A -> bool) (xs : list A) :
  (forall x, f x = true -> g x = true) ->
  forallb f xs = true -> forallb g xs = true.
Proof.
  intros H. rewrite !forallb_forall. intros Hf x Hx. apply H, Hf, Hx.
Qed.

Lemma libm_fits_impl (fits fits' : float -> bool) :
  (forall w, fits w = true -> fits' w = true) ->
  libm_fits P fits = true -> libm_fits P fits' = true.
Proof.
  intros H. unfold libm_fits. apply forallb_impl. intros pool.
  destruct (math_log2 P pool) as [lg|]; [|discriminate].
  intros Hp. apply andb_true_iff in Hp as [H1 H2]. apply andb_true_iff. split.
  - revert H1. apply forallb_impl. intros n. unfold entropy_fits.
    destruct (entropy_at lg n) as [e|]; [|discriminate]. intros He.
    apply andb_true_iff in He as [He H3].
    apply andb_true_iff in He as [He H4].
    rewrite He, (H _ H3), (H _ H4). reflexivity.
  - revert H2. apply forallb_impl. intros l. unfold sweep_fits.
    destruct (PyFloat.of_int l) as [lf|]; [|discriminate]. intros He.
    apply andb_true_iff in He as [H3 H4].
    rewrite (H _ H3), (H _ H4). reflexivity.
Qed.

End Tables.

Lemma reference_fits : libm_fits Reference.platform exp2_fits = true.
Proof. vm_compute. reflexivity. Qed.

Lemma reference_sound : libm_sound Reference.platform = true.
Proof.
  exact (libm_fits_impl Reference.platform exp2_fits
           (pow_sound Reference.platform) exp2_fits_sound reference_fits).
Qed.

(** ** Quantum against classical *)

Lemma zero_div_two (e : float) :
  (e =? 0)%float = true -> (e / 2 =? 0)%float = true.
Proof.
  rewrite !eqb_spec, div_spec, FloatOrder.Prim2SF_zero.
  change (Prim2SF 2) with (S754_finite false 4503599627370496 (-51)).
  destruct (Prim2SF e) as [s|s| |s m x]; try discriminate;
    try (destruct s; discriminate).
  intros _. reflexivity.
Qed.

(** C8, refuted as stated: at the entropy [2^-1074] (the least positive
    double, about 4.9e-324 bits) and one operation per second the quantum
    and the classical time are both 0.5 seconds: the quantum time is not
    strictly less. *)
Lemma quantum_time_equals_classical :
  (0 <? 0x1p-1074)%float = true /\
  classical_time_seconds Reference.platform 0x1p-1074 1 true = Ok 0.5%float /\
  grover_time_seconds Reference.platform 0x1p-1074 1 true = Ok 0.5%float.
Proof. repeat apply conj; vm_compute; reflexivity. Qed.

(** *** Rounding that stays in the binade *)

Module FloatTight.
Import FloatOrder FloatSign FloatRange FloatLower FloatValid.
Local Open Scope Z_scope.

(** The mantissa that [shr_fexp] leaves. *)
Lemma shr_fexp_m (m e : Z) (l : location) :
  0 <= m ->
  shr_m (fst (shr_fexp prec emax m e l))
  = m / 2 ^ Z.max 0 (fexp prec emax (Zdigits2 m + e) - e).
Proof.
  intros Hm. unfold shr_fexp, shr.
  destruct (fexp prec emax (Zdigits2 m + e) - e) as [|p|p] eqn:En; simpl fst;
    rewrite ?shr_m_of_loc.
  - simpl. rewrite Z.div_1_r. reflexivity.
  - rewrite shr_m_iter by (rewrite shr_m_of_loc; lia). rewrite shr_m_of_loc.
    rewrite Z.max_r by lia. reflexivity.
  - rewrite Z.max_l by lia. simpl. rewrite Z.div_1_r. reflexivity.
Qed.

Lemma Zdigits2_le (v k : Z) : 0 <= v -> v < 2 ^ k -> 0 <= k -> Zdigits2 v <= k.
Proof.
  intros Hv Hk H0. destruct (Z.eq_dec v 0) as [->|Hn]; [simpl; lia|].
  rewrite Zdigits2_log2 by lia. apply Z.log2_lt_pow2 in Hk; lia.
Qed.

(** Rounding a mantissa of [D] digits whose 53 leading digits are not all
    ones gives, in the normal range, a number below [2^(D+e)]: rounding up
    does not reach the next binade. *)
Lemma binary_round_aux_tight (s : bool) (m e D : Z) (l : location) :
  0 < m -> Zdigits2 m = D -> 53 <= D ->
  emin + 53 <= D + e -> D + e <= emax ->
  m / 2 ^ (D - 53) <= 2 ^ 53 - 2 ->
  SFmag_le (D + e) (binary_round_aux prec emax s m e l).
Proof.
  intros Hm HD H53 Hlo Hhi Htop. unfold binary_round_aux.
  assert (Hm0 : 0 <= m) by lia.
  destruct (shr_fexp_bounds m e l Hm0) as [H1 [H2 H3]].
  pose proof (shr_fexp_m m e l Hm0) as H4.
  destruct (shr_fexp prec emax m e l) as [mrs' e']. cbn [fst snd] in *.
  rewrite HD in *.
  assert (Ef : fexp prec emax (D + e) = D + e - 53)
    by (revert Hlo; unfold fexp, SpecFloat.emin, prec, emax; lia).
  rewrite Ef in *.
  replace (Z.max 0 (D + e - 53 - e)) with (D - 53) in H4 by lia.
  assert (He' : e' = D + e - 53) by lia.
  pose proof (round_nearest_even_bounds (shr_m mrs') (loc_of_shr_record mrs'))
    as Hr.
  set (r := round_nearest_even (shr_m mrs') (loc_of_shr_record mrs')) in *.
  assert (Hr0 : 0 <= r) by lia.
  assert (Hr1 : r < 2 ^ 53) by lia.
  pose proof (Zdigits2_le r 53 Hr0 Hr1 ltac:(lia)) as Hdr.
  destruct (shr_fexp_bounds r e' loc_Exact Hr0) as [H5 [H6 H7]].
  destruct (shr_fexp prec emax r e' loc_Exact) as [mrs'' e'']. cbn [fst snd] in *.
  assert (He'' : e'' = e').
  { rewrite H6. pose proof (Zdigits2_nonneg r).
    revert Hlo Hdr He'. unfold fexp, SpecFloat.emin, prec, emax. lia. }
  destruct (shr_m mrs'') as [|m3|m3] eqn:E3; cbv [SFmag_le]; try exact I;
    [|lia].
  destruct (e'' <=? emax - prec) eqn:Eb.
  - change (Z.pos (digits2_pos m3)) with (Zdigits2 (Z.pos m3)).
    revert H7 Hlo Hdr He' He''. unfold SpecFloat.emin, prec, emax. lia.
  - apply Z.leb_gt in Eb. revert Eb Hhi He' He''. unfold emax, prec. lia.
Qed.

Lemma round_shift_one_even (p : positive) (l : location) :
  let mrs := shr_1 (shr_record_of_loc (Z.pos p~0) l) in
  round_nearest_even (shr_m mrs) (loc_of_shr_record mrs) = Z.pos p.
Proof. destruct l as [|[]]; reflexivity. Qed.

(** Halving a normal number is exact: the mantissa stays and the exponent
    goes down by one. *)
Lemma SFdiv_two_exact (s : bool) (m : positive) (e : Z) :
  Z.pos (digits2_pos m) = 53 -> emin + 2 <= e -> e <= emax - prec ->
  SFdiv prec emax (S754_finite s m e)
    (S754_finite false 4503599627370496 (-51))
  = S754_finite s m (e - 1).
Proof.
  intros Hd Hlo Hhi. unfold SFdiv, SFdiv_core_binary.
  change (Zdigits2 (Z.pos m)) with (Z.pos (digits2_pos m)). rewrite Hd.
  change (Zdigits2 4503599627370496) with 53.
  assert (Ef : fexp prec emax (53 + e - (53 + -51)) = e - 2)
    by (revert Hlo; unfold fexp, SpecFloat.emin, prec, emax; lia).
  rewrite Ef.
  replace (Z.min (e - 2) (e - -51)) with (e - 2) by lia.
  replace (e - -51 - (e - 2)) with 53 by lia.
  assert (Hq : fst (Z.div_eucl (Z.shiftl (Z.pos m) 53) 4503599627370496)
               = Z.pos m~0).
  { change (fst (Z.div_eucl (Z.shiftl (Z.pos m) 53) 4503599627370496))
      with (Z.shiftl (Z.pos m) 53 / 4503599627370496).
    rewrite Z.shiftl_mul_pow2 by lia.
    change (2 ^ 53) with (2 * 4503599627370496).
    rewrite Z.mul_assoc, Z.div_mul by lia. lia. }
  destruct (Z.div_eucl (Z.shiftl (Z.pos m) 53) 4503599627370496) as [q r].
  cbn [fst] in Hq. subst q.
  set (l := new_location 4503599627370496 r).
  unfold binary_round_aux, shr_fexp.
  assert (Hd2 : Zdigits2 (Z.pos m~0) = 54)
    by (cbn [Zdigits2 digits2_pos]; lia).
  rewrite Hd2.
  assert (Ef2 : fexp prec emax (54 + (e - 2)) - (e - 2) = 1)
    by (revert Hlo; unfold fexp, SpecFloat.emin, prec, emax; lia).
  rewrite Ef2. cbn [shr iter_pos].
  rewrite (round_shift_one_even m l).
  change (Zdigits2 (Z.pos m)) with (Z.pos (digits2_pos m)). rewrite Hd.
  assert (Ef3 : fexp prec emax (53 + (e - 2 + 1)) - (e - 2 + 1) = 0)
    by (revert Hlo; unfold fexp, SpecFloat.emin, prec, emax; lia).
  rewrite Ef3. cbn [shr shr_record_of_loc shr_m].
  assert (Eb : (e - 2 + 1 <=? emax - prec) = true)
    by (apply Z.leb_le; lia).
  rewrite Eb, xorb_false_r. f_equal. lia.
Qed.

(** Rounding an even mantissa of 54 digits drops its last digit. *)
Lemma binary_round_aux_even (s : bool) (p : positive) (e : Z) (l : location) :
  Z.pos (digits2_pos p) = 53 -> emin <= e + 1 -> e + 1 <= emax - prec ->
  binary_round_aux prec emax s (Z.pos p~0) e l = S754_finite s p (e + 1).
Proof.
  intros Hd Hlo Hhi. unfold binary_round_aux, shr_fexp.
  assert (Hd2 : Zdigits2 (Z.pos p~0) = 54)
    by (cbn [Zdigits2 digits2_pos]; lia).
  rewrite Hd2.
  assert (Ef2 : fexp prec emax (54 + e) - e = 1)
    by (revert Hlo; unfold fexp, SpecFloat.emin, prec, emax; lia).
  rewrite Ef2. cbn [shr iter_pos].
  rewrite (round_shift_one_even p l).
  change (Zdigits2 (Z.pos p)) with (Z.pos (digits2_pos p)). rewrite Hd.
  assert (Ef3 : fexp prec emax (53 + (e + 1)) - (e + 1) = 0)
    by (revert Hlo; unfold fexp, SpecFloat.emin, prec, emax; lia).
  rewrite Ef3. cbn [shr shr_record_of_loc shr_m].
  assert (Eb : (e + 1 <=? emax - prec) = true) by (apply Z.leb_le; lia).
  rewrite Eb. reflexivity.
Qed.

(** In the normal range a quotient of a number below [2^a] by a number of
    magnitude [b] is below [2^(a-b+1)]: the rounding of the quotient does
    not reach the next binade. *)
Lemma SFdiv_tight (sx sy : bool) (mx my : positive) (ex ey a : Z) :
  Z.pos (digits2_pos mx) <= 53 ->
  Z.pos (digits2_pos mx) + ex <= a ->
  emin + 53 <= a - (Z.pos (digits2_pos my) + ey) ->
  a - (Z.pos (digits2_pos my) + ey) + 1 <= emax ->
  SFmag_le (a - (Z.pos (digits2_pos my) + ey) + 1)
    (SFdiv prec emax (S754_finite sx mx ex) (S754_finite sy my ey)).
Proof.
  intros Hd1 Ha Hlo Hhi.
  destruct (Z_lt_le_dec (Z.pos (digits2_pos mx) + ex) a) as [Hlt|Hge].
  { apply (SFdiv_bounded (a - 1)); cbv [SFmag_le];
      unfold SpecFloat.emin, emax, prec in *; lia. }
  assert (Ea : Z.pos (digits2_pos mx) + ex = a) by lia. clear Ha Hge.
  unfold SFdiv, SFdiv_core_binary.
  set (d1 := Zdigits2 (Z.pos mx)). set (d2 := Zdigits2 (Z.pos my)).
  assert (Hd1' : d1 = Z.pos (digits2_pos mx)) by reflexivity.
  assert (Hd2' : d2 = Z.pos (digits2_pos my)) by reflexivity.
  assert (Hd2p : 1 <= d2) by (rewrite Hd2'; lia).
  assert (Ee : Z.min (fexp prec emax (d1 + ex - (d2 + ey))) (ex - ey)
               = a - (d2 + ey) - 53).
  { revert Hlo. rewrite <- Hd2'. unfold fexp, SpecFloat.emin, prec, emax.
    lia. }
  rewrite Ee.
  set (e' := a - (d2 + ey) - 53).
  assert (Es : ex - ey - e' = 53 - d1 + d2) by (unfold e'; lia).
  rewrite Es.
  destruct (53 - d1 + d2) as [|sp|sp] eqn:Esp; try lia.
  set (m' := Z.shiftl (Z.pos mx) (Z.pos sp)).
  assert (Hm'1 : 0 < m').
  { unfold m'. rewrite Z.shiftl_mul_pow2 by lia.
    assert (0 < 2 ^ Z.pos sp) by (apply Z.pow_pos_nonneg; lia). nia. }
  assert (Hm'2 : Zdigits2 m' = 53 + d2)
    by (unfold m'; rewrite Zdigits2_shiftl by lia; fold d1; lia).
  assert (Hq : fst (Z.div_eucl m' (Z.pos my)) = m' / Z.pos my) by reflexivity.
  destruct (Z.div_eucl m' (Z.pos my)) as [q r]. cbn [fst] in Hq. subst q.
  set (q := m' / Z.pos my).
  set (l := new_location (Z.pos my) r).
  assert (Hq0 : 0 <= q) by (apply Z.div_pos; lia).
  pose proof (Zdigits2_div m' (Z.pos my) Hm'1 eq_refl) as Hdq.
  fold d2 in Hdq. fold q in Hdq. rewrite Hm'2 in Hdq.
  rewrite <- Hd2' in *.
  destruct (Z_le_gt_dec (Zdigits2 q) 53) as [Hs|Hb].
  { apply binary_round_aux_bounded; try assumption;
      unfold e', SpecFloat.emin, emax, prec in *; lia. }
  assert (Hd54 : Zdigits2 q = 54) by lia.
  (* the quotient is at most 2^54 - 2 *)
  assert (Hqtop : q <= 2 ^ 54 - 2).
  { pose proof (Z.mul_div_le m' (Z.pos my) eq_refl) as H1. fold q in H1.
    pose proof (Zdigits2_log2 (Z.pos my) eq_refl) as Hl2. fold d2 in Hl2.
    pose proof (Zdigits2_log2 (Z.pos mx) eq_refl) as Hl1. fold d1 in Hl1.
    pose proof (Z.log2_spec (Z.pos my) eq_refl) as [Hy _].
    pose proof (Z.log2_spec (Z.pos mx) eq_refl) as [_ Hx].
    replace (Z.log2 (Z.pos my)) with (d2 - 1) in Hy by lia.
    replace (Z.succ (Z.log2 (Z.pos mx))) with d1 in Hx by lia.
    assert (HA : 0 < 2 ^ (d2 - 1)) by (apply Z.pow_pos_nonneg; lia).
    assert (HB : 2 <= 2 ^ (54 - d1)).
    { change 2 with (2 ^ 1) at 1. apply Z.pow_le_mono_r; lia. }
    assert (HCB : 2 ^ d1 * 2 ^ (54 - d1) = 2 ^ 54)
      by (rewrite <- Z.pow_add_r by lia; f_equal; lia).
    assert (HS : 2 ^ Z.pos sp = 2 ^ (54 - d1) * 2 ^ (d2 - 1))
      by (rewrite <- Z.pow_add_r by lia; f_equal; lia).
    unfold m' in H1. rewrite Z.shiftl_mul_pow2, HS in H1 by lia.
    set (A := 2 ^ (d2 - 1)) in *. set (B := 2 ^ (54 - d1)) in *.
    set (C := 2 ^ d1) in *.
    assert (H2 : q * A <= (C - 1) * B * A) by nia.
    apply Z.mul_le_mono_pos_r in H2; [|assumption]. nia. }
  destruct q as [|qp|qp] eqn:Eqp; try (simpl in Hd54; lia).
  destruct qp as [qp|qp|].
  - (* odd *)
    replace (a - (d2 + ey) + 1) with (54 + e') by (unfold e'; lia).
    apply binary_round_aux_tight; try assumption;
      try (unfold e', SpecFloat.emin, emax, prec in *; lia).
    change (2 ^ (54 - 53)) with 2.
    assert (Z.pos qp~1 / 2 = Z.pos qp)
      by (rewrite Pos2Z.inj_xI; rewrite Z.mul_comm, Z.div_add_l by lia;
          reflexivity).
    lia.
  - (* even *)
    assert (Hdp : Z.pos (digits2_pos qp) = 53)
      by (cbn [Zdigits2 digits2_pos] in Hd54; lia).
    rewrite (binary_round_aux_even _ qp e' l Hdp)
      by (unfold e', SpecFloat.emin, emax, prec in *; lia).
    cbv [SFmag_le]. unfold e'. lia.
  - simpl in Hd54. lia.
Qed.

End FloatTight.

(** *** The reference [pow] stays in the binade *)

Section ReferenceBinade.
Import FloatOrder FloatSign FloatRange FloatLower FloatValid FloatTight.
Local Open Scope Z_scope.

Lemma fx_mul_mono (a a' b : Z) :
  0 <= a <= a' -> 0 <= b -> Reference.fx_mul a b <= Reference.fx_mul a' b.
Proof.
  intros Ha Hb. unfold Reference.fx_mul.
  apply Z.div_le_mono; [exact one_positive|nia].
Qed.

Lemma exp_series_mono (n : nat) (t t' k : Z) :
  0 <= t <= t' -> 1 <= k ->
  0 <= Reference.exp_series n t k <= Reference.exp_series n t' k.
Proof.
  intros Ht. pose proof one_positive as H1.
  revert k. induction n as [|n IH]; intros k Hk; cbn [Reference.exp_series].
  - lia.
  - specialize (IH (k + 1) ltac:(lia)).
    set (S := Reference.exp_series n t (k + 1)) in *.
    set (S' := Reference.exp_series n t' (k + 1)) in *.
    assert (H0 : 0 <= Reference.fx_mul t S)
      by (unfold Reference.fx_mul; apply Z.div_pos; [nia|lia]).
    assert (H2 : Reference.fx_mul t S <= Reference.fx_mul t' S')
      by (unfold Reference.fx_mul; apply Z.div_le_mono; [lia|nia]).
    assert (0 <= Reference.fx_mul t S / k) by (apply Z.div_pos; lia).
    assert (Reference.fx_mul t S / k <= Reference.fx_mul t' S' / k)
      by (apply Z.div_le_mono; lia).
    lia.
Qed.

Lemma fx_exp_mono (t t' : Z) :
  0 <= t <= t' -> Reference.fx_exp t <= Reference.fx_exp t'.
Proof.
  intros H. unfold Reference.fx_exp. apply exp_series_mono; lia.
Qed.

Lemma top_power :
  Reference.fx_exp (Reference.fx_mul top_fraction Reference.LN2) / 2 ^ 76
  <= 2 ^ 53 - 2.
Proof. vm_compute. discriminate. Qed.

Lemma shl_align_none (m : positive) (e e' : Z) :
  e <= e' -> shl_align m e e' = (m, e).
Proof.
  intros H. unfold shl_align. destruct (e' - e) eqn:E; try reflexivity. lia.
Qed.

(** The reference [pow] lands in the binade of the exact power. *)
Lemma reference_pow_in_binade : pow_in_binade Reference.platform.
Proof.
  intros w m e Hw Hn.
  change (pow_2 Reference.platform w) with (Reference.exp2 w).
  pose proof (Prim2SF_valid w) as V. rewrite Hw in V.
  destruct (valid_finite _ _ _ V) as [Vd Ve].
  unfold Reference.exp2. unfold int_part in *. rewrite Hw in *.
  cbv zeta in *. cbn [cond_Zopp] in *.
  set (n := if 0 <=? e then Z.pos m * 2 ^ e else Z.pos m / 2 ^ (- e)) in *.
  set (f := if 0 <=? e then 0
            else Z.pos m mod 2 ^ (- e) * Reference.one / 2 ^ (- e)).
  destruct (1024 <=? n) eqn:E1; [apply Z.leb_le in E1; lia|].
  destruct (n <? -1080) eqn:E2; [apply Z.ltb_lt in E2; lia|].
  pose proof one_positive as H1.
  (* the fraction has at most 52 digits *)
  assert (Hf : 0 <= f <= top_fraction).
  { unfold f, top_fraction. destruct (0 <=? e) eqn:Ee.
    - change (2 ^ 76) with (Reference.one / 2 ^ 52).
      assert (0 <= Reference.one / 2 ^ 52 <= Reference.one)
        by (split; vm_compute; discriminate).
      split; [lia|]. change (Reference.one / 2 ^ 52) with (2 ^ 76).
      vm_compute. discriminate.
    - apply Z.leb_gt in Ee.
      assert (He : - e <= 52).
      { destruct (Z_le_gt_dec (- e) 52) as [Hle|Hgt]; [exact Hle|exfalso].
        assert (Hm : Z.pos m < 2 ^ 53).
        { pose proof (Zdigits2_log2 (Z.pos m) eq_refl) as Hl.
          simpl Zdigits2 in Hl.
          apply Z.log2_lt_pow2; lia. }
        assert (Hp : 2 ^ 53 <= 2 ^ (- e)) by (apply Z.pow_le_mono_r; lia).
        assert (Hz : Z.pos m / 2 ^ (- e) = 0)
          by (apply Z.div_small; lia).
        unfold n in Hn. lia. }
      assert (Hd : 0 < 2 ^ (- e)) by (apply Z.pow_pos_nonneg; lia).
      pose proof (Z.mod_pos_bound (Z.pos m) (2 ^ (- e)) Hd) as Hr.
      assert (Ho : Reference.one = 2 ^ (128 + e) * 2 ^ (- e)).
      { unfold Reference.one, Reference.W.
        rewrite <- Z.pow_add_r by lia. f_equal. lia. }
      assert (Hg : 2 ^ 76 <= 2 ^ (128 + e)) by (apply Z.pow_le_mono_r; lia).
      assert (0 < 2 ^ (128 + e)) by (apply Z.pow_pos_nonneg; lia).
      set (G := 2 ^ (128 + e)) in *. set (D := 2 ^ (- e)) in *.
      set (r := Z.pos m mod D) in *.
      assert (E : r * Reference.one / D = r * G)
        by (rewrite Ho, Z.mul_assoc, Z.div_mul by lia; reflexivity).
      rewrite E.
      split; [apply Z.mul_nonneg_nonneg; lia|].
      assert (Hrg : r * G <= (D - 1) * G)
        by (apply Z.mul_le_mono_nonneg_r; lia).
      rewrite Ho. replace ((D - 1) * G) with (G * D - G) in Hrg by ring.
      lia. }
  pose proof LN2_range as HL.
  assert (Htop : 0 <= top_fraction <= Reference.one)
    by (split; vm_compute; discriminate).
  pose proof (fx_mul_range f Reference.LN2 ltac:(lia) (proj1 HL)) as Ht.
  pose proof (fx_mul_mono f top_fraction Reference.LN2 Hf (proj1 HL)) as Htm.
  pose proof (fx_exp_range (Reference.fx_mul f Reference.LN2) ltac:(lia))
    as Hv.
  pose proof (fx_exp_mono (Reference.fx_mul f Reference.LN2)
                (Reference.fx_mul top_fraction Reference.LN2)
                ltac:(lia)) as Hmono.
  pose proof top_power as Hp.
  set (v := Reference.fx_exp (Reference.fx_mul f Reference.LN2)) in *.
  set (vtop := Reference.fx_exp (Reference.fx_mul top_fraction Reference.LN2))
    in *.
  assert (Hv76 : v / 2 ^ 76 <= 2 ^ 53 - 2).
  { transitivity (vtop / 2 ^ 76); [|exact Hp].
    apply Z.div_le_mono; [reflexivity|lia]. }
  assert (Hvlt : v < 2 * Reference.one).
  { destruct (Z_lt_le_dec v (2 * Reference.one)) as [Hlt|Hge]; [exact Hlt|].
    exfalso.
    assert (2 * Reference.one / 2 ^ 76 <= v / 2 ^ 76)
      by (apply Z.div_le_mono; [reflexivity|lia]).
    assert (2 * Reference.one / 2 ^ 76 = 2 ^ 53) by reflexivity.
    lia. }
  assert (Hd : Zdigits2 v = 129).
  { rewrite Zdigits2_log2 by lia.
    assert (Z.log2 v = 128); [|lia].
    apply Z.log2_unique; [lia|].
    change (2 ^ 128) with Reference.one.
    change (2 ^ Z.succ 128) with (2 * Reference.one). lia. }
  unfold Reference.nearest.
  destruct v as [|vp|vp] eqn:Ev; try lia.
  cbv [binary_normalize].
  pose proof (binary_round_valid false vp (n - Reference.W)) as Vr.
  rewrite (Prim2SF_SF2Prim _ Vr). unfold binary_round.
  change (Z.pos (digits2_pos vp)) with (Zdigits2 (Z.pos vp)). rewrite Hd.
  rewrite shl_align_none
    by (unfold fexp, Reference.W, SpecFloat.emin, prec, emax; lia).
  split.
  - replace (n + 1) with (Zdigits2 (Z.pos vp) + (n - Reference.W))
      by (rewrite Hd; unfold Reference.W; lia).
    apply binary_round_aux_mag_ge; [lia|].
    rewrite Hd. unfold Reference.W, SpecFloat.emin, prec, emax. lia.
  - replace (n + 1) with (129 + (n - Reference.W))
      by (unfold Reference.W; lia).
    apply (binary_round_aux_tight false (Z.pos vp) (n - Reference.W) 129
             loc_Exact);
      [lia|exact Hd|lia| | |exact Hv76];
      unfold Reference.W, SpecFloat.emin, prec, emax; lia.
Qed.

End ReferenceBinade.

(** *** Strictness from the binades of the two powers *)

Section StrictBinade.
Import FloatOrder FloatSign FloatRange FloatLower FloatValid FloatTight.
Local Open Scope float_scope.

Lemma Prim2SF_three :
  Prim2SF 3 = S754_finite false 6755399441055744 (-51).
Proof. reflexivity. Qed.

Lemma Prim2SF_1024 :
  Prim2SF 1024 = S754_finite false 4503599627370496 (-42).
Proof. reflexivity. Qed.

Lemma Prim2SF_m500 :
  Prim2SF 0x1p-500 = S754_finite false 4503599627370496 (-552).
Proof. reflexivity. Qed.

Lemma Prim2SF_p1000 :
  Prim2SF 0x1p+1000 = S754_finite false 4503599627370496 948.
Proof. reflexivity. Qed.

Lemma normal_digits (s : bool) (m : positive) (e : Z) :
  valid_binary (S754_finite s m e) = true -> (-1074 < e)%Z ->
  Z.pos (digits2_pos m) = 53%Z.
Proof.
  intros V H. destruct (valid_canonical s m e V) as [Hd|He]; [exact Hd|lia].
Qed.

Lemma SFleb_finite (m1 m2 : positive) (e1 e2 : Z) :
  SFleb (S754_finite false m1 e1) (S754_finite false m2 e2) = true ->
  (e1 < e2)%Z \/ (e1 = e2 /\ Z.pos m1 <= Z.pos m2)%Z.
Proof.
  cbv [SFleb SFcompare].
  change (Pos.compare_cont Eq m1 m2) with (Pos.compare m1 m2).
  destruct (Z.compare_spec e1 e2); [|left; assumption|discriminate].
  destruct (Pos.compare_spec m1 m2); try discriminate; intros _; right; lia.
Qed.

Lemma SFltb_finite (m1 m2 : positive) (e1 e2 : Z) :
  SFltb (S754_finite false m1 e1) (S754_finite false m2 e2) = true ->
  (e1 < e2)%Z \/ (e1 = e2 /\ Z.pos m1 < Z.pos m2)%Z.
Proof.
  cbv [SFltb SFcompare].
  change (Pos.compare_cont Eq m1 m2) with (Pos.compare m1 m2).
  destruct (Z.compare_spec e1 e2); [|left; assumption|discriminate].
  destruct (Pos.compare_spec m1 m2); try discriminate; intros _; right; lia.
Qed.

(** A float at least a positive number [c], if finite, is positive and
    not below [c] in exponent and mantissa. *)
Lemma leb_positive (c x : float) (mc : positive) (ec : Z) :
  Prim2SF c = S754_finite false mc ec -> (c <=? x) = true ->
  is_finite x = true ->
  exists (m : positive) (e : Z),
    Prim2SF x = S754_finite false m e /\
    ((ec < e)%Z \/ (ec = e /\ Z.pos mc <= Z.pos m)%Z).
Proof.
  intros Hc. rewrite leb_spec, is_finite_spec, Hc.
  destruct (Prim2SF x) as [s|s| |s m e]; intros H F;
    try discriminate F; try discriminate H.
  destruct s; [discriminate H|]. exists m, e.
  split; [reflexivity|]. apply SFleb_finite, H.
Qed.

Lemma ltb_positive (c x : float) (mc m : positive) (ec e : Z) :
  Prim2SF c = S754_finite false mc ec ->
  Prim2SF x = S754_finite false m e -> (x <? c) = true ->
  (e < ec)%Z \/ (e = ec /\ Z.pos m < Z.pos mc)%Z.
Proof.
  intros Hc Hx. rewrite ltb_spec, Hc, Hx. apply SFltb_finite.
Qed.

(** A float below a finite number is finite or negative. *)
Lemma ltb_leb_finite (lo x hi : float) (ml mh : positive) (el eh : Z) :
  Prim2SF lo = S754_finite false ml el ->
  Prim2SF hi = S754_finite false mh eh ->
  (lo <=? x) = true -> (x <? hi) = true -> is_finite x = true.
Proof.
  intros Hl Hh. rewrite leb_spec, ltb_spec, is_finite_spec, Hl, Hh.
  destruct (Prim2SF x) as [s|s| |s m e]; try reflexivity; intros H1 H2;
    try discriminate H1; destruct s; try discriminate H1; discriminate H2.
Qed.

Lemma int_part_finite (w : float) (m : positive) (e : Z) :
  Prim2SF w = S754_finite false m e -> (e < 0)%Z ->
  int_part w = (Z.pos m / 2 ^ (- e))%Z.
Proof.
  intros E He. unfold int_part. rewrite E. cbn [cond_Zopp].
  destruct (0 <=? e)%Z eqn:E0; [apply Z.leb_le in E0; lia|reflexivity].
Qed.

(** Halving a normal float is exact. *)
Lemma half_float (x : float) (s : bool) (m : positive) (e : Z) :
  Prim2SF x = S754_finite s m e -> Z.pos (digits2_pos m) = 53%Z ->
  (emin + 2 <= e)%Z ->
  Prim2SF (x / 2) = S754_finite s m (e - 1).
Proof.
  intros E Hd He. pose proof (Prim2SF_valid x) as V. rewrite E in V.
  destruct (valid_finite _ _ _ V) as [_ Ve].
  rewrite div_spec, E, Prim2SF_two. apply SFdiv_two_exact; assumption.
Qed.

Lemma digits_53 (m : positive) :
  Z.pos (digits2_pos m) = 53%Z ->
  (4503599627370496 <= Z.pos m < 9007199254740992)%Z.
Proof.
  intros Hd. pose proof (Zdigits2_log2 (Z.pos m) eq_refl) as Hl.
  simpl Zdigits2 in Hl.
  pose proof (Z.log2_spec (Z.pos m) eq_refl) as Hs.
  replace (Z.log2 (Z.pos m)) with 52%Z in Hs by lia.
  change (2 ^ 52)%Z with 4503599627370496%Z in Hs.
  change (2 ^ Z.succ 52)%Z with 9007199254740992%Z in Hs. exact Hs.
Qed.

(** An entropy from 3 bits to below 1024 bits, and its half: the integer
    part [n] of the entropy is from 3 to 1023, the half is the same mantissa
    one exponent lower, and its integer part is [n / 2]. *)
Lemma entropy_range (e : float) :
  (3 <=? e) = true -> (e <? 1024) = true ->
  exists (m : positive) (ex : Z),
    Prim2SF e = S754_finite false m ex /\
    Prim2SF (e / 2) = S754_finite false m (ex - 1) /\
    (3 <= int_part e <= 1023)%Z /\
    int_part (e / 2) = (int_part e / 2)%Z.
Proof.
  intros H3 H1024.
  pose proof (ltb_leb_finite 3 e 1024 _ _ _ _ Prim2SF_three Prim2SF_1024
                H3 H1024) as Hf.
  destruct (leb_positive 3 e _ _ Prim2SF_three H3 Hf) as [m [ex [E Hlo]]].
  pose proof (ltb_positive 1024 e _ _ _ _ Prim2SF_1024 E H1024) as Hhi.
  pose proof (Prim2SF_valid e) as V. rewrite E in V.
  assert (Hd : Z.pos (digits2_pos m) = 53%Z)
    by (apply (normal_digits false m ex V); lia).
  pose proof (digits_53 m Hd) as Hm.
  assert (Eh : Prim2SF (e / 2) = S754_finite false m (ex - 1))
    by (apply half_float; [exact E|exact Hd|unfold SpecFloat.emin, emax, prec; lia]).
  exists m, ex. split; [exact E|]. split; [exact Eh|].
  rewrite (int_part_finite e m ex E) by lia.
  rewrite (int_part_finite (e / 2) m (ex - 1) Eh) by lia.
  set (k := (- ex)%Z).
  replace (- (ex - 1))%Z with (k + 1)%Z by (unfold k; lia).
  assert (Hk : (43 <= k <= 51)%Z) by (unfold k; lia).
  assert (Hp : (0 < 2 ^ k)%Z) by (apply Z.pow_pos_nonneg; lia).
  assert (Hp43 : (2 ^ 43 <= 2 ^ k)%Z) by (apply Z.pow_le_mono_r; lia).
  change (2 ^ 43)%Z with 8796093022208%Z in Hp43.
  assert (Hn3 : (3 <= Z.pos m / 2 ^ k)%Z).
  { apply Z.div_le_lower_bound; [exact Hp|].
    destruct Hlo as [Hlo|[Hlo Hlm]].
    - assert (k <= 50)%Z by (unfold k; lia).
      assert (2 ^ k <= 2 ^ 50)%Z by (apply Z.pow_le_mono_r; lia).
      change (2 ^ 50)%Z with 1125899906842624%Z in *. lia.
    - assert (Ek : k = 51%Z) by (unfold k; lia). rewrite Ek.
      change (2 ^ 51)%Z with 2251799813685248%Z. lia. }
  assert (Hn1023 : (Z.pos m / 2 ^ k <= 1023)%Z).
  { assert (Z.pos m / 2 ^ k < 1024)%Z; [|lia].
    apply Z.div_lt_upper_bound; [exact Hp|]. lia. }
  split; [lia|].
  rewrite Z.pow_add_r, Z.pow_1_r by lia.
  rewrite <- Z.div_div by lia. reflexivity.
Qed.

(** A throughput from [2^-500] to below [2^1000]: its magnitude. *)
Lemma ops_range (ops : float) :
  (0x1p-500 <=? ops) = true -> (ops <? 0x1p+1000) = true ->
  exists (m : positive) (eo : Z),
    Prim2SF ops = S754_finite false m eo /\
    (-499 <= Z.pos (digits2_pos m) + eo <= 1000)%Z.
Proof.
  intros H1 H2.
  pose proof (ltb_leb_finite 0x1p-500 ops 0x1p+1000 _ _ _ _ Prim2SF_m500
                Prim2SF_p1000 H1 H2) as Hf.
  destruct (leb_positive 0x1p-500 ops _ _ Prim2SF_m500 H1 Hf)
    as [m [eo [E Hlo]]].
  pose proof (ltb_positive 0x1p+1000 ops _ _ _ _ Prim2SF_p1000 E H2) as Hhi.
  pose proof (Prim2SF_valid ops) as V. rewrite E in V.
  assert (Hd : Z.pos (digits2_pos m) = 53%Z)
    by (apply (normal_digits false m eo V); lia).
  exists m, eo. split; [exact E|].
  pose proof (digits_53 m Hd) as Hm. lia.
Qed.

Lemma finite_positive_flags (w : float) (m : positive) (e : Z) :
  Prim2SF w = S754_finite false m e ->
  (w =? 0) = false /\ is_nan w = false /\ is_infinity w = false.
Proof.
  intros E. rewrite eqb_spec, is_nan_spec, is_infinity_spec, E, Prim2SF_zero.
  repeat split; reflexivity.
Qed.

(** Under the binade law [2 ** w] returns the C library's power, in the
    binade of [2^(int_part w)]. *)
Lemma pow2_in_binade (P : Platform) (w : float) (m : positive) (e : Z) :
  pow_in_binade P ->
  Prim2SF w = S754_finite false m e -> (1 <= int_part w <= 1023)%Z ->
  exists (p : float) (mp : positive) (ep : Z),
    pow2 P w = Ok p /\ Prim2SF p = S754_finite false mp ep /\
    (Z.pos (digits2_pos mp) + ep = int_part w + 1)%Z.
Proof.
  intros Law E Hn. destruct (Law w m e E Hn) as [Hge Hle].
  destruct (exact_mag _ _ Hge Hle) as [mp [ep [Ep Hk]]].
  destruct (finite_positive_flags w m e E) as [F0 [F1 F2]].
  exists (pow_2 P w), mp, ep. split; [|split; [exact Ep|exact Hk]].
  unfold pow2. rewrite F0, F1, F2. cbv zeta.
  rewrite is_infinity_spec, Ep. reflexivity.
Qed.

(** Halving keeps +infinity, and lowers the magnitude of a normal positive
    float by exactly one. *)
Lemma half_mag_ge (k : Z) (v : float) :
  SFmag_ge k (Prim2SF v) -> (-1019 <= k)%Z ->
  SFmag_ge (k - 1) (Prim2SF (v / 2)).
Proof.
  intros H Hk. pose proof (Prim2SF_valid v) as V. revert H V.
  destruct (Prim2SF v) as [s|s| |s m e] eqn:E; cbv [SFmag_ge];
    try contradiction; destruct s; try contradiction; intros H V.
  - rewrite div_spec, E, Prim2SF_two. exact I.
  - destruct (valid_finite _ _ _ V) as [Vd _].
    assert (Hd : Z.pos (digits2_pos m) = 53%Z)
      by (apply (normal_digits false m e V); lia).
    rewrite (half_float v false m e E Hd)
      by (unfold SpecFloat.emin, emax, prec; lia).
    lia.
Qed.

(** From 3 bits up to the overflow of [2 ** entropy_bits], and for a
    throughput from [2^-500] to below [2^1000] operations per second, the
    quantum time is strictly less than the classical time, on every C
    library whose [pow] lands in the binade of the exact power. *)
Lemma quantum_strictly_less (P : Platform) (e ops : float) (average : bool) :
  pow_in_binade P ->
  (3 <=? e) = true -> (e <? 1024) = true ->
  (0x1p-500 <=? ops) = true -> (ops <? 0x1p+1000) = true ->
  exists tq tc : float,
    grover_time_seconds P e ops average = Ok tq /\
    classical_time_seconds P e ops average = Ok tc /\
    (tq <? tc) = true.
Proof.
  intros Law H3 H1024 Ho1 Ho2.
  destruct (entropy_range e H3 H1024) as [m [ex [E [Eh [Hn Hh]]]]].
  destruct (ops_range ops Ho1 Ho2) as [mo [eo [Eo Hko]]].
  pose proof (positive_not_leb_zero ops mo eo Eo) as Hops.
  assert (Hn1 : (1 <= int_part e <= 1023)%Z) by lia.
  assert (Hn2 : (1 <= int_part (e / 2) <= 1023)%Z)
    by (rewrite Hh; clear - Hn; Z.div_mod_to_equations; lia).
  destruct (pow2_in_binade P e m ex Law E Hn1)
    as [pc [mc [ec [Hpc [Ec Hkc]]]]].
  destruct (pow2_in_binade P (e / 2) m (ex - 1) Law Eh Hn2)
    as [pq [mq [eq [Hpq [Eq Hkq]]]]].
  rewrite grover_time_unfold, classical_time_unfold by assumption.
  rewrite Hpq, Hpc. simpl bind.
  eexists _, _. split; [reflexivity|]. split; [reflexivity|].
  rewrite Hh in Hkq. clear Hh Hn1 Hn2.
  assert (Hh : (1 <= int_part e / 2 <= 511 /\
                int_part e / 2 + 2 <= int_part e)%Z)
    by (clear - Hn; Z.div_mod_to_equations; lia).
  remember (int_part e) as n eqn:En. remember (n / 2)%Z as h eqn:Eh2.
  remember (Z.pos (digits2_pos mo) + eo)%Z as ko eqn:Eko.
  pose proof (Prim2SF_valid pq) as Vq. rewrite Eq in Vq.
  destruct (valid_finite _ _ _ Vq) as [Vqd _].
  assert (Uq : SFmag_le (h + 1 - ko + 1) (Prim2SF (pq / ops))).
  { rewrite div_spec, Eq, Eo.
    rewrite Eko.
    apply (SFdiv_tight false false mq mo eq eo (h + 1));
      [exact Vqd|lia| |]; rewrite <- Eko;
      unfold SpecFloat.emin, emax, prec; lia. }
  assert (Lc : SFmag_ge (n + 1 - ko) (Prim2SF (pc / ops))).
  { rewrite Eko. apply (div_mag_ge (n + 1) pc ops mo eo Eo).
    - rewrite Ec. cbv [SFmag_ge]. lia.
    - rewrite <- Eko. unfold SpecFloat.emin, emax, prec; lia. }
  destruct average.
  - apply (mag_lt_ltb (h + 1 - ko) (n + 1 - ko - 1)); [| |lia].
    + revert Uq. rewrite (div_spec (pq / ops) 2), Prim2SF_two.
      pose proof (Prim2SF_valid (pq / ops)) as Vu.
      destruct (Prim2SF (pq / ops)) as [s|s| |s mu eu]; cbv [SFmag_le];
        try contradiction; intros Uq; [exact I|].
      destruct (valid_finite _ _ _ Vu) as [Vud _].
      replace (h + 1 - ko)%Z with (h + 1 - ko + 1 - (53 + -51) + 1)%Z
        by lia.
      apply (SFdiv_tight s false mu 4503599627370496 eu (-51)
               (h + 1 - ko + 1));
        [exact Vud|exact Uq| |];
        change (Z.pos (digits2_pos 4503599627370496)) with 53%Z;
        unfold SpecFloat.emin, emax, prec; lia.
    + apply half_mag_ge; [exact Lc|lia].
  - apply (mag_lt_ltb (h + 1 - ko + 1) (n + 1 - ko));
      [exact Uq|exact Lc|lia].
Qed.

End StrictBinade.

(** C8, as amended: for equal entropy, throughput and [average] setting the
    quantum crack time is the classical crack time at half the entropy, and
    the two are equal when the entropy is zero.  The quantum time is
    strictly less than the classical time for every entropy from 3 bits to
    below 1024 bits and every throughput from [2^-500] to below [2^1000]
    operations per second, on every C library whose [pow] lands in the
    binade of the exact power.  It is not strictly less for every positive
    entropy. *)
Theorem quantum_versus_classical :
  forall (P : Platform) (entropy_bits ops : float) (average : bool),
    grover_time_seconds P entropy_bits ops average
    = classical_time_seconds P (entropy_bits / 2)%float ops average /\
    ((entropy_bits =? 0)%float = true ->
     grover_time_seconds P entropy_bits ops average
     = classical_time_seconds P entropy_bits ops average) /\
    (pow_in_binade P ->
     (3 <=? entropy_bits)%float = true ->
     (entropy_bits <? 1024)%float = true ->
     (0x1p-500 <=? ops)%float = true -> (ops <? 0x1p+1000)%float = true ->
     exists tq tc : float,
       grover_time_seconds P entropy_bits ops average = Ok tq /\
       classical_time_seconds P entropy_bits ops average = Ok tc /\
       (tq <? tc)%float = true).
Proof.
  intros P e ops avg. split; [apply grover_is_classical_at_half|]. split.
  - intros H. rewrite grover_is_classical_at_half.
    unfold classical_time_seconds, pow2.
    rewrite H, (zero_div_two e H). reflexivity.
  - apply quantum_strictly_less.
Qed.

(** One lowercase letter (4.7 bits) at [1e9] operations per second, on the
    reference C library. *)
Lemma quantum_versus_classical_witness :
  exists tq tc : float,
    grover_time_seconds Reference.platform 0x1.2cccccccccccdp+2 1e9 true
    = Ok tq /\
    classical_time_seconds Reference.platform 0x1.2cccccccccccdp+2 1e9 true
    = Ok tc /\
    (tq <? tc)%float = true.
Proof.
  apply (proj2 (proj2 (quantum_versus_classical Reference.platform
                         0x1.2cccccccccccdp+2 1e9 true))
           reference_pow_in_binade); reflexivity.
Defined.

(** ** The pool of a password, again *)

Section PoolFacts.
Variable P : Platform.

Lemma effective_pool_cases (password : str) :
  effective_pool P password = 0%Z \/ In (effective_pool P password) pools.
Proof.
  unfold effective_pool.
  destruct (existsb (islower P) password), (existsb (isupper P) password),
    (existsb (isdigit P) password), (existsb in_punctuation password);
    simpl; tauto.
Qed.

Lemma sweep_pool_in (password : str) : In (sweep_pool P password) pools.
Proof.
  unfold sweep_pool.
  destruct (effective_pool_cases password) as [->|H]; [simpl; tauto|].
  destruct (effective_pool P password =? 0)%Z eqn:E; [simpl; tauto|exact H].
Qed.

Lemma existsb_same_class (a : char) (password : str) :
  existsb (same_class P a) password
  = islower P a && existsb (islower P) password
    || isupper P a && existsb (isupper P) password
    || isdigit P a && existsb (isdigit P) password
    || in_punctuation a && existsb in_punctuation password.
Proof.
  induction password as [|c rest IH]; simpl.
  - rewrite !andb_false_r. reflexivity.
  - rewrite IH. unfold same_class.
    destruct (islower P a), (isupper P a), (isdigit P a), (in_punctuation a);
      simpl; rewrite ?orb_false_r, ?orb_true_r;
      destruct (islower P c), (isupper P c), (isdigit P c), (in_punctuation c);
      simpl; rewrite ?orb_true_r; try reflexivity;
      destruct (existsb (islower P) rest), (existsb (isupper P) rest),
        (existsb (isdigit P) rest), (existsb in_punctuation rest); reflexivity.
Qed.

Lemma existsb_Permutation {A : Type} (f : A -> bool) (xs ys : list A) :
  Permutation xs ys -> existsb f xs = existsb f ys.
Proof.
  induction 1 as [|x xs ys _ IH|x y xs|xs ys zs _ IH1 _ IH2]; simpl.
  - reflexivity.
  - rewrite IH. reflexivity.
  - destruct (f x), (f y); reflexivity.
  - congruence.
Qed.

End PoolFacts.

(** The pool is the number of characters of the alphabet of the generator
    that share a class with a character of the password. *)
Theorem pool_counts_alphabet :
  forall (P : Platform) (password : str),
    effective_pool P password
    = len (filter (fun a => existsb (same_class P a) password) alphabet).
Proof.
  intros P password.
  rewrite (filter_ext _ _ (fun a => existsb_same_class P a password)).
  unfold effective_pool.
  destruct (existsb (islower P) password), (existsb (isupper P) password),
    (existsb (isdigit P) password), (existsb in_punctuation password);
    vm_compute; reflexivity.
Qed.

(** The pool depends on the classes that occur, not on the order of the
    characters nor on their number. *)
Theorem pool_of_classes :
  forall (P : Platform) (password other : str),
    (Permutation password other ->
     effective_pool P password = effective_pool P other /\
     estimate_entropy P password = estimate_entropy P other) /\
    effective_pool P (password ++ password) = effective_pool P password /\
    (effective_pool P password <= effective_pool P (password ++ other))%Z /\
    (effective_pool P (password ++ other)
     <= effective_pool P password + effective_pool P other)%Z.
Proof.
  intros P password other.
  split; [|split; [|split]].
  - intros H.
    assert (E : effective_pool P password = effective_pool P other).
    { unfold effective_pool.
      rewrite !(existsb_Permutation _ password other H). reflexivity. }
    split; [exact E|]. unfold estimate_entropy, len.
    rewrite E, (Permutation_length H). reflexivity.
  - unfold effective_pool. rewrite !existsb_app.
    destruct (existsb (islower P) password), (existsb (isupper P) password),
      (existsb (isdigit P) password), (existsb in_punctuation password);
      reflexivity.
  - unfold effective_pool. rewrite !existsb_app.
    destruct (existsb (islower P) password), (existsb (isupper P) password),
      (existsb (isdigit P) password), (existsb in_punctuation password),
      (existsb (islower P) other), (existsb (isupper P) other),
      (existsb (isdigit P) other), (existsb in_punctuation other);
      simpl; lia.
  - unfold effective_pool. rewrite !existsb_app.
    destruct (existsb (islower P) password), (existsb (isupper P) password),
      (existsb (isdigit P) password), (existsb in_punctuation password),
      (existsb (islower P) other), (existsb (isupper P) other),
      (existsb (isdigit P) other), (existsb in_punctuation other);
      simpl; lia.
Qed.

(** ** The generator *)

Lemma alphabet_length : List.length alphabet = 94%nat.
Proof. reflexivity. Qed.

Lemma choice_alphabet (r : N) : In (choice alphabet r) alphabet.
Proof.
  unfold choice. apply nth_In. rewrite alphabet_length.
  change (N.of_nat 94) with 94%N.
  pose proof (N.mod_lt r 94 ltac:(discriminate)). lia.
Qed.

Lemma choice_index (i : nat) :
  (i < 94)%nat -> choice alphabet (N.of_nat i) = nth i alphabet 0%N.
Proof.
  intros H. unfold choice. rewrite alphabet_length.
  change (N.of_nat 94) with 94%N.
  rewrite N.mod_small by lia. rewrite Nat2N.id. reflexivity.
Qed.

Lemma generate_length (gen_len : Z) (random : nat -> N) :
  len (generate gen_len random) = Z.max 0 gen_len.
Proof. unfold len, generate. rewrite length_map, length_seq. lia. Qed.

Lemma generate_alphabet (gen_len : Z) (random : nat -> N) :
  Forall (fun c => In c alphabet) (generate gen_len random).
Proof.
  unfold generate. apply Forall_forall. intros c Hc.
  apply in_map_iff in Hc as [i [<- _]]. apply choice_alphabet.
Qed.

Lemma generate_cons (n : nat) (random : nat -> N) :
  generate (Z.of_nat (S n)) random
  = choice alphabet (random O)
    :: generate (Z.of_nat n) (fun i => random (S i)).
Proof.
  unfold generate. rewrite !Nat2Z.id. cbn [seq map]. f_equal.
  rewrite <- seq_shift, map_map. reflexivity.
Qed.

Lemma generate_onto (password : str) :
  Forall (fun c => In c alphabet) password ->
  exists random : nat -> N, generate (len password) random = password.
Proof.
  induction 1 as [|c rest Hc _ [random IH]].
  - exists (fun _ => 0%N). reflexivity.
  - destruct (In_nth alphabet c 0%N Hc) as [i [Hi E]].
    rewrite alphabet_length in Hi.
    exists (fun k => match k with O => N.of_nat i | S k' => random k' end).
    unfold len in *. cbn [List.length]. rewrite generate_cons.
    rewrite (choice_index i Hi), E. f_equal. exact IH.
Qed.

(** The characters of the alphabet are ASCII, and each has a class. *)
Lemma alphabet_ascii (c : char) : In c alphabet -> (c <? 256)%N = true.
Proof.
  revert c. apply forallb_forall. reflexivity.
Qed.

Lemma ascii_classes (P Q : Platform) (c : char) :
  (c <? 256)%N = true ->
  islower P c = islower Q c /\ isupper P c = isupper Q c /\
  isdigit P c = isdigit Q c.
Proof.
  intros H. unfold islower, isupper, isdigit. rewrite H.
  repeat split; reflexivity.
Qed.

Lemma existsb_ext_Forall {A : Type} (f g : A -> bool) (xs : list A) :
  Forall (fun x => f x = g x) xs -> existsb f xs = existsb g xs.
Proof.
  induction 1 as [|x xs Hx _ IH]; simpl; [reflexivity|].
  rewrite Hx, IH. reflexivity.
Qed.

(** The pool of a password over the alphabet does not depend on the Unicode
    tables. *)
Lemma alphabet_pool_platform (P Q : Platform) (password : str) :
  Forall (fun c => In c alphabet) password ->
  effective_pool P password = effective_pool Q password.
Proof.
  intros H. unfold effective_pool.
  rewrite (existsb_ext_Forall (islower P) (islower Q)),
    (existsb_ext_Forall (isupper P) (isupper Q)),
    (existsb_ext_Forall (isdigit P) (isdigit Q)); [reflexivity| | |];
    (eapply Forall_impl; [|exact H]); intros c Hc;
    apply (ascii_classes P Q c (alphabet_ascii c Hc)).
Qed.

Lemma alphabet_classified (c : char) :
  In c alphabet ->
  islower Reference.platform c || isupper Reference.platform c
  || isdigit Reference.platform c || in_punctuation c = true.
Proof. revert c. apply forallb_forall. vm_compute. reflexivity. Qed.

(** A password over the alphabet that is not empty has a class. *)
Lemma alphabet_pool (P : Platform) (password : str) :
  password <> [] -> Forall (fun c => In c alphabet) password ->
  In (effective_pool P password) pools.
Proof.
  intros Hne H.
  rewrite (alphabet_pool_platform P Reference.platform password H).
  destruct (effective_pool_cases Reference.platform password) as [E|E];
    [|exact E].
  exfalso. destruct H as [|c rest Hc _]; [contradiction|].
  pose proof (alphabet_classified c Hc) as Hk.
  revert E. unfold effective_pool. cbn [existsb].
  destruct (islower Reference.platform c), (isupper Reference.platform c),
    (isdigit Reference.platform c), (in_punctuation c);
    try discriminate Hk; cbn [orb];
    destruct (existsb (islower Reference.platform) rest),
      (existsb (isupper Reference.platform) rest),
      (existsb (isdigit Reference.platform) rest),
      (existsb in_punctuation rest); discriminate.
Qed.

(** The passwords that the generator yields at a length are the strings of
    that many characters over the alphabet, all of them; such a password,
    unless it is empty, has one of the eleven pools, whatever the Unicode
    tables. *)
Theorem generate_spec :
  forall (gen_len : Z) (password : str),
    ((exists random : nat -> N, generate gen_len random = password)
     <-> len password = Z.max 0 gen_len /\
         Forall (fun c => In c alphabet) password) /\
    (forall (random : nat -> N) (P : Platform),
       (1 <= gen_len)%Z ->
       In (effective_pool P (generate gen_len random)) pools).
Proof.
  intros gen_len password. split; [split|].
  - intros [random <-]. split;
      [apply generate_length|apply generate_alphabet].
  - intros [Hl Ha]. destruct (generate_onto password Ha) as [random E].
    exists random. transitivity (generate (len password) random); [|exact E].
    unfold generate. rewrite Hl. f_equal. f_equal. lia.
  - intros random P Hn. apply alphabet_pool; [|apply generate_alphabet].
    intros E. pose proof (generate_length gen_len random) as Hl.
    rewrite E in Hl. unfold len in Hl. simpl in Hl. lia.
Qed.

(** ** The script *)

Section ScriptFacts.
Variable P : Platform.

Lemma generated_ok (w : widgets) :
  in_bounds w -> stored_ok (Some (generate (gen_len w) (random w))).
Proof.
  intros Hb. unfold in_bounds in Hb. unfold stored_ok.
  destruct (generate (gen_len w) (random w)) as [|c rest] eqn:E; [exact I|].
  rewrite <- E. split; [rewrite generate_length; lia|apply generate_alphabet].
Qed.

Lemma script_keeps (state : session_state) (w : widgets) :
  stored_ok state -> in_bounds w ->
  stored_ok (state_after (script P state w)).
Proof.
  intros Hs Hb. unfold script.
  destruct (button w); [exact (generated_ok w Hb)|].
  destruct state as [[|c rest]|]; cbn [state_after]; try exact I.
  destruct (analysis P (c :: rest) (c_ops w) (q_ops w)); exact Hs.
Qed.

Lemma reachable_ok (state : session_state) :
  reachable P state -> stored_ok state.
Proof.
  induction 1 as [|state w _ IH Hb]; [exact I|].
  apply script_keeps; assumption.
Qed.

End ScriptFacts.

(** ** The analysis of a generated password *)

Section AnalysisFacts.
Variable P : Platform.
Hypothesis regular : libm_regular P.
Hypothesis sound : libm_sound P = true.
Local Open Scope float_scope.
Import FloatOrder FloatSign FloatRange FloatValid.

Lemma pow_sound_regular (w : float) :
  pow_sound P w = true -> pow_regular P w.
Proof.
  unfold pow_sound, pow_regular, is_finite. intros H.
  apply andb_true_iff in H as [H1 H2].
  apply negb_true_iff, orb_false_iff in H1 as [_ H1].
  apply negb_true_iff in H2. split; assumption.
Qed.

Lemma pow2_finite (w : float) :
  is_finite w = true -> pow_sound P w = true ->
  exists p : float, pow2 P w = Ok p /\ is_finite p = true.
Proof.
  unfold pow_sound, pow2. intros Hw H.
  apply andb_true_iff in H as [H1 _].
  destruct (w =? 0); [eexists; split; reflexivity|].
  unfold is_finite in Hw.
  apply negb_true_iff, orb_false_iff in Hw as [-> ->].
  pose proof H1 as H2. unfold is_finite in H2.
  apply negb_true_iff, orb_false_iff in H2 as [_ ->].
  eexists; split; [reflexivity|exact H1].
Qed.

(** An average crack time over a finite exponent, with a throughput that is
    a number, is a number. *)
Lemma classical_time_number (e ops : float) :
  is_finite e = true -> pow_sound P e = true -> is_nan ops = false ->
  exists t : float,
    classical_time_seconds P e ops true = Ok t /\ is_nan t = false.
Proof.
  intros He Hs Hn. destruct (ops <=? 0) eqn:H.
  - unfold classical_time_seconds. rewrite H. eexists; split; reflexivity.
  - rewrite classical_time_unfold by assumption.
    destruct (pow2_finite e He Hs) as [p [-> Hp]]. simpl.
    eexists; split; [reflexivity|].
    apply half_number, div_number; assumption.
Qed.

Lemma half_finite (a : float) : is_finite a = true -> is_finite (a / 2) = true.
Proof.
  intros H. apply (mag_le_finite 1024).
  apply (div_bounded 1024 1024 _ _ _ _ _ Prim2SF_two (finite_mag_le _ H));
    unfold emax, prec, SpecFloat.emin; simpl; lia.
Qed.

Lemma grover_time_number (e ops : float) :
  is_finite e = true -> pow_sound P (e / 2) = true -> is_nan ops = false ->
  exists t : float,
    grover_time_seconds P e ops true = Ok t /\ is_nan t = false.
Proof.
  intros He. rewrite grover_is_classical_at_half.
  apply classical_time_number, half_finite, He.
Qed.

(** [human_time] returns on every float. *)
Lemma human_time_returns (seconds : float) :
  exists out : str, human_time seconds = Ok out.
Proof.
  unfold human_time.
  destruct (PyFloat.neb seconds seconds || (seconds =? infinity));
    [eexists; reflexivity|].
  destruct (seconds <? 1); [eexists; reflexivity|]. cbv zeta.
  destruct (seconds <? 60); [eexists; reflexivity|].
  destruct (seconds <? 3600); [eexists; reflexivity|].
  destruct (seconds <? 86400); [eexists; reflexivity|].
  destruct (seconds <? 31536000); eexists; reflexivity.
Qed.

Lemma sound_pool (pool : Z) :
  In pool pools ->
  exists lg : float,
    math_log2 P pool = Ok lg /\
    (forall n, In n generated_lengths ->
               entropy_fits (pow_sound P) lg n = true) /\
    (forall l, In l lengths -> sweep_fits (pow_sound P) lg l = true).
Proof.
  intros Hp. pose proof sound as H. unfold libm_sound, libm_fits in H.
  rewrite forallb_forall in H. specialize (H pool Hp).
  destruct (math_log2 P pool) as [lg|]; [|discriminate].
  apply andb_true_iff in H as [H1 H2]. rewrite forallb_forall in H1, H2.
  exists lg. split; [reflexivity|]. split; assumption.
Qed.

(** Every row of the sweep is computed, whatever the password and the
    throughputs. *)
Lemma sweep_row_returns (pool : Z) (c_ops q_ops : float) (l : Z) :
  In pool pools -> In l lengths ->
  exists e lc lq : float, sweep_row P pool c_ops q_ops l = Ok (l, e, lc, lq).
Proof.
  intros Hp Hl. destruct (sound_pool pool Hp) as [lg [E [_ Hs]]].
  specialize (Hs l Hl). unfold sweep_fits in Hs. unfold sweep_row.
  rewrite E. simpl bind.
  destruct (PyFloat.of_int l) as [lf|]; [|discriminate]. simpl bind.
  apply andb_true_iff in Hs as [Hc Hq].
  apply pow_sound_regular in Hc, Hq.
  destruct (classical_time_nonneg P _ c_ops Hc) as [c_t [-> Hct]]. simpl bind.
  destruct (grover_time_nonneg P _ q_ops Hq) as [q_t [-> Hqt]]. simpl bind.
  destruct (math_log10_positive P regular _ (add_one_positive c_t Hct))
    as [lc ->].
  destruct (math_log10_positive P regular _ (add_one_positive q_t Hqt))
    as [lq ->].
  simpl. eauto.
Qed.

Lemma sweep_returns (password : str) (c_ops q_ops : float) :
  exists rows : list row,
    sweep P password c_ops q_ops = Ok rows /\
    map (fun r : row => fst (fst (fst r))) rows = lengths.
Proof.
  unfold sweep. apply mapM_rows. intros l Hl.
  apply sweep_row_returns; [apply sweep_pool_in|exact Hl].
Qed.

Lemma generated_length_in (n : Z) :
  (6 <= n <= 64)%Z -> In n generated_lengths.
Proof.
  intros H. unfold generated_lengths. apply in_map_iff.
  exists (Z.to_nat n). split; [lia|]. apply in_seq. lia.
Qed.

(** The entropy of a generated password is computed and finite, and [pow]
    is sound on it and on its half. *)
Lemma generated_entropy (password : str) :
  (6 <= len password <= 64)%Z ->
  Forall (fun c => In c alphabet) password ->
  exists e : float,
    estimate_entropy P password = Ok e /\ is_finite e = true /\
    pow_sound P e = true /\ pow_sound P (e / 2) = true.
Proof.
  intros Hl Ha.
  assert (Hne : password <> [])
    by (intros ->; unfold len in Hl; simpl in Hl; lia).
  pose proof (alphabet_pool P password Hne Ha) as Hp.
  destruct (sound_pool _ Hp) as [lg [E [Hs _]]].
  specialize (Hs _ (generated_length_in _ Hl)). unfold entropy_fits in Hs.
  assert (Hz : (effective_pool P password =? 0)%Z = false).
  { apply Z.eqb_neq. intros Hz. rewrite Hz in Hp. simpl in Hp.
    repeat (destruct Hp as [Hp|Hp]; [discriminate|]). contradiction. }
  unfold estimate_entropy. rewrite Hz, E. simpl bind.
  unfold entropy_at in Hs.
  destruct (x <- PyFloat.of_int (len password) ;; PyFloat.round2 (lg * x))
    as [e|]; [|discriminate].
  apply andb_true_iff in Hs as [Hs H2]. apply andb_true_iff in Hs as [H0 H1].
  exists e. repeat split; assumption.
Qed.

(** The analysis of a generated password returns, for throughputs that are
    numbers. *)
Lemma analysis_returns (password : str) (c_ops q_ops : float) :
  (6 <= len password <= 64)%Z ->
  Forall (fun c => In c alphabet) password ->
  is_nan c_ops = false -> is_nan q_ops = false ->
  exists r : report,
    analysis P password c_ops q_ops = Ok r /\
    (0 <= c_pct r <= 100)%Z /\ (0 <= q_pct r <= 100)%Z /\
    map (fun r : row => fst (fst (fst r))) (data r) = lengths.
Proof.
  intros Hl Ha Hc Hq. unfold analysis.
  destruct (generated_entropy password Hl Ha) as [e [-> [He [H1 H2]]]].
  simpl bind.
  destruct (classical_time_number e c_ops He H1 Hc) as [tc [-> Htc]].
  simpl bind.
  destruct (grover_time_number e q_ops He H2 Hq) as [tq [-> Htq]].
  simpl bind.
  destruct (human_time_returns tc) as [hc ->].
  destruct (human_time_returns tq) as [hq ->]. simpl bind.
  destruct (time_to_percent_years_total P regular tc Htc) as [pc [-> Hpc]].
  destruct (time_to_percent_years_total P regular tq Htq) as [pq [-> Hpq]].
  simpl bind.
  destruct (sweep_returns password c_ops q_ops) as [rows [-> Hrows]].
  simpl bind. eexists. split; [reflexivity|]. simpl. auto.
Qed.

End AnalysisFacts.

(** ** Recommendation *)

Section RecommendFacts.
Import FloatOrder.
Local Open Scope float_scope.

Lemma SFcompare_le_lt_trans (x y z : spec_float) (c : comparison) :
  SFcompare x y = Some c -> c <> Gt -> SFcompare y z = Some Lt ->
  SFcompare x z = Some Lt.
Proof.
  destruct x as [[]|[]| |[] m e], y as [[]|[]| |[] m' e'],
           z as [[]|[]| |[] m'' e'']; simpl; intros H1 H3 H2;
  try discriminate; try reflexivity; try congruence;
  injection H1 as H1; injection H2 as H2; f_equal; cmp_cases.
Qed.

Lemma leb_ltb_trans (x y z : float) :
  (x <=? y) = true -> (y <? z) = true -> (x <? z) = true.
Proof.
  rewrite leb_spec, !ltb_spec. unfold SFleb, SFltb.
  destruct (SFcompare (Prim2SF x) (Prim2SF y)) as [c|] eqn:E1; [|discriminate].
  destruct (SFcompare (Prim2SF y) (Prim2SF z)) as [[]|] eqn:E2;
    try discriminate.
  intros Hc _.
  rewrite (SFcompare_le_lt_trans _ _ _ c E1); [reflexivity| |exact E2].
  destruct c; congruence.
Qed.

Lemma recommend_le (e1 e2 : float) :
  (e1 <=? e2) = true -> (rank (recommend e1) <= rank (recommend e2))%nat.
Proof.
  intros H. unfold recommend.
  pose proof (leb_ltb_trans e1 e2 40 H) as H40.
  pose proof (leb_ltb_trans e1 e2 60 H) as H60.
  pose proof (leb_ltb_trans e1 e2 80 H) as H80.
  destruct (e2 <? 40).
  { rewrite H40 by reflexivity. simpl. lia. }
  destruct (e2 <? 60).
  { rewrite H60 by reflexivity. destruct (e1 <? 40); simpl; lia. }
  destruct (e2 <? 80).
  { rewrite H80 by reflexivity.
    destruct (e1 <? 40), (e1 <? 60); simpl; lia. }
  destruct (e1 <? 40), (e1 <? 60), (e1 <? 80); simpl; lia.
Qed.

Lemma nan_ltb (e c : float) : is_nan e = true -> (e <? c) = false.
Proof.
  rewrite is_nan_spec, ltb_spec. destruct (Prim2SF e); try discriminate.
  reflexivity.
Qed.

End RecommendFacts.

(** The recommendation follows the entropy: more bits never earn a weaker
    one; the thresholds 40, 60 and 80 belong to the stronger one; and an
    entropy that is not a number is recommended as very strong. *)
Theorem recommend_monotone :
  (forall e1 e2 : float,
     (e1 <=? e2)%float = true ->
     (rank (recommend e1) <= rank (recommend e2))%nat) /\
  (forall e : float,
     recommend e = Weak <-> (e <? 40)%float = true) /\
  recommend 40 = Moderate /\ recommend 60 = Strong /\
  recommend 80 = Very_strong /\
  (forall e : float, is_nan e = true -> recommend e = Very_strong).
Proof.
  split; [exact recommend_le|]. split; [|repeat split].
  - intros e. unfold recommend.
    destruct (e <? 40)%float; [tauto|].
    destruct (e <? 60)%float; [split; discriminate|].
    destruct (e <? 80)%float; split; discriminate.
  - intros e H. unfold recommend. rewrite !(nan_ltb e _ H). reflexivity.
Qed.

(** ** The script *)

(** The script analyses the password of the session state, never the text
    of the box: a run depends on the text in no way, the session stores
    nothing but the empty string or a password of the generator, and so
    every password that is analysed has 6 to 64 characters of the alphabet
    and one of the eleven pools; the pool 0, for which [estimate_entropy]
    returns 0.0 and the sweep takes the lowercase pool, does not occur. *)
Theorem script_analyses_generated :
  forall (P : Platform) (state : session_state) (w : widgets),
    (forall t : str, script P state (with_text w t) = script P state w) /\
    (reachable P state ->
     state = None \/ state = Some [] \/
     exists (n : Z) (random : nat -> N),
       (6 <= n <= 64)%Z /\ state = Some (generate n random)) /\
    (reachable P state ->
     forall (state' : session_state) (password : str) (r : report),
       script P state w = Results state' password r ->
       state' = state /\ state = Some password /\
       (6 <= len password <= 64)%Z /\
       Forall (fun c => In c alphabet) password /\
       In (effective_pool P password) pools /\
       sweep_pool P password = effective_pool P password).
Proof.
  intros P state w. split; [reflexivity|]. split.
  - intros H. apply reachable_ok in H.
    destruct state as [[|c rest]|]; [tauto| |tauto].
    right. right. destruct H as [Hl Ha].
    destruct (generate_onto _ Ha) as [random E].
    exists (len (c :: rest)), random. split; [exact Hl|]. rewrite E.
    reflexivity.
  - intros H state' password r. apply reachable_ok in H. unfold script.
    destruct (button w); [discriminate|].
    destruct state as [[|c rest]|]; try discriminate.
    destruct (analysis P (c :: rest) (c_ops w) (q_ops w)) as [r'|];
      [|discriminate].
    intros E. injection E as <- <- _. destruct H as [Hl Ha].
    assert (Hp : In (effective_pool P (c :: rest)) pools)
      by (apply alphabet_pool; [discriminate|exact Ha]).
    repeat split; try assumption; try lia.
    unfold sweep_pool.
    destruct (effective_pool P (c :: rest) =? 0)%Z eqn:Ez; [|reflexivity].
    apply Z.eqb_eq in Ez. rewrite Ez in Hp. simpl in Hp.
    repeat (destruct Hp as [Hp|Hp]; [discriminate|]). contradiction.
Qed.

(** No run of the page fails: with a C library that is regular and sound on
    the exponents of the page, and throughputs that are numbers, a run
    reruns, asks for a password or shows results, in every session; the
    meters of the results are between 0 and 100, and the chart has its 29
    rows. *)
Theorem page_never_fails :
  forall (P : Platform) (state : session_state) (w : widgets),
    libm_regular P -> libm_sound P = true ->
    reachable P state ->
    is_nan (c_ops w) = false -> is_nan (q_ops w) = false ->
    match script P state w with
    | Failed _ _ => False
    | Results _ _ r =>
        (0 <= c_pct r <= 100)%Z /\ (0 <= q_pct r <= 100)%Z /\
        map (fun r : row => fst (fst (fst r))) (data r) = lengths
    | Rerun _ | Info _ => True
    end.
Proof.
  intros P state w HR HS H Hc Hq. apply reachable_ok in H. unfold script.
  destruct (button w); [exact I|].
  destruct state as [[|c rest]|]; try exact I.
  destruct H as [Hl Ha].
  destruct (analysis_returns P HR HS (c :: rest) (c_ops w) (q_ops w)
              Hl Ha Hc Hq) as [r [-> Hr]].
  exact Hr.
Qed.

Lemma page_never_fails_witness :
  match script Reference.platform
          (Some (generate 12 (fun i => N.of_nat (7 * i))))
          {| text_input := lit "qwerty"; gen_len := 12; button := false;
             random := fun _ => 0%N; c_ops := 1e9; q_ops := 1e6 |} with
  | Failed _ _ => False
  | Results _ _ r =>
      (0 <= c_pct r <= 100)%Z /\ (0 <= q_pct r <= 100)%Z /\
      map (fun r : row => fst (fst (fst r))) (data r) = lengths
  | Rerun _ | Info _ => True
  end.
Proof.
  apply (page_never_fails Reference.platform).
  - exact reference_regular.
  - exact reference_sound.
  - apply (reachable_run Reference.platform None
             {| text_input := []; gen_len := 12; button := true;
                random := fun i => N.of_nat (7 * i); c_ops := 1e9;
                q_ops := 1e6 |}).
    + apply reachable_first.
    + unfold in_bounds. simpl. lia.
  - reflexivity.
  - reflexivity.
Defined.

(** ** The rows of the sweep *)

Lemma mapM_Forall2 {A B : Type} (f : A -> Py B) (Q : A -> B -> Prop)
    (xs : list A) (ys : list B) :
  (forall x y, f x = Ok y -> Q x y) ->
  mapM f xs = Ok ys -> Forall2 Q xs ys.
Proof.
  intros H. revert ys. induction xs as [|x xs IH]; intros ys; simpl.
  - intros E. injection E as <-. constructor.
  - destruct (f x) as [y|] eqn:Ey; [|discriminate]. simpl.
    destruct (mapM f xs) as [ys'|]; [|discriminate]. simpl.
    intros E. injection E as <-. constructor; [apply H, Ey|apply IH; reflexivity].
Qed.

Section RowFacts.
Variable P : Platform.
Local Open Scope float_scope.

(** What a row of the sweep holds. *)
Lemma sweep_row_inv (pool : Z) (c_ops q_ops : float) (l : Z) (r : row) :
  sweep_row P pool c_ops q_ops l = Ok r ->
  exists lg lf c_t q_t : float,
    math_log2 P pool = Ok lg /\ PyFloat.of_int l = Ok lf /\
    classical_time_seconds P (lg * lf) c_ops true = Ok c_t /\
    grover_time_seconds P (lg * lf) q_ops true = Ok q_t /\
    math_log10 P (c_t + 1) = Ok (snd (fst r)) /\
    math_log10 P (q_t + 1) = Ok (snd r) /\
    fst (fst r) = (l, lg * lf).
Proof.
  unfold sweep_row.
  destruct (math_log2 P pool) as [lg|] eqn:E1; [|discriminate]. simpl bind.
  destruct (PyFloat.of_int l) as [lf|] eqn:E2; [|discriminate]. simpl bind.
  destruct (classical_time_seconds P (lg * lf) c_ops true) as [c_t|] eqn:E3;
    [|discriminate]. simpl bind.
  destruct (grover_time_seconds P (lg * lf) q_ops true) as [q_t|] eqn:E4;
    [|discriminate]. simpl bind.
  destruct (math_log10 P (c_t + 1)) as [lc|] eqn:E5; [|discriminate].
  simpl bind.
  destruct (math_log10 P (q_t + 1)) as [lq|] eqn:E6; [|discriminate].
  simpl bind.
  intros E. injection E as <-. exists lg, lf, c_t, q_t. simpl.
  repeat split; assumption.
Qed.

Lemma Forall2_Forall {A B : Type} (Q : B -> Prop) (xs : list A)
    (ys : list B) :
  Forall2 (fun _ y => Q y) xs ys -> Forall Q ys.
Proof. induction 1; constructor; assumption. Qed.

Lemma log10_of_infinity : math_log10 P (infinity + 1) = Ok infinity.
Proof. reflexivity. Qed.

Lemma percent_of_infinity : time_to_percent_years P infinity = Ok 100%Z.
Proof. reflexivity. Qed.

Lemma sweep_classical_infinite (password : str) (c_ops q_ops : float)
    (rows : list row) :
  (c_ops <=? 0) = true -> sweep P password c_ops q_ops = Ok rows ->
  Forall (fun r : row => snd (fst r) = infinity) rows.
Proof.
  intros H E. apply (Forall2_Forall _ lengths).
  revert E. apply mapM_Forall2. intros l r Er.
  destruct (sweep_row_inv _ _ _ _ _ Er)
    as [lg [lf [c_t [q_t [_ [_ [Ec [_ [El _]]]]]]]]].
  unfold classical_time_seconds in Ec. rewrite H in Ec.
  injection Ec as <-. rewrite log10_of_infinity in El. congruence.
Qed.

Lemma sweep_quantum_infinite (password : str) (c_ops q_ops : float)
    (rows : list row) :
  (q_ops <=? 0) = true -> sweep P password c_ops q_ops = Ok rows ->
  Forall (fun r : row => snd r = infinity) rows.
Proof.
  intros H E. apply (Forall2_Forall _ lengths).
  revert E. apply mapM_Forall2. intros l r Er.
  destruct (sweep_row_inv _ _ _ _ _ Er)
    as [lg [lf [c_t [q_t [_ [_ [_ [Eq [_ [El _]]]]]]]]]].
  unfold grover_time_seconds in Eq. rewrite H in Eq.
  injection Eq as <-. rewrite log10_of_infinity in El. congruence.
Qed.

End RowFacts.

(** The sweep never fails: for every password (of any characters and any
    length) and all throughputs, with a C library that is regular and sound
    on the exponents of the page, it returns its 29 rows, and the row of the
    length [l] holds [l] and the entropy [log2(pool) * l], not rounded, over
    the pool of the password (26 for a password without a class). *)
Theorem sweep_never_fails :
  forall (P : Platform) (password : str) (c_ops q_ops : float),
    libm_regular P -> libm_sound P = true ->
    exists (lg : float) (rows : list row),
      math_log2 P (sweep_pool P password) = Ok lg /\
      sweep P password c_ops q_ops = Ok rows /\
      Forall2 (fun (l : Z) (r : row) =>
                 exists lf : float,
                   PyFloat.of_int l = Ok lf /\
                   fst (fst r) = (l, (lg * lf)%float)) lengths rows.
Proof.
  intros P password c_ops q_ops HR HS.
  destruct (sound_pool P HS _ (sweep_pool_in P password)) as [lg [E _]].
  destruct (sweep_returns P HR HS password c_ops q_ops) as [rows [Er _]].
  exists lg, rows. split; [exact E|]. split; [exact Er|].
  revert Er. unfold sweep. apply mapM_Forall2. intros l r Hr.
  destruct (sweep_row_inv _ _ _ _ _ _ Hr)
    as [lg' [lf [_ [_ [E' [El [_ [_ [_ [_ Hf]]]]]]]]]].
  exists lf. split; [exact El|]. congruence.
Qed.

Lemma sweep_never_fails_witness :
  exists (lg : float) (rows : list row),
    math_log2 Reference.platform
      (sweep_pool Reference.platform (lit "Tr0ub4dor&3")) = Ok lg /\
    sweep Reference.platform (lit "Tr0ub4dor&3") nan 0 = Ok rows /\
    Forall2 (fun (l : Z) (r : row) =>
               exists lf : float,
                 PyFloat.of_int l = Ok lf /\
                 fst (fst r) = (l, (lg * lf)%float)) lengths rows.
Proof.
  apply (sweep_never_fails Reference.platform (lit "Tr0ub4dor&3") nan 0).
  - exact reference_regular.
  - exact reference_sound.
Defined.

(** With a throughput that is zero or negative the page shows an attack
    that never ends: the time is +infinity, rendered as the infinity sign in
    the table and in the caption, the meter is full, and the column of the
    chart is +infinity at every length.  This holds for each adversary on
    its own throughput. *)
Theorem nonpositive_ops_report :
  forall (P : Platform) (password : str) (c_ops q_ops : float),
    match analysis P password c_ops q_ops with
    | Ok r =>
        ((c_ops <=? 0)%float = true ->
         classical_avg r = infinity /\
         fst (table r) = infinity_symbol /\
         fst (captions r) = infinity_symbol /\
         c_pct r = 100%Z /\
         Forall (fun x : row => snd (fst x) = infinity) (data r)) /\
        ((q_ops <=? 0)%float = true ->
         quantum_avg r = infinity /\
         snd (table r) = infinity_symbol /\
         snd (captions r) = infinity_symbol /\
         q_pct r = 100%Z /\
         Forall (fun x : row => snd x = infinity) (data r))
    | Raise _ => True
    end.
Proof.
  intros P password c_ops q_ops. unfold analysis.
  destruct (estimate_entropy P password) as [e|]; [|exact I]. simpl bind.
  destruct (classical_time_seconds P e c_ops true) as [tc|] eqn:Ec;
    [|exact I]. simpl bind.
  destruct (grover_time_seconds P e q_ops true) as [tq|] eqn:Eq;
    [|exact I]. simpl bind.
  destruct (human_time tc) as [hc|] eqn:Ehc; [|exact I].
  destruct (human_time tq) as [hq|] eqn:Ehq; [|exact I]. simpl bind.
  destruct (time_to_percent_years P tc) as [pc|] eqn:Epc; [|exact I].
  destruct (time_to_percent_years P tq) as [pq|] eqn:Epq; [|exact I].
  simpl bind.
  destruct (sweep P password c_ops q_ops) as [rows|] eqn:Es; [|exact I].
  simpl. split; intros H.
  - unfold classical_time_seconds in Ec. rewrite H in Ec.
    injection Ec as <-. rewrite percent_of_infinity in Epc.
    injection Ehc as <-. injection Epc as <-.
    repeat split. exact (sweep_classical_infinite P _ _ _ _ H Es).
  - unfold grover_time_seconds in Eq. rewrite H in Eq.
    injection Eq as <-. rewrite percent_of_infinity in Epq.
    injection Ehq as <-. injection Epq as <-.
    repeat split. exact (sweep_quantum_infinite P _ _ _ _ H Es).
Qed.

(** ** The recommendation of a generated password *)

Lemma verdict_at_spec (n : Z) (v : recommendation) :
  verdict_at n v = true ->
  (n = 6%Z -> v = Weak) /\
  ((n <= 12)%Z -> v <> Very_strong) /\
  ((13 <= n)%Z -> v <> Weak) /\
  ((25 <= n)%Z -> v = Very_strong).
Proof.
  unfold verdict_at. intros H.
  apply andb_true_iff in H as [H H4]. apply andb_true_iff in H as [H H3].
  apply andb_true_iff in H as [H1 H2].
  repeat split.
  - intros ->. destruct v; try reflexivity; discriminate H1.
  - intros Hn Hv. subst v. apply Z.leb_le in Hn. rewrite Hn in H2.
    discriminate H2.
  - intros Hn Hv. subst v. apply Z.leb_le in Hn. rewrite Hn in H3.
    discriminate H3.
  - intros Hn. apply Z.leb_le in Hn. rewrite Hn in H4.
    destruct v; try reflexivity; discriminate H4.
Qed.

Lemma reference_verdicts : verdicts_hold Reference.platform = true.
Proof. vm_compute. reflexivity. Qed.

Lemma math_log2_platform (P Q : Platform) (pool : Z) :
  log_2 P = log_2 Q -> math_log2 P pool = math_log2 Q pool.
Proof. intros H. unfold math_log2. rewrite H. reflexivity. Qed.

Lemma verdicts_sound (P : Platform) (password : str) :
  verdicts_hold P = true ->
  (6 <= len password <= 64)%Z ->
  Forall (fun c => In c alphabet) password ->
  exists e : float,
    estimate_entropy P password = Ok e /\
    verdict_at (len password) (recommend e) = true.
Proof.
  intros H Hl Ha.
  assert (Hne : password <> [])
    by (intros ->; unfold len in Hl; simpl in Hl; lia).
  pose proof (alphabet_pool P password Hne Ha) as Hp.
  unfold verdicts_hold in H. rewrite forallb_forall in H.
  specialize (H _ Hp).
  destruct (math_log2 P (effective_pool P password)) as [lg|] eqn:E;
    [|discriminate].
  rewrite forallb_forall in H. specialize (H _ (generated_length_in _ Hl)).
  assert (Hz : (effective_pool P password =? 0)%Z = false).
  { apply Z.eqb_neq. intros Hz. rewrite Hz in Hp. simpl in Hp.
    repeat (destruct Hp as [Hp|Hp]; [discriminate|]). contradiction. }
  unfold estimate_entropy. rewrite Hz, E. simpl bind.
  unfold entropy_at in H.
  destruct (x <- PyFloat.of_int (len password) ;; PyFloat.round2 (lg * x))
    as [e|]; [|discriminate].
  exists e. split; [reflexivity|exact H].
Qed.

Lemma forallb_eq {A : Type} (f g : A -> bool) (xs : list A) :
  (forall x, f x = g x) -> forallb f xs = forallb g xs.
Proof.
  intros H. induction xs as [|x xs IH]; simpl; [reflexivity|].
  rewrite H, IH. reflexivity.
Qed.

Lemma verdicts_hold_platform (P Q : Platform) :
  log_2 P = log_2 Q -> verdicts_hold P = verdicts_hold Q.
Proof.
  intros H. unfold verdicts_hold. apply forallb_eq. intros pool.
  rewrite (math_log2_platform P Q pool H). reflexivity.
Qed.

(** What the length decides of the recommendation of a generated password,
    with the [log2] of the reference C library, whatever the characters
    drawn: at the least length 6 it is always "Weak"; up to the default
    length 12 it is never "Very strong"; from 13 characters on it is never
    "Weak"; from 25 characters on it is always "Very strong". *)
Theorem generated_recommendation :
  forall (P : Platform) (gen_len : Z) (random : nat -> N),
    log_2 P = log_2 Reference.platform ->
    (6 <= gen_len <= 64)%Z ->
    exists e : float,
      estimate_entropy P (generate gen_len random) = Ok e /\
      (gen_len = 6%Z -> recommend e = Weak) /\
      ((gen_len <= 12)%Z -> recommend e <> Very_strong) /\
      ((13 <= gen_len)%Z -> recommend e <> Weak) /\
      ((25 <= gen_len)%Z -> recommend e = Very_strong).
Proof.
  intros P gen_len random HP Hn.
  pose proof (generate_length gen_len random) as Hl.
  destruct (verdicts_sound P (generate gen_len random)) as [e [E Hv]].
  - rewrite (verdicts_hold_platform P Reference.platform HP).
    exact reference_verdicts.
  - lia.
  - apply generate_alphabet.
  - exists e. split; [exact E|].
    replace (len (generate gen_len random)) with gen_len in Hv by lia.
    apply verdict_at_spec, Hv.
Qed.

Lemma generated_recommendation_witness :
  exists e : float,
    estimate_entropy Reference.platform
      (generate 12 (fun i => N.of_nat (7 * i))) = Ok e /\
    (12%Z = 6%Z -> recommend e = Weak) /\
    ((12 <= 12)%Z -> recommend e <> Very_strong) /\
    ((13 <= 12)%Z -> recommend e <> Weak) /\
    ((25 <= 12)%Z -> recommend e = Very_strong).
Proof.
  apply (generated_recommendation Reference.platform 12
           (fun i => N.of_nat (7 * i))).
  - reflexivity.
  - lia.
Defined.

(** ** The shape of a duration *)

Section HumanShape.
Local Open Scope float_scope.
Import FloatOrder.

Lemma human_time_cases (seconds : float) :
  (PyFloat.neb seconds seconds || (seconds =? infinity) = true /\
   human_time seconds = Ok infinity_symbol) \/
  (PyFloat.neb seconds seconds || (seconds =? infinity) = false /\
   exists (places : nat) (value : float) (unit : str),
     human_time seconds
     = Ok (PyFloat.format_f places value ++ lit " " ++ unit) /\
     (places = 2 \/ places = 3)%nat /\
     In unit [lit "s"; lit "min"; lit "hr"; lit "days"; lit "years"]).
Proof.
  unfold human_time.
  destruct (PyFloat.neb seconds seconds || (seconds =? infinity));
    [left; split; reflexivity|right; split; [reflexivity|]].
  destruct (seconds <? 1).
  { exists 3%nat, seconds, (lit "s"). simpl. tauto. }
  cbv zeta.
  destruct (seconds <? 60).
  { exists 2%nat, seconds, (lit "s"). simpl. tauto. }
  destruct (seconds <? 3600).
  { exists 2%nat, (seconds / 60), (lit "min"). simpl. tauto. }
  destruct (seconds <? 86400).
  { exists 2%nat, (seconds / 3600), (lit "hr"). simpl. tauto. }
  destruct (seconds <? 31536000).
  { exists 2%nat, (seconds / 86400), (lit "days"). simpl. tauto. }
  exists 2%nat, (seconds / 31536000), (lit "years"). simpl. tauto.
Qed.

Lemma with_unit_not_symbol (number unit : str) :
  unit <> [] -> number ++ lit " " ++ unit <> infinity_symbol.
Proof.
  intros Hu H. apply (f_equal (@List.length char)) in H.
  rewrite !length_app in H. destruct unit; [contradiction|].
  simpl in H. lia.
Qed.

Lemma ltb_leb_trans (x y z : float) :
  (x <? y) = true -> (y <=? z) = true -> (x <? z) = true.
Proof.
  rewrite leb_spec, !ltb_spec. unfold SFleb, SFltb.
  destruct (SFcompare (Prim2SF x) (Prim2SF y)) as [[]|] eqn:E1;
    try discriminate.
  destruct (SFcompare (Prim2SF y) (Prim2SF z)) as [c|] eqn:E2;
    [|discriminate].
  intros _ Hc.
  rewrite (SFcompare_lt_le_trans _ _ _ c E1 E2); [reflexivity|].
  destruct c; congruence.
Qed.

End HumanShape.

(** [human_time] returns on every float: the infinity sign for a NaN and
    for +infinity and for nothing else, and otherwise a number with two or
    three decimal places, a space and one of the five units.  A negative
    duration, and -infinity too, is rendered in seconds. *)
Theorem human_time_shape :
  (forall seconds : float,
     exists out : str,
       human_time seconds = Ok out /\
       (out = infinity_symbol <->
        PyFloat.neb seconds seconds || (seconds =? infinity)%float = true) /\
       (out = infinity_symbol \/
        exists (places : nat) (value : float) (unit : str),
          out = PyFloat.format_f places value ++ lit " " ++ unit /\
          (places = 2 \/ places = 3)%nat /\
          In unit [lit "s"; lit "min"; lit "hr"; lit "days"; lit "years"])) /\
  (forall seconds : float,
     (seconds <? 0)%float = true ->
     human_time seconds = Ok (PyFloat.format_f 3 seconds ++ lit " s")) /\
  human_time neg_infinity = Ok (lit "-inf s") /\
  human_time (-90) = Ok (lit "-90.000 s").
Proof.
  split; [|split; [|split; vm_compute; reflexivity]].
  - intros seconds.
    destruct (human_time_cases seconds)
      as [[Hc E]|[Hc [places [value [unit [E [Hp Hu]]]]]]];
      rewrite E, Hc; eexists; (split; [reflexivity|]).
    + split; [tauto|]. left. reflexivity.
    + split.
      * split; [|discriminate]. intros H.
        exfalso. revert H. apply with_unit_not_symbol.
        simpl in Hu. intros ->.
        repeat (destruct Hu as [Hu|Hu]; [discriminate Hu|]). exact Hu.
      * right. exists places, value, unit. tauto.
  - intros seconds H. apply human_time_subsecond.
    exact (ltb_leb_trans seconds 0 1 H eq_refl).
Qed.

(** ** The lengths that the crack times bear *)

Section SafeLengths.
Variable P : Platform.
Local Open Scope float_scope.

Lemma classical_time_returns (e ops p : float) (average : bool) :
  pow2 P e = Ok p ->
  exists t : float, classical_time_seconds P e ops average = Ok t.
Proof.
  intros Hp. destruct (ops <=? 0) eqn:H.
  - unfold classical_time_seconds. rewrite H. eexists. reflexivity.
  - rewrite classical_time_unfold, Hp by assumption. eexists. reflexivity.
Qed.

Lemma zero_pool_entropy (password : str) :
  effective_pool P password = 0%Z ->
  estimate_entropy P password = Ok 0 /\
  pow2 P 0 = Ok 1 /\ pow2 P (0 / 2) = Ok 1.
Proof.
  intros H. unfold estimate_entropy. rewrite H.
  repeat split; reflexivity.
Qed.

Lemma safe_length_in (n : Z) : (1 <= n <= 156)%Z -> In n safe_lengths.
Proof.
  intros H. unfold safe_lengths. apply in_map_iff.
  exists (Z.to_nat n). split; [lia|]. apply in_seq. lia.
Qed.

Lemma fitting_entropy (fits : float -> bool) (ls : list Z)
    (password : str) :
  (forall w, fits w = true -> pow_sound P w = true) ->
  entropies_fit P fits ls = true ->
  In (effective_pool P password) pools -> In (len password) ls ->
  exists e p q : float,
    estimate_entropy P password = Ok e /\
    pow2 P e = Ok p /\ pow2 P (e / 2) = Ok q.
Proof.
  intros Hfits H Hp Hl. unfold entropies_fit in H.
  rewrite forallb_forall in H. specialize (H _ Hp).
  destruct (math_log2 P (effective_pool P password)) as [lg|] eqn:E;
    [|discriminate].
  rewrite forallb_forall in H. specialize (H _ Hl).
  assert (Hz : (effective_pool P password =? 0)%Z = false).
  { apply Z.eqb_neq. intros Hz. rewrite Hz in Hp. simpl in Hp.
    repeat (destruct Hp as [Hp|Hp]; [discriminate|]). contradiction. }
  unfold estimate_entropy. rewrite Hz, E. simpl bind.
  unfold entropy_fits, entropy_at in H.
  destruct (x <- PyFloat.of_int (len password) ;; PyFloat.round2 (lg * x))
    as [e|]; [|discriminate].
  apply andb_true_iff in H as [H H2]. apply andb_true_iff in H as [H0 H1].
  destruct (pow2_finite P e H0 (Hfits _ H1)) as [p [Ep _]].
  destruct (pow2_finite P (e / 2) (half_finite e H0) (Hfits _ H2))
    as [q [Eq _]].
  exists e, p, q. repeat split; assumption.
Qed.

Lemma entropies_fit_platform (Q : Platform) (fits : float -> bool)
    (ls : list Z) :
  log_2 P = log_2 Q -> entropies_fit P fits ls = entropies_fit Q fits ls.
Proof.
  intros H. unfold entropies_fit. apply forallb_eq. intros pool.
  rewrite (math_log2_platform P Q pool H). reflexivity.
Qed.

End SafeLengths.

Lemma reference_pow_sound_ok (w : float) :
  reference_pow_sound w = true -> pow_sound Reference.platform w = true.
Proof.
  unfold reference_pow_sound. destruct (exp2_fits w) eqn:E; [|tauto].
  intros _. apply exp2_fits_sound, E.
Qed.

Lemma reference_safe :
  entropies_fit Reference.platform reference_pow_sound safe_lengths = true.
Proof. vm_compute. reflexivity. Qed.

Lemma long_password_overflows :
  exists e : float,
    estimate_entropy Reference.platform long_password = Ok e /\
    pow_overflows Reference.platform e = true.
Proof.
  eexists. split.
  - vm_compute. reflexivity.
  - vm_compute. reflexivity.
Qed.

Lemma long_password_alphabet : Forall (fun c => In c alphabet) long_password.
Proof.
  apply Forall_forall. intros c Hc.
  assert (H : forallb (fun c => existsb (N.eqb c) alphabet) long_password
              = true) by (vm_compute; reflexivity).
  rewrite forallb_forall in H. specialize (H c Hc).
  apply existsb_exists in H as [a [Ha E]]. apply N.eqb_eq in E. subst a.
  exact Ha.
Qed.

Lemma estimate_entropy_platform (P Q : Platform) (password : str) :
  Forall (fun c => In c alphabet) password -> log_2 P = log_2 Q ->
  estimate_entropy P password = estimate_entropy Q password.
Proof.
  intros Ha H. unfold estimate_entropy.
  rewrite (alphabet_pool_platform P Q password Ha).
  rewrite (math_log2_platform P Q _ H). reflexivity.
Qed.

(** The crack times of a password raise or return by its length: with the
    [pow] and the [log2] of the reference C library, the entropy and both
    crack times of every password of at most 156 characters are computed,
    whatever its characters, the throughput and the setting of [average];
    at 157 characters of the four classes (1029.07 bits) the classical time
    is an [OverflowError] for every throughput that is not [<= 0]. *)
Theorem crack_time_safe_length :
  forall P : Platform,
    pow_2 P = pow_2 Reference.platform ->
    log_2 P = log_2 Reference.platform ->
    (forall (password : str) (ops : float) (average : bool),
       (len password <= 156)%Z ->
       exists e tc tq : float,
         estimate_entropy P password = Ok e /\
         classical_time_seconds P e ops average = Ok tc /\
         grover_time_seconds P e ops average = Ok tq) /\
    len long_password = 157%Z /\
    (forall (ops : float) (average : bool),
       (ops <=? 0)%float = false ->
       (e <- estimate_entropy P long_password ;;
        classical_time_seconds P e ops average) = Raise OverflowError).
Proof.
  intros P Hpow Hlog.
  assert (Hfits : forall w, reference_pow_sound w = true ->
                            pow_sound P w = true).
  { intros w Hw. unfold pow_sound. rewrite Hpow.
    exact (reference_pow_sound_ok w Hw). }
  split; [|split; [reflexivity|]].
  - intros password ops average Hl.
    assert (E : exists e p q : float,
               estimate_entropy P password = Ok e /\
               pow2 P e = Ok p /\ pow2 P (e / 2)%float = Ok q).
    { destruct (effective_pool_cases P password) as [Hz|Hp].
      - exists 0%float, 1%float, 1%float. apply zero_pool_entropy, Hz.
      - apply (fitting_entropy P reference_pow_sound safe_lengths);
          [exact Hfits| |exact Hp|].
        + rewrite (entropies_fit_platform P Reference.platform _ _ Hlog).
          exact reference_safe.
        + apply safe_length_in. split; [|exact Hl].
          destruct password as [|c rest]; [|unfold len; simpl; lia].
          exfalso. simpl in Hp.
          repeat (destruct Hp as [Hp|Hp]; [discriminate|]). contradiction. }
    destruct E as [e [p [q [Ee [Ep Eq]]]]].
    destruct (classical_time_returns P e ops p average Ep) as [tc Etc].
    destruct (classical_time_returns P (e / 2) ops q average Eq) as [tq Etq].
    exists e, tc, tq. rewrite grover_is_classical_at_half. tauto.
  - intros ops average H.
    rewrite (estimate_entropy_platform P Reference.platform long_password
               long_password_alphabet Hlog).
    destruct long_password_overflows as [e [-> Ho]]. simpl bind.
    rewrite classical_time_unfold by assumption.
    assert (Ho' : pow_overflows P e = true)
      by (unfold pow_overflows; rewrite Hpow; exact Ho).
    destruct (pow2_cases P e) as [[_ ->]|[Hn _]]; [reflexivity|congruence].
Qed.

Lemma crack_time_safe_length_witness :
  (forall (password : str) (ops : float) (average : bool),
     (len password <= 156)%Z ->
     exists e tc tq : float,
       estimate_entropy Reference.platform password = Ok e /\
       classical_time_seconds Reference.platform e ops average = Ok tc /\
       grover_time_seconds Reference.platform e ops average = Ok tq) /\
  len long_password = 157%Z /\
  (forall (ops : float) (average : bool),
     (ops <=? 0)%float = false ->
     (e <- estimate_entropy Reference.platform long_password ;;
      classical_time_seconds Reference.platform e ops average)
     = Raise OverflowError).
Proof.
  apply (crack_time_safe_length Reference.platform); reflexivity.
Defined.

(** ** The quantum time of a password *)

Section StrictLengths.
Variable P : Platform.
Local Open Scope float_scope.

Lemma entropy_in (fits : float -> bool) (ls : list Z) (password : str) :
  entropies_in P fits ls = true ->
  In (effective_pool P password) pools -> In (len password) ls ->
  exists e : float, estimate_entropy P password = Ok e /\ fits e = true.
Proof.
  intros H Hp Hl. unfold entropies_in in H.
  rewrite forallb_forall in H. specialize (H _ Hp).
  destruct (math_log2 P (effective_pool P password)) as [lg|] eqn:E;
    [|discriminate].
  rewrite forallb_forall in H. specialize (H _ Hl).
  assert (Hz : (effective_pool P password =? 0)%Z = false).
  { apply Z.eqb_neq. intros Hz. rewrite Hz in Hp. simpl in Hp.
    repeat (destruct Hp as [Hp|Hp]; [discriminate|]). contradiction. }
  unfold estimate_entropy. rewrite Hz, E. simpl bind.
  unfold entropy_at in H.
  destruct (x <- PyFloat.of_int (len password) ;; PyFloat.round2 (lg * x))
    as [e|]; [|discriminate].
  exists e. split; [reflexivity|exact H].
Qed.

Lemma entropies_in_platform (Q : Platform) (fits : float -> bool)
    (ls : list Z) :
  log_2 P = log_2 Q -> entropies_in P fits ls = entropies_in Q fits ls.
Proof.
  intros H. unfold entropies_in. apply forallb_eq. intros pool.
  rewrite (math_log2_platform P Q pool H). reflexivity.
Qed.

Lemma pow_in_binade_platform (Q : Platform) :
  pow_2 P = pow_2 Q -> pow_in_binade Q -> pow_in_binade P.
Proof.
  intros H Law w m e. rewrite H. apply Law.
Qed.

End StrictLengths.

Lemma reference_strict :
  entropies_in Reference.platform strict_range safe_lengths = true.
Proof. vm_compute. reflexivity. Qed.

(** With the [pow] and the [log2] of the reference C library, for every
    password of at most 156 characters that has a character of a class,
    and for every throughput from [2^-500] to below [2^1000] operations
    per second, the entropy is at least 3 bits and the quantum crack time
    is strictly less than the classical one, for both settings of
    [average]. *)
Theorem quantum_faster_to_156 :
  forall P : Platform,
    pow_2 P = pow_2 Reference.platform ->
    log_2 P = log_2 Reference.platform ->
    forall (password : str) (ops : float) (average : bool),
      (len password <= 156)%Z -> effective_pool P password <> 0%Z ->
      (0x1p-500 <=? ops)%float = true -> (ops <? 0x1p+1000)%float = true ->
      exists e tq tc : float,
        estimate_entropy P password = Ok e /\
        (3 <=? e)%float = true /\
        grover_time_seconds P e ops average = Ok tq /\
        classical_time_seconds P e ops average = Ok tc /\
        (tq <? tc)%float = true.
Proof.
  intros P Hpow Hlog password ops average Hl Hp Ho1 Ho2.
  destruct (effective_pool_cases P password) as [Hz|Hin]; [contradiction|].
  assert (Hlen : In (len password) safe_lengths).
  { apply safe_length_in. split; [|exact Hl].
    destruct password as [|c rest]; [|unfold len; simpl; lia].
    exfalso. apply Hp. reflexivity. }
  destruct (entropy_in P strict_range safe_lengths password) as [e [Ee He]];
    [|exact Hin|exact Hlen|].
  { rewrite (entropies_in_platform P Reference.platform _ _ Hlog).
    exact reference_strict. }
  unfold strict_range in He. apply andb_true_iff in He as [H3 H1024].
  destruct (quantum_strictly_less P e ops average
              (pow_in_binade_platform P Reference.platform Hpow
                 reference_pow_in_binade) H3 H1024 Ho1 Ho2)
    as [tq [tc [Hq [Hc Hlt]]]].
  exists e, tq, tc. repeat split; assumption.
Qed.

(** The password ["password"] at [1e9] operations per second. *)
Lemma quantum_faster_to_156_witness :
  exists e tq tc : float,
    estimate_entropy Reference.platform (lit "password") = Ok e /\
    (3 <=? e)%float = true /\
    grover_time_seconds Reference.platform e 1e9 true = Ok tq /\
    classical_time_seconds Reference.platform e 1e9 true = Ok tc /\
    (tq <? tc)%float = true.
Proof.
  apply (quantum_faster_to_156 Reference.platform eq_refl eq_refl
           (lit "password") 1e9 true).
  - vm_compute. discriminate.
  - vm_compute. discriminate.
  - reflexivity.
  - reflexivity.
Defined.

(** ** Sessions *)

Lemma idle_state (P : Platform) (ws : list widgets) (state : session_state) :
  Forall (fun v => button v = false) ws ->
  state = None \/ state = Some [] ->
  after_runs P state ws = None \/ after_runs P state ws = Some [].
Proof.
  unfold after_runs. intros H. revert state.
  induction H as [|v ws Hv _ IH]; intros state Hs; simpl; [exact Hs|].
  apply IH. right. unfold script. rewrite Hv.
  destruct Hs as [->| ->]; reflexivity.
Qed.

(** Without the generator nothing is analysed: in a session in which the
    button has not been pressed, every run asks for a password, whatever
    text the box holds. *)
Theorem typed_text_is_not_analysed :
  forall (P : Platform) (ws : list widgets) (w : widgets),
    Forall (fun v => button v = false) ws -> button w = false ->
    script P (after_runs P None ws) w = Info (Some []).
Proof.
  intros P ws w H Hw.
  destruct (idle_state P ws None H (or_introl eq_refl)) as [-> | ->];
    unfold script; rewrite Hw; reflexivity.
Qed.

Lemma typed_text_is_not_analysed_witness :
  script Reference.platform
    (after_runs Reference.platform None
       [{| text_input := lit "hunter2"; gen_len := 12; button := false;
           random := fun _ => 0%N; c_ops := 1e9; q_ops := 1e6 |}])
    {| text_input := lit "correct horse battery staple"; gen_len := 12;
       button := false; random := fun _ => 0%N; c_ops := 1e9;
       q_ops := 1e6 |}
  = Info (Some []).
Proof.
  apply (typed_text_is_not_analysed Reference.platform).
  - repeat constructor.
  - reflexivity.
Defined.

(** Pressing the button has the generated password analysed: the run in
    which the button is pressed reruns the script, and the next run shows
    the results for the password just generated, of [gen_len] characters. *)
Theorem generate_then_analyse :
  forall (P : Platform) (state : session_state) (w w' : widgets),
    libm_regular P -> libm_sound P = true ->
    in_bounds w -> button w = true -> button w' = false ->
    is_nan (c_ops w') = false -> is_nan (q_ops w') = false ->
    script P state w = Rerun (Some (generate (gen_len w) (random w))) /\
    len (generate (gen_len w) (random w)) = gen_len w /\
    exists r : report,
      script P (state_after (script P state w)) w'
      = Results (Some (generate (gen_len w) (random w)))
          (generate (gen_len w) (random w)) r.
Proof.
  intros P state w w' HR HS Hb Hw Hw' Hc Hq.
  assert (E : script P state w
              = Rerun (Some (generate (gen_len w) (random w))))
    by (unfold script; rewrite Hw; reflexivity).
  unfold in_bounds in Hb.
  assert (Hl : len (generate (gen_len w) (random w)) = gen_len w)
    by (rewrite generate_length; lia).
  split; [exact E|]. split; [exact Hl|].
  rewrite E. cbn [state_after].
  destruct (analysis_returns P HR HS (generate (gen_len w) (random w))
              (c_ops w') (q_ops w')) as [r [Er _]];
    [lia|apply generate_alphabet|assumption|assumption|].
  exists r. unfold script. rewrite Hw'.
  destruct (generate (gen_len w) (random w)) as [|c rest] eqn:Eg.
  - unfold len in Hl. simpl in Hl. lia.
  - rewrite Er. reflexivity.
Qed.

Lemma generate_then_analyse_witness :
  script Reference.platform None
    {| text_input := []; gen_len := 12; button := true;
       random := fun i => N.of_nat (7 * i); c_ops := 1e9; q_ops := 1e6 |}
  = Rerun (Some (generate 12 (fun i => N.of_nat (7 * i)))) /\
  len (generate 12 (fun i => N.of_nat (7 * i))) = 12%Z /\
  exists r : report,
    script Reference.platform
      (state_after
         (script Reference.platform None
            {| text_input := []; gen_len := 12; button := true;
               random := fun i => N.of_nat (7 * i); c_ops := 1e9;
               q_ops := 1e6 |}))
      {| text_input := []; gen_len := 12; button := false;
         random := fun _ => 0%N; c_ops := 1e9; q_ops := 1e6 |}
    = Results (Some (generate 12 (fun i => N.of_nat (7 * i))))
        (generate 12 (fun i => N.of_nat (7 * i))) r.
Proof.
  apply (generate_then_analyse Reference.platform None
           {| text_input := []; gen_len := 12; button := true;
              random := fun i => N.of_nat (7 * i); c_ops := 1e9;
              q_ops := 1e6 |}
           {| text_input := []; gen_len := 12; button := false;
              random := fun _ => 0%N; c_ops := 1e9; q_ops := 1e6 |}).
  - exact reference_regular.
  - exact reference_sound.
  - unfold in_bounds. simpl. lia.
  - reflexivity.
  - reflexivity.
  - reflexivity.
  - reflexivity.
Defined.

(** The report of a password depends on it through its pool and its length
    alone: two passwords of the same length with the same classes have the
    same entropy, times, meters, recommendation and chart, as have eight
    times the letter "a" and "password". *)
Theorem report_of_pool_and_length :
  forall (P : Platform) (password other : str) (c_ops q_ops : float),
    (effective_pool P password = effective_pool P other ->
     len password = len other ->
     estimate_entropy P password = estimate_entropy P other /\
     sweep P password c_ops q_ops = sweep P other c_ops q_ops /\
     analysis P password c_ops q_ops = analysis P other c_ops q_ops) /\
    analysis P (lit "aaaaaaaa") c_ops q_ops
    = analysis P (lit "password") c_ops q_ops.
Proof.
  intros P password other c_ops q_ops.
  assert (H : forall a b : str,
             effective_pool P a = effective_pool P b -> len a = len b ->
             estimate_entropy P a = estimate_entropy P b /\
             sweep P a c_ops q_ops = sweep P b c_ops q_ops /\
             analysis P a c_ops q_ops = analysis P b c_ops q_ops).
  { intros a b Hp Hl.
    assert (E1 : estimate_entropy P a = estimate_entropy P b)
      by (unfold estimate_entropy; rewrite Hp, Hl; reflexivity).
    assert (E2 : sweep P a c_ops q_ops = sweep P b c_ops q_ops)
      by (unfold sweep, sweep_pool; rewrite Hp; reflexivity).
    split; [exact E1|]. split; [exact E2|].
    unfold analysis. rewrite E1, E2. reflexivity. }
  split; [apply H|]. apply H; reflexivity.
Qed.

(** ** The chart against the table *)

Lemma Forall2_right {A B : Type} (Q : A -> B -> Prop) (xs : list A)
    (ys : list B) :
  Forall2 Q xs ys -> Forall (fun y => exists x, Q x y) ys.
Proof. induction 1; constructor; eauto. Qed.

(** The chart and the entropy of the page agree: in the results for a
    password that has a class, a row of the chart at the length of the
    password holds the entropy before rounding, that is, rounding it to two
    places gives the entropy that the page reports. *)
Theorem chart_entropy_rounds_to_reported :
  forall (P : Platform) (password : str) (c_ops q_ops : float),
    match analysis P password c_ops q_ops with
    | Ok r =>
        effective_pool P password <> 0%Z ->
        Forall (fun x : row =>
                  fst (fst (fst x)) = len password ->
                  PyFloat.round2 (snd (fst (fst x))) = Ok (entropy r))
               (data r)
    | Raise _ => True
    end.
Proof.
  intros P password c_ops q_ops. unfold analysis.
  destruct (estimate_entropy P password) as [e|] eqn:Ee; [|exact I].
  simpl bind.
  destruct (classical_time_seconds P e c_ops true) as [tc|]; [|exact I].
  simpl bind.
  destruct (grover_time_seconds P e q_ops true) as [tq|]; [|exact I].
  simpl bind.
  destruct (human_time tc) as [hc|]; [|exact I].
  destruct (human_time tq) as [hq|]; [|exact I]. simpl bind.
  destruct (time_to_percent_years P tc) as [pc|]; [|exact I].
  destruct (time_to_percent_years P tq) as [pq|]; [|exact I]. simpl bind.
  destruct (sweep P password c_ops q_ops) as [rows|] eqn:Es; [|exact I].
  simpl. intros Hp.
  assert (Hs : sweep_pool P password = effective_pool P password).
  { unfold sweep_pool. apply Z.eqb_neq in Hp. rewrite Hp. reflexivity. }
  unfold sweep in Es. rewrite Hs in Es.
  pose proof (mapM_Forall2 _ (fun l r => sweep_row P (effective_pool P password)
                                           c_ops q_ops l = Ok r)
                _ _ (fun _ _ H => H) Es) as HF.
  apply Forall2_right in HF. revert HF. apply Forall_impl.
  intros x [l Hx] Hl.
  destruct (sweep_row_inv _ _ _ _ _ _ Hx)
    as [lg [lf [_ [_ [E1 [E2 [_ [_ [_ [_ Hf]]]]]]]]]].
  assert (El : l = len password) by (rewrite Hf in Hl; exact Hl).
  assert (Ex : snd (fst (fst x)) = (lg * lf)%float) by (rewrite Hf; reflexivity).
  rewrite Ex. revert Ee. unfold estimate_entropy.
  apply Z.eqb_neq in Hp. rewrite Hp, E1. simpl bind.
  rewrite <- El, E2. simpl bind. tauto.
Qed.
